(** * AD to OpenLDAP synchronisation: the group runner and its utilities

  A shallow embedding of [src/runners/group_sync.py] (class
  [AdLdapGroupSync]) and of [src/utils/utilities.py], followed by the
  properties of the reconciliation and change-control engine.

  Conventions of the embedding:
  - Python [int] is [Z]; [str] is [string]; [list] is [list]; [set] is
    [gset]; a [dict] used as a cache or a lookup table is a [gmap]; a
    [dict] whose iteration order is observed is an association list in
    insertion order ([odict]).
  - A directory entry is a record whose optional fields are the
    attributes the runner reads; a field that is [None] is a key that
    is missing from the entry's [attributes] dictionary.
  - Methods that log, touch the caches, set [run_status], raise or talk
    to a directory live in the monad [M]: a state transformer whose
    outcome is a value or a raised Python exception.
  - The two directories and the file system are external: they are a
    type class [Env] over an abstract world. *)

From Stdlib Require Import ZArith Floats Uint63 Lia Sorting.Mergesort Orders Ascii String.
From Equations Require Import Equations.
From stdpp Require Import gmap strings list.

Open Scope Z_scope.

(** ** Strings *)

Module Str.

(** [s.split(sep)] for a one-character separator: never empty. *)
Fixpoint split (sep : ascii) (s : string) : list string :=
  match s with
  | EmptyString => [EmptyString]
  | String ch rest =>
      if Ascii.eqb ch sep then EmptyString :: split sep rest
      else match split sep rest with
           | piece :: pieces => String ch piece :: pieces
           | [] => [String ch EmptyString]
           end
  end.

(** [s.split(sep, 1)]: at most one cut, at the first separator. *)
Fixpoint split1 (sep : ascii) (s : string) : list string :=
  match s with
  | EmptyString => [EmptyString]
  | String ch rest =>
      if Ascii.eqb ch sep then [EmptyString; rest]
      else match split1 sep rest with
           | piece :: pieces => String ch piece :: pieces
           | [] => [String ch EmptyString]
           end
  end.

(** [s.lower()] on the ASCII letters; other bytes are kept. *)
Definition lower_ascii (ch : ascii) : ascii :=
  let n := nat_of_ascii ch in
  if ((65 <=? n) && (n <=? 90))%nat then ascii_of_nat (n + 32) else ch.

Fixpoint lower (s : string) : string :=
  match s with
  | EmptyString => EmptyString
  | String ch rest => String (lower_ascii ch) (lower rest)
  end.

(** Iterating over a [str] yields its characters as one-character
    strings; this is what [list.extend(str)] appends. *)
Fixpoint chars (s : string) : list string :=
  match s with
  | EmptyString => []
  | String ch rest => String ch EmptyString :: chars rest
  end.

End Str.

(** ** Insertion-ordered dictionaries *)

Module Dict.

Definition odict (V : Type) : Type := list (string * V).

Fixpoint get {V} (d : odict V) (k : string) : option V :=
  match d with
  | [] => None
  | (k', v) :: d' => if decide (k' = k) then Some v else get d' k
  end.

(** [k in d] *)
Definition mem {V} (d : odict V) (k : string) : bool :=
  match get d k with Some _ => true | None => false end.

(** [d[k] = v]: an existing key keeps its position. *)
Fixpoint set {V} (d : odict V) (k : string) (v : V) : odict V :=
  match d with
  | [] => [(k, v)]
  | (k', v') :: d' =>
      if decide (k' = k) then (k, v) :: d' else (k', v') :: set d' k v
  end.

(** [for k in d] *)
Definition keys {V} (d : odict V) : list string := d.*1.

End Dict.

(** ** utilities.fill_array_gaps *)

Module ZOrder <: TotalLeBool.
Definition t := Z.
Definition leb := Z.leb.
Lemma leb_total : forall x y, leb x y = true \/ leb y x = true.
Proof.
  intros x y. unfold leb.
  destruct (Z.leb_spec x y); [left | right]; [reflexivity | apply Z.leb_le; lia].
Qed.
End ZOrder.

Module ZSort := Sort ZOrder.

Module Utilities.

(** Termination measure of the [while] loop: how many of the numbers
    are not below the offset. *)
Definition ids_at_or_above (numbers : list Z) (offset : Z) : nat :=
  length (List.filter (Z.leb offset) numbers).

(** [while offset in numbers: offset += 1] *)
Equations? while_offset_in (numbers : list Z) (offset : Z) : Z
  by wf (ids_at_or_above numbers offset) lt :=
  while_offset_in numbers offset with decide (offset ∈ numbers) => {
    | left _ := while_offset_in numbers (offset + 1);
    | right _ := offset }.
Proof.
  clear while_offset_in. unfold ids_at_or_above.
  induction numbers as [|x xs IH]; [by apply elem_of_nil in e|].
  assert (Hmono : (length (List.filter (Z.leb (offset + 1)) xs)
                   <= length (List.filter (Z.leb offset) xs))%nat).
  { clear. induction xs as [|y ys IHys]; cbn [List.filter length]; [lia|].
    destruct (Z.leb_spec (offset + 1) y), (Z.leb_spec offset y);
      cbn [length]; lia. }
  cbn [List.filter]. destruct (decide (x = offset)) as [->|Hne].
  - destruct (Z.leb_spec (offset + 1) offset), (Z.leb_spec offset offset);
      cbn [length]; lia.
  - apply elem_of_cons in e as [Heq|Hin]; [congruence|].
    specialize (IH Hin).
    destruct (Z.leb_spec (offset + 1) x), (Z.leb_spec offset x);
      cbn [length]; lia.
Qed.

Definition fill_array_gaps (numbers : list Z) (offset : Z) : Z :=
  let numbers := ZSort.sort numbers in
  while_offset_in numbers offset.

End Utilities.

(** ** Configuration ([basic_config]) *)

Inductive server_type := ad | openldap.

(** [config[server_type]["schema"]["objects"]]: attribute names. *)
Record objects := {
  objects_group_obj_class : string;
  objects_group_name : string;
  objects_group_gid_number : string;
  objects_group_members : string;
  objects_user_obj_class : string;
  objects_user_uid_number : string }.

(** The attributes of a directory entry that the runner reads. [None] is
    a missing key. [attr_name], [attr_gid_number], [attr_uid_number] and
    [attr_members] are the attributes that the schema configuration
    names as group name, group id, user id and group members. *)
Inductive name_object := name_str (s : string) | name_list (l : list string).

Record attributes := {
  attr_objectClass : option (list string);
  attr_name : option name_object;
  attr_gid_number : option Z;
  attr_uid_number : option Z;
  attr_members : option (list string);
  attr_userAccountControl : option Z;
  attr_sAMAccountName : option string;
  attr_c : option string }.

Record entry := { dn : string; entry_attributes : attributes }.

(** [schema["new_group"]["mask"]] *)
Record mask := { mask_objectClass : list string; mask_attributes : attributes }.

Record schema := {
  base : string;
  groups : string;
  users : string;
  schema_objects : objects;
  new_group_mask : mask;
  new_group_min_member_number : Z;
  new_user_min_member_number : Z }.

Record settings := {
  total_change_threshold : Z;
  deletions_change_threshold : Z;
  additions_change_threshold : Z;
  small_group_blind_update : Z;
  monitoring_log_file : string }.

Record config := {
  config_ad : schema;
  config_openldap : schema;
  config_settings : settings }.

Definition config_schema (cfg : config) (server : server_type) : schema :=
  match server with ad => config_ad cfg | openldap => config_openldap cfg end.

(** [ManageArguments] *)
Record arguments := {
  universal_override : bool;
  group_override : list string }.

(** [exceptions] and [country_control] come from YAML files: an empty
    file loads as [None]. *)
Record basic_config := {
  bc_config : config;
  bc_exceptions : option (gmap string string);
  bc_country_control : option (gmap string (list string));
  bc_args : arguments }.

(** ** The directories and the file system *)

Inductive action := MODIFY_ADD | MODIFY_DELETE | MODIFY_REPLACE.

Inductive change_values :=
| member_values (user_list : list string)
| number_values (numbers : list Z).

(** [{attribute: [(action, values)]}] *)
Record modification := {
  mod_attribute : string;
  mod_action : action;
  mod_values : change_values }.

(** What the runner needs from [ldap3.Connection] and [pathlib.Path]. A
    search reads the world; a modify or an add may change it.
    - [ldap_search w server base filter attributes] is
      [(connection.result["result"], connection.response)];
    - [ldap_modify] and [ldap_add] give [connection.result["result"]];
    - [path_write_text] is [None] when [OSError] is raised. *)
Class Env (W : Type) := {
  ldap_search : W → server_type → string → string → list string → Z * list entry;
  ldap_modify : W → server_type → string → modification → Z * W;
  ldap_add : W → server_type → string → list string → attributes → Z * W;
  path_write_text : W → string → string → option W }.

(** The write requests a run sends out, oldest first. *)
Inductive request :=
| modify_request (server : server_type) (group_dn : string) (m : modification)
| add_request (server : server_type) (new_dn : string)
    (object_class : list string) (attrs : attributes)
| write_request (path text : string).

(** ** Logging *)

Inductive level := DEBUG | INFO | WARNING | ERROR.

(** One constructor for each [logger] call of the two modules. *)
Inductive message :=
| search_failed_exiting
| will_modify (group_cn : string) (a : action) (user_list : list string)
| failed_to_execute (group_cn : string) (a : action)
| no_users_to_perform (group_cn : string) (a : action)
| no_gid_for_group (name : string)
| unexpected_object_type (ad_object : string)
| ids_match_valid_for_sync (group : string)
| gid_mismatch (group : string)
| only_in_one_directory (group : string)
| user_not_in_valid_country (group : string) (account : string)
| original_length (group : string) (n : Z)
| total_change_delta (group : string) (size percent : Z)
| additions_delta (group : string) (size percent : Z)
| deletions_delta (group : string) (size percent : Z)
| total_threshold_breach (group : string) (percent threshold : Z)
| deletion_threshold_breach (group : string) (percent threshold : Z)
| addition_threshold_breach (group : string) (percent threshold : Z)
| below_small_group_blind_update (group : string) (threshold : Z)
| exception_target_not_in_openldap (account : string)
| exception_target_matches_multiple (account : string)
| not_in_openldap_or_more_than_one (account : string)
| does_not_exist_in_ad (cn : string)
| running_in_override (group : string)
| breaches_thresholds (group : string)
| current_members (group : string) (names : list string)
| proposed_additions (group : string) (names : list string)
| proposed_deletions (group : string) (names : list string)
| no_override_required (group : string)
| setting_gid (gid : Z) (group : string)
| failed_to_update_gid (group : string)
| will_create_group (group : string) (server : server_type) (gid : Z)
| failed_to_create_group (group : string)
| valid_sync_groups_are (names : list string)
| unable_to_open_file
| os_error_text.

(** ** Instance state and the monad of the methods *)

(** What [_lookup_ad_user] returns. *)
Record account_data := {
  sAMAccountName : string;
  country_code : option string;
  account_active : bool }.

(** The exceptions the modelled code can raise. All but [SystemExit]
    derive from [Exception]. *)
Inductive exn :=
| IndexError
| KeyError
| RecursionError
| SystemExit (code : Z).

Definition is_Exception (e : exn) : bool :=
  match e with SystemExit _ => false | _ => true end.

Inductive outcome (A : Type) :=
| value (a : A)
| raised (e : exn).
Arguments value {A} a.
Arguments raised {A} e.

Section Monad.
Context {W : Type}.

(** The mutable attributes of an [AdLdapGroupSync] instance, the log
    written so far and the external world. *)
Record state := {
  world : W;
  run_status : bool;
  user_lookup_cache : gmap string account_data;
  object_lookup_cache : gmap string (list string);
  log : list (level * message);
  requests : list request }.

Definition M (A : Type) : Type := state → outcome A * state.

#[export] Instance M_ret : MRet M := λ A a s, (value a, s).

#[export] Instance M_bind : MBind M := λ A B f m s,
  match m s with
  | (value a, s') => f a s'
  | (raised e, s') => (raised e, s')
  end.

Definition raise {A} (e : exn) : M A := λ s, (raised e, s).

Definition gets {A} (f : state → A) : M A := λ s, (value (f s), s).

Definition update (f : state → state) : M unit := λ s, (value tt, f s).

(** [expect e o]: the value of a lookup, or [e] raised when it is
    missing. *)
Definition expect {A} (e : exn) (o : option A) : M A :=
  match o with Some a => mret a | None => raise e end.

Definition logger (lvl : level) (msg : message) : M unit :=
  update (λ s, {| world := world s; run_status := run_status s;
                  user_lookup_cache := user_lookup_cache s;
                  object_lookup_cache := object_lookup_cache s;
                  log := log s ++ [(lvl, msg)];
                  requests := requests s |}).

(** [self.run_status = False] *)
Definition set_run_status_False : M unit :=
  update (λ s, {| world := world s; run_status := false;
                  user_lookup_cache := user_lookup_cache s;
                  object_lookup_cache := object_lookup_cache s;
                  log := log s;
                  requests := requests s |}).

Definition set_world (w : W) (r : request) : M unit :=
  update (λ s, {| world := w; run_status := run_status s;
                  user_lookup_cache := user_lookup_cache s;
                  object_lookup_cache := object_lookup_cache s;
                  log := log s;
                  requests := requests s ++ [r] |}).

(** [self.user_lookup_cache[ad_user] = data] *)
Definition cache_user (ad_user : string) (data : account_data) : M unit :=
  update (λ s, {| world := world s; run_status := run_status s;
                  user_lookup_cache := <[ad_user := data]> (user_lookup_cache s);
                  object_lookup_cache := object_lookup_cache s;
                  log := log s;
                  requests := requests s |}).

(** [self.object_lookup_cache[filter_string] = response] *)
Definition cache_object (filter_string : string) (response : list string) : M unit :=
  update (λ s, {| world := world s; run_status := run_status s;
                  user_lookup_cache := user_lookup_cache s;
                  object_lookup_cache :=
                    <[filter_string := response]> (object_lookup_cache s);
                  log := log s;
                  requests := requests s |}).

(** [for x in l: acc = body(x, acc)] *)
Fixpoint for_in {A S} (l : list A) (body : A → S → M S) (acc : S) : M S :=
  match l with
  | [] => mret acc
  | x :: l' => acc' ← body x acc; for_in l' body acc'
  end.

End Monad.
Arguments state W : clear implicits.
Arguments M W A : clear implicits.

(** ** Floating-point arithmetic of the change percentages

    [a / b] on two [int]s is a binary64 division, [* 100] a binary64
    multiplication and [int(...)] a truncation toward zero. Lengths of
    lists are far below [2^53], where [float_of_int] is exact. *)

Module PyFloat.

Definition float_of_int (z : Z) : float := PrimFloat.of_uint63 (Uint63.of_Z z).

(** [a / b] *)
Definition truediv (a b : Z) : float :=
  PrimFloat.div (float_of_int a) (float_of_int b).

(** [x * n] for a float [x] and an int [n] *)
Definition mul_int (x : float) (n : Z) : float :=
  PrimFloat.mul x (float_of_int n).

(** [int(x)] of a finite float: the fractional part is dropped. *)
Definition int_of_float (x : float) : Z :=
  match Prim2SF x with
  | S754_finite sgn m e =>
      let magnitude := Z.shiftl (Z.pos m) e in
      if sgn then - magnitude else magnitude
  | _ => 0
  end.

End PyFloat.

(** ** runners.group_sync.AdLdapGroupSync *)

Module GroupSync.

(** A value of a group dictionary: [{"id", "dn", "names", "server_type"}].
    For a group of the primary directory [names] is the flattened set,
    listed in the order in which it is iterated. *)
Record group := {
  group_id : Z;
  group_dn : string;
  names : list string;
  group_server_type : server_type }.

(** A value of the operations dictionary. [override_required] is a
    missing key until [_generate_group_operations] has filled it in. *)
Record operations := {
  additions : list string;
  deletions : list string;
  override_required : option bool }.

(** The dictionary [_determine_change_percent] returns. *)
Record change_data := {
  original_len : Z;
  deletions_len : Z;
  additions_len : Z;
  total_change_size : Z;
  total_change_percent : Z;
  deletions_change_percent : Z;
  additions_change_percent : Z }.

(** The fixed dictionary of known negative values. *)
Definition unknown_user : account_data :=
  {| sAMAccountName := ""; country_code := None; account_active := false |}.

Definition _determine_change_percent
    (destination_list : list string) (destination_operations : operations)
    : change_data :=
  let original_len := Z.max (Z.of_nat (length destination_list)) 1 in
  let deletions_len := Z.of_nat (length (deletions destination_operations)) in
  let additions_len := Z.of_nat (length (additions destination_operations)) in
  let total_change_size := additions_len + deletions_len in
  {| original_len := original_len;
     deletions_len := deletions_len;
     additions_len := additions_len;
     total_change_size := total_change_size;
     total_change_percent :=
       PyFloat.int_of_float
         (PrimFloat.abs
            (PyFloat.mul_int (PyFloat.truediv total_change_size original_len) 100));
     deletions_change_percent :=
       PyFloat.int_of_float
         (PyFloat.mul_int (PyFloat.truediv deletions_len original_len) 100);
     additions_change_percent :=
       PyFloat.int_of_float
         (PyFloat.mul_int (PyFloat.truediv additions_len original_len) 100) |}.

Section Methods.
Context {W : Type} `{!Env W}.
Variable self_basic_config : basic_config.

Local Abbreviation M := (M W).
Local Abbreviation config := (bc_config self_basic_config).

Definition _determine_user_base
    (server : server_type) (user_base : option string) : string :=
  match user_base with
  | None | Some EmptyString =>
      users (config_schema config server) +:+ "," +:+ base (config_schema config server)
  | Some user_base => user_base
  end.

Definition _user_search
    (server : server_type) (user_name : string) (user_base : option string)
    : M (list entry) :=
  let user_base_string := _determine_user_base server user_base in
  let user_filter_string :=
    "(&(objectclass="
      +:+ objects_user_obj_class (schema_objects (config_schema config server))
      +:+ ")(" +:+ user_name +:+ "))" in
  w ← gets world;
  mret (ldap_search w server user_base_string user_filter_string ["*"]).2.

(** [Utilities.write_monitoring_log] *)
Definition write_monitoring_log (status : bool) (runner : string) : M unit :=
  let path := runner +:+ "_" +:+ monitoring_log_file (config_settings config) in
  let text := if status then "True" else "False" in
  w ← gets world;
  match path_write_text w path text with
  | Some w' => set_world w' (write_request path text)
  | None =>
      logger ERROR unable_to_open_file;;
      logger ERROR os_error_text;;
      raise (SystemExit 1)
  end.

Definition _group_search
    (connection : server_type) (base_string filter_string : string)
    (attrs : list string) : M (list entry) :=
  w ← gets world;
  let '(result, response) := ldap_search w connection base_string filter_string attrs in
  if decide (result ≠ 0) then
    logger ERROR search_failed_exiting;;
    write_monitoring_log false "group_sync";;
    raise (SystemExit 1)
  else mret response.

Definition _modify_group
    (server : server_type) (connection : server_type) (group_dn : string)
    (a : action) (user_list : list string) : M unit :=
  first ← expect IndexError (Str.split "," group_dn !! 0%nat);
  group_cn ← expect IndexError (Str.split "=" first !! 1%nat);
  let group_object_name :=
    objects_group_members (schema_objects (config_schema config server)) in
  let group_modification :=
    {| mod_attribute := group_object_name; mod_action := a;
       mod_values := member_values user_list |} in
  match user_list with
  | _ :: _ =>
      logger INFO (will_modify group_cn a user_list);;
      w ← gets world;
      let '(result, w') := ldap_modify w connection group_dn group_modification in
      set_world w' (modify_request connection group_dn group_modification);;
      if decide (result ≠ 0) then
        set_run_status_False;;
        logger ERROR (failed_to_execute group_cn a)
      else mret tt
  | [] => logger DEBUG (no_users_to_perform group_cn a)
  end.

Definition _determine_group_name (group_name_object : name_object) : M string :=
  match group_name_object with
  | name_list l => expect IndexError (l !! 0%nat)
  | name_str s => mret s
  end.

Definition _determine_group_id (server : server_type) (group : entry)
    (group_name : string) : M Z :=
  match attr_gid_number (entry_attributes group) with
  | Some gid => mret gid
  | None => logger DEBUG (no_gid_for_group group_name);; mret (-1)
  end.

Definition _determine_group_members (server : server_type) (group : entry)
    : list string :=
  match attr_members (entry_attributes group) with
  | Some members => members
  | None => []
  end.

Definition _check_ad_object_type (ad_object : string) (object_type : string)
    : M bool :=
  let base_string := base (config_schema config ad) in
  let filter_string := "(distinguishedName=" +:+ ad_object +:+ ")" in
  cache ← gets object_lookup_cache;
  response ←
    match cache !! filter_string with
    | Some response => mret response
    | None =>
        w ← gets world;
        first ← expect IndexError
          ((ldap_search w ad base_string filter_string ["objectClass"]).2 !! 0%nat);
        response ← expect KeyError (attr_objectClass (entry_attributes first));
        cache_object filter_string response;;
        mret response
    end;
  mret (bool_decide (object_type ∈ response)).

(** The body of [_flatten_nested_group]; [recursive_call] is the method
    itself, one stack frame deeper. [called_groups] is a list that the
    callee extends in place: it is returned with the set. *)
Definition flatten_body
    (recursive_call : list string → list string → M (gset string * list string))
    (called_groups : list string) (group_members : list string)
    : M (gset string * list string) :=
  '(return_set, nested_members, called_groups) ←
    for_in group_members
      (λ ad_object '(return_set, nested_members, called_groups),
        is_user ← _check_ad_object_type ad_object "user";
        if is_user : bool then
          mret ({[ad_object]} ∪ return_set, nested_members, called_groups)
        else
          is_group ← _check_ad_object_type ad_object "group";
          if is_group : bool then
            if bool_decide (ad_object ∉ called_groups) then
              let group_base_string := base (config_schema config ad) in
              let group_filter_string :=
                "(distinguishedName=" +:+ ad_object +:+ ")" in
              ad_search_result ←
                _group_search ad group_base_string group_filter_string ["member"];
              first ← expect IndexError (ad_search_result !! 0%nat);
              object_members ←
                expect KeyError (attr_members (entry_attributes first));
              let called_groups := called_groups ++ Str.chars ad_object in
              '(nested_members, called_groups) ←
                recursive_call called_groups object_members;
              mret (return_set, nested_members, called_groups)
            else mret (return_set, nested_members, called_groups)
          else
            logger WARNING (unexpected_object_type ad_object);;
            mret (return_set, nested_members, called_groups))
      (∅, ∅, called_groups);
  mret (nested_members ∪ return_set, called_groups).

(** [depth] is the number of stack frames that are left; Python raises
    [RecursionError] when they are used up. *)
Fixpoint _flatten_nested_group (depth : nat)
    (called_groups : list string) (group_members : list string)
    : M (gset string * list string) :=
  match depth with
  | O => raise RecursionError
  | S depth => flatten_body (_flatten_nested_group depth) called_groups group_members
  end.

Definition _create_group_dictionary (recursion_limit : nat)
    (server : server_type) (search_results : list entry)
    : M (Dict.odict group) :=
  for_in search_results
    (λ group group_dict,
      group_name_object ← expect KeyError (attr_name (entry_attributes group));
      group_name ← _determine_group_name group_name_object;
      group_id ← _determine_group_id server group group_name;
      let group_members := _determine_group_members server group in
      group_members ←
        match server with
        | ad =>
            '(flattened, _) ←
              _flatten_nested_group recursion_limit [dn group] group_members;
            mret (elements flattened)
        | openldap => mret group_members
        end;
      mret (Dict.set group_dict group_name
              {| group_id := group_id; group_dn := dn group;
                 names := group_members; group_server_type := server |}))
    [].

Definition _build_sync_group_list
    (first_group_dict second_group_dict : Dict.odict group) : M (list string) :=
  for_in (Dict.keys first_group_dict)
    (λ group valid_sync_groups,
      if Dict.mem second_group_dict group then
        first ← expect KeyError (Dict.get first_group_dict group);
        second ← expect KeyError (Dict.get second_group_dict group);
        if decide (group_id first = group_id second) then
          logger INFO (ids_match_valid_for_sync group);;
          mret (valid_sync_groups ++ [group])
        else
          logger DEBUG (gid_mismatch group);;
          mret valid_sync_groups
      else
        logger DEBUG (only_in_one_directory group);;
        mret valid_sync_groups)
    [].

Definition _check_country_control
    (data : account_data) (valid_sync_group : string) : M bool :=
  match bc_country_control self_basic_config with
  | Some country_control =>
      if decide (country_control ≠ ∅) then
        match country_control !! valid_sync_group with
        | Some allowed =>
            if decide (country_code data = Some EmptyString) then mret true
            else if match country_code data with
                    | Some code => bool_decide (code ∈ allowed)
                    | None => false
                    end
            then mret true
            else
              logger DEBUG
                (user_not_in_valid_country valid_sync_group (sAMAccountName data));;
              mret false
        | None => mret true
        end
      else mret true
  | None => mret true
  end.

Definition ms_ad_disabled_user : Z := 514.
Definition ms_ad_disabled_user_no_expire : Z := 66050.

(** The [try] block reads the first entry of the search ([IndexError]
    when there is none), then its [userAccountControl] and its
    [sAMAccountName] ([KeyError] when missing); [except Exception]
    returns the dictionary as far as it was filled in. *)
Definition _get_account_data (ad_user : string) : M account_data :=
  let data := unknown_user in
  let cn := default EmptyString (Str.split "," ad_user !! 0%nat) in
  let base := default EmptyString (last (Str.split1 "," ad_user)) in
  let except (data : account_data) : M account_data :=
    logger WARNING (does_not_exist_in_ad cn);;
    set_run_status_False;;
    mret data in
  response ← _user_search ad cn (Some base);
  match response !! 0%nat with
  | None => except data
  | Some first =>
      let full_output := entry_attributes first in
      match attr_userAccountControl full_output with
      | None => except data
      | Some control =>
          let data :=
            if bool_decide (control ≠ ms_ad_disabled_user)
               && bool_decide (control ≠ ms_ad_disabled_user_no_expire)
            then {| sAMAccountName := sAMAccountName data;
                    country_code := country_code data;
                    account_active := true |}
            else data in
          match attr_sAMAccountName full_output with
          | None => except data
          | Some name =>
              mret {| sAMAccountName := Str.lower name;
                      country_code := attr_c full_output;
                      account_active := account_active data |}
          end
      end
  end.

Definition _lookup_ad_user (ad_user : string) : M account_data :=
  let exceptions := default ∅ (bc_exceptions self_basic_config) in
  cache ← gets user_lookup_cache;
  match cache !! ad_user with
  | Some cached => mret cached
  | None =>
      data ← _get_account_data ad_user;
      match exceptions !! sAMAccountName data with
      | Some target =>
          exception_lookup ← _user_search openldap ("uid=" +:+ target) None;
          match exception_lookup with
          | [_] =>
              let data := {| sAMAccountName := target;
                             country_code := country_code data;
                             account_active := account_active data |} in
              cache_user ad_user data;;
              mret data
          | [] =>
              (if decide (target ≠ "NONE") then
                 logger WARNING
                   (exception_target_not_in_openldap (sAMAccountName data));;
                 set_run_status_False
               else mret tt);;
              mret unknown_user
          | _ =>
              logger WARNING
                (exception_target_matches_multiple (sAMAccountName data));;
              set_run_status_False;;
              mret unknown_user
          end
      | None =>
          ldap_lookup ←
            _user_search openldap ("uid=" +:+ sAMAccountName data) None;
          match ldap_lookup with
          | [_] =>
              cache_user ad_user data;;
              mret data
          | _ =>
              logger WARNING
                (not_in_openldap_or_more_than_one (sAMAccountName data));;
              set_run_status_False;;
              mret unknown_user
          end
      end
  end.

Definition _find_user_in_source_dict
    (source_dict : Dict.odict group) (destination_member : string)
    (valid_sync_group : string) : M bool :=
  source ← expect KeyError (Dict.get source_dict valid_sync_group);
  for_in (names source)
    (λ source_member found,
      data ← _lookup_ad_user source_member;
      if bool_decide (destination_member = sAMAccountName data)
         && account_active data
      then mret true
      else mret found)
    false.

Definition _generate_additions
    (source_dict destination_dict : Dict.odict group)
    (valid_sync_group : string) : M (list string) :=
  source ← expect KeyError (Dict.get source_dict valid_sync_group);
  for_in (names source)
    (λ source_member additions,
      data ← _lookup_ad_user source_member;
      destination ← expect KeyError (Dict.get destination_dict valid_sync_group);
      if bool_decide (sAMAccountName data ∉ names destination)
         && bool_decide (sAMAccountName data ≠ "")
         && account_active data
      then
        allowed ← _check_country_control data valid_sync_group;
        if allowed : bool then mret (additions ++ [sAMAccountName data])
        else mret additions
      else mret additions)
    [].

Definition _generate_deletions
    (destination_dict source_dict : Dict.odict group)
    (valid_sync_group : string) : M (list string) :=
  destination ← expect KeyError (Dict.get destination_dict valid_sync_group);
  for_in (names destination)
    (λ destination_member deletions,
      found ← _find_user_in_source_dict
                source_dict destination_member valid_sync_group;
      if found : bool then mret deletions
      else mret (deletions ++ [destination_member]))
    [].

Definition _check_override_required
    (destination_list : list string) (destination_operations : operations)
    (group_name : string) : M bool :=
  let override_required := false in
  let change := _determine_change_percent destination_list destination_operations in
  let total_threshold := total_change_threshold (config_settings config) in
  let deletions_threshold := deletions_change_threshold (config_settings config) in
  let additions_threshold := additions_change_threshold (config_settings config) in
  logger DEBUG (original_length group_name (original_len change));;
  logger DEBUG (total_change_delta group_name
                  (total_change_size change) (total_change_percent change));;
  logger DEBUG (additions_delta group_name
                  (additions_len change) (additions_change_percent change));;
  logger DEBUG (deletions_delta group_name
                  (deletions_len change) (deletions_change_percent change));;
  override_required ←
    (if decide (total_change_percent change > total_threshold) then
       logger DEBUG (total_threshold_breach group_name
                       (total_change_percent change) total_threshold);;
       mret true
     else mret override_required);
  override_required ←
    (if decide (deletions_change_percent change > deletions_threshold) then
       logger DEBUG (deletion_threshold_breach group_name
                       (deletions_change_percent change) deletions_threshold);;
       mret true
     else mret override_required);
  override_required ←
    (if decide (additions_change_percent change > additions_threshold) then
       logger DEBUG (addition_threshold_breach group_name
                       (additions_change_percent change) additions_threshold);;
       mret true
     else mret override_required);
  (* Must come last, to make sure small groups never require override *)
  if bool_decide (original_len change < small_group_blind_update (config_settings config))
     && override_required
  then
    logger DEBUG (below_small_group_blind_update group_name
                    (small_group_blind_update (config_settings config)));;
    mret false
  else mret override_required.

Definition _generate_group_operations
    (source_dict destination_dict : Dict.odict group)
    (valid_sync_groups : list string) : M (Dict.odict operations) :=
  for_in valid_sync_groups
    (λ valid_sync_group destination_operations,
      additions ← _generate_additions source_dict destination_dict valid_sync_group;
      deletions ← _generate_deletions destination_dict source_dict valid_sync_group;
      let ops := {| additions := additions; deletions := deletions;
                    override_required := None |} in
      destination ← expect KeyError (Dict.get destination_dict valid_sync_group);
      required ← _check_override_required (names destination) ops valid_sync_group;
      mret (Dict.set destination_operations valid_sync_group
              {| additions := additions; deletions := deletions;
                 override_required := Some required |}))
    [].

Definition _check_process_changes
    (destination_group_dict : Dict.odict group) (group : string)
    (group_operations : Dict.odict operations) : M bool :=
  let args := bc_args self_basic_config in
  let process_changes := false in
  ops ← expect KeyError (Dict.get group_operations group);
  if bool_decide (0 < length (additions ops))%nat
     || bool_decide (0 < length (deletions ops))%nat
  then
    required ← expect KeyError (override_required ops);
    if required : bool then
      if universal_override args || bool_decide (group ∈ group_override args)
      then
        logger INFO (running_in_override group);;
        mret true
      else
        logger WARNING (breaches_thresholds group);;
        destination ← expect KeyError (Dict.get destination_group_dict group);
        logger WARNING (current_members group (names destination));;
        logger WARNING (proposed_additions group (additions ops));;
        logger WARNING (proposed_deletions group (deletions ops));;
        set_run_status_False;;
        mret process_changes
    else
      logger INFO (no_override_required group);;
      mret true
  else mret process_changes.

Definition _process_operations
    (destination_group_dict : Dict.odict group)
    (group_operations : Dict.odict operations) : M unit :=
  for_in (Dict.keys group_operations)
    (λ group _,
      let group_base :=
        groups (config_schema config openldap) +:+ ","
          +:+ base (config_schema config openldap) in
      let group_dn := "cn=" +:+ group +:+ "," +:+ group_base in
      process_changes ←
        _check_process_changes destination_group_dict group group_operations;
      if process_changes : bool then
        ops ← expect KeyError (Dict.get group_operations group);
        _modify_group openldap openldap group_dn MODIFY_ADD (additions ops);;
        _modify_group openldap openldap group_dn MODIFY_DELETE (deletions ops)
      else mret tt)
    tt.

(** [Utilities.get_next_gid_uid_number] for [member] = ["group"] (or
    ["user"] when [for_user]). An entry without the number is a
    [KeyError]; the numbers of the typed attributes are always [int], so
    the warning for other values has no counterpart here. *)
Definition get_next_gid_uid_number (for_user : bool) : M Z :=
  let schema := config_schema config openldap in
  let member_number :=
    if for_user then objects_user_uid_number (schema_objects schema)
    else objects_group_gid_number (schema_objects schema) in
  let min_member_number :=
    if for_user then new_user_min_member_number schema
    else new_group_min_member_number schema in
  let base_string := base schema in
  let filter_string := "(" +:+ member_number +:+ "=*)" in
  w ← gets world;
  gid_number_list ←
    for_in (ldap_search w openldap base_string filter_string [member_number]).2
      (λ e gid_number_list,
        number ← expect KeyError
          (if for_user then attr_uid_number (entry_attributes e)
           else attr_gid_number (entry_attributes e));
        mret (gid_number_list ++ [number]))
      [0];
  mret (Utilities.fill_array_gaps gid_number_list min_member_number).

(** Both dictionaries are updated in place: they are returned. *)
Definition _new_ldap_group
    (server : server_type) (group : string)
    (openldap_group_dictionary ad_group_dictionary : Dict.odict GroupSync.group)
    : M (Dict.odict GroupSync.group * Dict.odict GroupSync.group) :=
  group_details ← expect KeyError (Dict.get ad_group_dictionary group);
  let schema := config_schema config server in
  let base_ou := base schema in
  let group_ou := groups schema in
  let group_att_name := objects_group_name (schema_objects schema) in
  let new_group_dn :=
    group_att_name +:+ "=" +:+ group +:+ "," +:+ group_ou +:+ "," +:+ base_ou in
  let new_group := new_group_mask schema in
  '(gid, ad_group_dictionary) ←
    (if bool_decide (group_id group_details ≠ 0)
        && bool_decide (group_id group_details ≠ -1)
     then mret (group_id group_details, ad_group_dictionary)
     else
       gid ← get_next_gid_uid_number false;
       let ad_group_att_gid :=
         objects_group_gid_number (schema_objects (config_schema config ad)) in
       let gid_change :=
         {| mod_attribute := ad_group_att_gid; mod_action := MODIFY_REPLACE;
            mod_values := number_values [gid] |} in
       logger INFO (setting_gid gid group);;
       w ← gets world;
       let '(result, w') := ldap_modify w ad (group_dn group_details) gid_change in
       set_world w' (modify_request ad (group_dn group_details) gid_change);;
       if decide (result ≠ 0) then
         logger ERROR (failed_to_update_gid group);;
         set_run_status_False;;
         mret (gid, ad_group_dictionary)
       else
         mret (gid,
               Dict.set ad_group_dictionary group
                 {| group_id := gid; group_dn := group_dn group_details;
                    names := names group_details;
                    group_server_type := group_server_type group_details |}));
  let new_attributes :=
    {| attr_objectClass := attr_objectClass (mask_attributes new_group);
       attr_name := Some (name_str group);
       attr_gid_number := Some gid;
       attr_uid_number := attr_uid_number (mask_attributes new_group);
       attr_members := attr_members (mask_attributes new_group);
       attr_userAccountControl := attr_userAccountControl (mask_attributes new_group);
       attr_sAMAccountName := attr_sAMAccountName (mask_attributes new_group);
       attr_c := attr_c (mask_attributes new_group) |} in
  logger INFO (will_create_group group server gid);;
  w ← gets world;
  let '(result, w') :=
    ldap_add w server new_group_dn (mask_objectClass new_group) new_attributes in
  set_world w'
    (add_request server new_group_dn (mask_objectClass new_group) new_attributes);;
  if decide (result ≠ 0) then
    logger ERROR (failed_to_create_group group);;
    set_run_status_False;;
    mret (openldap_group_dictionary, ad_group_dictionary)
  else
    mret (Dict.set openldap_group_dictionary group
            {| group_id := gid; group_dn := new_group_dn;
               names := []; group_server_type := openldap |},
          ad_group_dictionary).

Definition _add_missing_openldap_groups
    (openldap_group_dictionary ad_group_dictionary : Dict.odict GroupSync.group)
    : M (Dict.odict GroupSync.group * Dict.odict GroupSync.group) :=
  for_in (Dict.keys ad_group_dictionary)
    (λ group '(openldap_group_dictionary, ad_group_dictionary),
      if Dict.mem openldap_group_dictionary group
      then mret (openldap_group_dictionary, ad_group_dictionary)
      else _new_ldap_group openldap group
             openldap_group_dictionary ad_group_dictionary)
    (openldap_group_dictionary, ad_group_dictionary).

Definition _main (recursion_limit : nat) : M unit :=
  let group_base_string :=
    groups (config_schema config ad) +:+ "," +:+ base (config_schema config ad) in
  let group_filter_string :=
    "(objectclass="
      +:+ objects_group_obj_class (schema_objects (config_schema config ad))
      +:+ ")" in
  ad_group_search_result ←
    _group_search ad group_base_string group_filter_string ["*"];
  ad_group_dictionary ←
    _create_group_dictionary recursion_limit ad ad_group_search_result;
  let group_base_string :=
    groups (config_schema config openldap) +:+ ","
      +:+ base (config_schema config openldap) in
  let group_filter_string :=
    "(objectclass="
      +:+ objects_group_obj_class (schema_objects (config_schema config openldap))
      +:+ ")" in
  openldap_group_search_result ←
    _group_search openldap group_base_string group_filter_string ["*"];
  openldap_group_dictionary ←
    _create_group_dictionary recursion_limit openldap openldap_group_search_result;
  '(openldap_group_dictionary, ad_group_dictionary) ←
    _add_missing_openldap_groups openldap_group_dictionary ad_group_dictionary;
  valid_sync_groups ←
    _build_sync_group_list ad_group_dictionary openldap_group_dictionary;
  logger DEBUG (valid_sync_groups_are valid_sync_groups);;
  group_operations ←
    _generate_group_operations
      ad_group_dictionary openldap_group_dictionary valid_sync_groups;
  _process_operations openldap_group_dictionary group_operations;;
  status ← gets run_status;
  write_monitoring_log status "group_sync".

(** The class attributes at the start of a run. *)
Definition initial_state (w : W) : state W :=
  {| world := w; run_status := true; user_lookup_cache := ∅;
     object_lookup_cache := ∅; log := []; requests := [] |}.

End Methods.
End GroupSync.

(** ** utilities.user_exception_lookup

    [all_users] is the dictionary of the user runner: for each login id
    a dictionary with at most the keys ["ad"] and ["openldap"], each of
    them the attributes of the account in that directory. The function
    changes [all_users] in place; here the changed dictionary is
    returned. *)

Module UserExceptions.

(** The values of an attribute dictionary: a [str], an [int], a [list]
    or a [dict] (the ["changes"]). *)
Inductive value :=
| text (s : string)
| number (z : Z)
| texts (l : list string)
| mapping (d : Dict.odict string).

Definition record : Type := Dict.odict value.

(** [all_users[user]] *)
Record user_entry := {
  entry_ad : option record;
  entry_openldap : option record }.

Inductive exception := KeyError | TypeError.

(** [d.pop(k)] *)
Fixpoint pop {V} (d : Dict.odict V) (k : string) : Dict.odict V :=
  match d with
  | [] => []
  | (k', v) :: d' => if decide (k' = k) then pop d' k else (k', v) :: pop d' k
  end.

(** The truth value of [all_users[user].get(server_type)]: the key is
    there and the attributes are not empty. *)
Definition has_attributes (r : option record) : bool :=
  match r with
  | Some (_ :: _) => true
  | _ => false
  end.

(** The truth value of [all_users.get(user)]: the key is there and the
    dictionary has a key. *)
Definition has_entry (e : option user_entry) : bool :=
  match e with
  | Some e => bool_decide (is_Some (entry_ad e)) || bool_decide (is_Some (entry_openldap e))
  | None => false
  end.

Section Lookup.
Variable basic_config : basic_config.
(** [basic_config["config"]["ad"]["schema"]["objects"]["user"]["name"]] *)
Variable ad_primary_key : string.

(** [name in basic_config["exceptions"]]: a [list] or a [dict] cannot
    be hashed, and [None] is not a container. *)
Definition in_exceptions (name : value) : exception + bool :=
  match bc_exceptions basic_config with
  | None => inl TypeError
  | Some exceptions =>
      match name with
      | text s => inr (bool_decide (is_Some (exceptions !! s)))
      | number _ => inr false
      | texts _ | mapping _ => inl TypeError
      end
  end.

(** The body of the loop for one [user]. *)
Definition lookup_user (all_users : Dict.odict user_entry) (user : string)
    : exception + Dict.odict user_entry :=
  match Dict.get all_users user with
  | None => inl KeyError
  | Some entry =>
      if has_attributes (entry_ad entry) then
        match entry_ad entry ≫= λ ad_record, Dict.get ad_record ad_primary_key with
        | None => inl KeyError
        | Some name =>
            match in_exceptions name with
            | inl e => inl e
            | inr false => inr all_users
            | inr true =>
                let exception := bc_exceptions basic_config ≫= (.!! user) in
                match exception with
                | Some exception =>
                    if bool_decide (exception ≠ "")
                       && bool_decide (exception ≠ "NONE")
                    then
                      let all_users :=
                        if has_entry (Dict.get all_users exception) then all_users
                        else Dict.set all_users exception
                               {| entry_ad := None; entry_openldap := None |} in
                      match Dict.get all_users exception with
                      | Some target =>
                          inr (pop (Dict.set all_users exception
                                      {| entry_ad := entry_ad entry;
                                         entry_openldap := entry_openldap target |})
                                 user)
                      | None => inl KeyError
                      end
                    else if bool_decide (exception ≠ "")
                            && bool_decide (exception = "NONE")
                    then
                      inr (Dict.set all_users user
                             {| entry_ad :=
                                  (λ ad_record, Dict.set ad_record "uid" (text "NONE"))
                                    <$> entry_ad entry;
                                entry_openldap := entry_openldap entry |})
                    else inr all_users
                | None => inr all_users
                end
            end
        end
      else inr all_users
  end.

(** [for user in users: ...] *)
Fixpoint for_users (users : list string) (all_users : Dict.odict user_entry)
    : exception + Dict.odict user_entry :=
  match users with
  | [] => inr all_users
  | user :: users =>
      match lookup_user all_users user with
      | inl e => inl e
      | inr all_users => for_users users all_users
      end
  end.

(** The loop runs over the keys of a copy of the dictionary. *)
Definition user_exception_lookup (all_users : Dict.odict user_entry)
    : exception + Dict.odict user_entry :=
  for_users (Dict.keys all_users) all_users.

End Lookup.
End UserExceptions.

(** ** Concrete directories

    A world given by a table of search answers, keyed by the connection,
    the search base and the filter. A search that is not in the table
    matches nothing; every search succeeds. Writes answer with a fixed
    result code and leave the table as it is. *)

Module Sample.

Record directory := {
  answers : list (server_type * string * string * list entry);
  write_result : Z }.

#[global] Instance server_type_eq_dec : EqDecision server_type.
Proof. solve_decision. Defined.

Fixpoint answer (table : list (server_type * string * string * list entry))
    (server : server_type) (base_string filter_string : string) : list entry :=
  match table with
  | [] => []
  | (server', base', filter', response) :: table' =>
      if bool_decide (server' = server) && bool_decide (base' = base_string)
         && bool_decide (filter' = filter_string)
      then response
      else answer table' server base_string filter_string
  end.

#[global] Instance directory_env : Env directory := {|
  ldap_search w server base_string filter_string _ :=
    (0, answer (answers w) server base_string filter_string);
  ldap_modify w _ _ _ := (write_result w, w);
  ldap_add w _ _ _ _ := (write_result w, w);
  path_write_text w _ _ := Some w |}.

Definition no_attributes : attributes :=
  {| attr_objectClass := None; attr_name := None; attr_gid_number := None;
     attr_uid_number := None; attr_members := None;
     attr_userAccountControl := None; attr_sAMAccountName := None;
     attr_c := None |}.

Definition ad_schema : schema :=
  {| base := "DC=example,DC=com"; groups := "OU=Groups"; users := "OU=Users";
     schema_objects :=
       {| objects_group_obj_class := "group"; objects_group_name := "cn";
          objects_group_gid_number := "gidNumber";
          objects_group_members := "member";
          objects_user_obj_class := "user";
          objects_user_uid_number := "uidNumber" |};
     new_group_mask := {| mask_objectClass := []; mask_attributes := no_attributes |};
     new_group_min_member_number := 0;
     new_user_min_member_number := 0 |}.

Definition openldap_schema : schema :=
  {| base := "dc=example,dc=com"; groups := "ou=Group"; users := "ou=People";
     schema_objects :=
       {| objects_group_obj_class := "posixGroup"; objects_group_name := "cn";
          objects_group_gid_number := "gidNumber";
          objects_group_members := "memberUid";
          objects_user_obj_class := "posixAccount";
          objects_user_uid_number := "uidNumber" |};
     new_group_mask :=
       {| mask_objectClass := ["posixGroup"; "top"];
          mask_attributes := no_attributes |};
     new_group_min_member_number := 2000;
     new_user_min_member_number := 5000 |}.

Definition sample_config : config :=
  {| config_ad := ad_schema;
     config_openldap := openldap_schema;
     config_settings :=
       {| total_change_threshold := 50;
          deletions_change_threshold := 30;
          additions_change_threshold := 50;
          small_group_blind_update := 5;
          monitoring_log_file := "monitoring.log" |} |}.

Definition sample_basic_config
    (exceptions : option (gmap string string))
    (country_control : option (gmap string (list string))) : basic_config :=
  {| bc_config := sample_config;
     bc_exceptions := exceptions;
     bc_country_control := country_control;
     bc_args := {| universal_override := false; group_override := [] |} |}.

(** An object of the primary directory with its classes and members. *)
Definition object_entry (object_dn : string) (classes members : list string)
    : entry :=
  {| dn := object_dn;
     entry_attributes :=
       {| attr_objectClass := Some classes; attr_name := None;
          attr_gid_number := None; attr_uid_number := None;
          attr_members := Some members;
          attr_userAccountControl := None; attr_sAMAccountName := None;
          attr_c := None |} |}.

(** The answer of the primary directory to a search by distinguished
    name. *)
Definition ad_object (object_dn : string) (classes members : list string)
    : server_type * string * string * list entry :=
  (ad, "DC=example,DC=com", "(distinguishedName=" +:+ object_dn +:+ ")",
   [ object_entry object_dn classes members ]).

(** The answer of the primary directory to [_get_account_data] for the
    user [CN=<cn>,OU=Users,DC=example,DC=com]. *)
Definition ad_user (cn : string) (control : Z) (login : string)
    (country : option string) : server_type * string * string * list entry :=
  (ad, "OU=Users,DC=example,DC=com", "(&(objectclass=user)(CN=" +:+ cn +:+ "))",
   [ {| dn := "CN=" +:+ cn +:+ ",OU=Users,DC=example,DC=com";
        entry_attributes :=
          {| attr_objectClass := Some ["top"; "person"; "user"];
             attr_name := None; attr_gid_number := None; attr_uid_number := None;
             attr_members := None;
             attr_userAccountControl := Some control;
             attr_sAMAccountName := Some login;
             attr_c := country |} |} ]).

(** The answer of the secondary directory to a search for [uid=<uid>]. *)
Definition openldap_user (uid : string)
    : server_type * string * string * list entry :=
  (openldap, "ou=People,dc=example,dc=com",
   "(&(objectclass=posixAccount)(uid=" +:+ uid +:+ "))",
   [ {| dn := "uid=" +:+ uid +:+ ",ou=People,dc=example,dc=com";
        entry_attributes := no_attributes |} ]).

Definition user_classes : list string := ["top"; "person"; "user"].
Definition group_classes : list string := ["top"; "group"].

Definition all_staff : string := "CN=all,OU=Groups,DC=example,DC=com".
Definition eng : string := "CN=eng,OU=Groups,DC=example,DC=com".
Definition ops : string := "CN=ops,OU=Groups,DC=example,DC=com".
Definition john : string := "CN=John Doe,OU=Users,DC=example,DC=com".
Definition jane : string := "CN=Jane Doe,OU=Users,DC=example,DC=com".

(** The group [all] has the members [eng] and [ops]; [eng] has the user
    [john] and [ops] has the user [jane]. *)
Definition siblings : directory :=
  {| answers :=
       [ ad_object all_staff group_classes [eng; ops];
         ad_object eng group_classes [john];
         ad_object ops group_classes [jane];
         ad_object john user_classes [];
         ad_object jane user_classes [] ];
     write_result := 0 |}.

(** The group [all] has the member [eng]; [eng] has the group [ops] and
    the user [john]; [ops] has the member [eng]. *)
Definition cycle : directory :=
  {| answers :=
       [ ad_object all_staff group_classes [eng];
         ad_object eng group_classes [ops; john];
         ad_object ops group_classes [eng];
         ad_object john user_classes [] ];
     write_result := 0 |}.

(** No account [CN=Ghost] in the primary directory; one account [svc]
    in the secondary one. *)
Definition ghost : directory :=
  {| answers := [ openldap_user "svc" ]; write_result := 0 |}.

(** An exception table with an entry for the empty login id. *)
Definition empty_login_exception : gmap string string := {[ "" := "svc" ]}.

(** [John Doe] exists in the primary directory only. *)
Definition unmatched : directory :=
  {| answers := [ ad_user "John Doe" 512 "JohnD" (Some "GB") ];
     write_result := 0 |}.

(** [Alice Roe], login [alice], is mapped to ["NONE"]; the secondary
    directory has no account [NONE]. The secondary group [staff] lists
    the member [alice]. *)
Definition none_mapped : directory :=
  {| answers := [ ad_user "Alice Roe" 512 "Alice" (Some "GB") ];
     write_result := 0 |}.

Definition alice_to_NONE : gmap string string := {[ "alice" := "NONE" ]}.

Definition staff_in_ad : Dict.odict GroupSync.group :=
  [ ("staff",
     {| GroupSync.group_id := 1200;
        GroupSync.group_dn := "CN=staff,OU=Groups,DC=example,DC=com";
        GroupSync.names := ["CN=Alice Roe,OU=Users,DC=example,DC=com"];
        GroupSync.group_server_type := ad |}) ].

Definition staff_in_openldap : Dict.odict GroupSync.group :=
  [ ("staff",
     {| GroupSync.group_id := 1200;
        GroupSync.group_dn := "cn=staff,ou=Group,dc=example,dc=com";
        GroupSync.names := ["alice"];
        GroupSync.group_server_type := openldap |}) ].

(** One group [staff] with the same id in both directories: [john] is
    a member in the primary directory, [jane] in the secondary one. The
    directories refuse every write. *)
Definition office : directory :=
  {| answers :=
       [ (ad, "OU=Groups,DC=example,DC=com", "(objectclass=group)",
          [ {| dn := "CN=staff,OU=Groups,DC=example,DC=com";
               entry_attributes :=
                 {| attr_objectClass := Some group_classes;
                    attr_name := Some (name_str "staff");
                    attr_gid_number := Some 1200; attr_uid_number := None;
                    attr_members := Some [john];
                    attr_userAccountControl := None;
                    attr_sAMAccountName := None; attr_c := None |} |} ]);
         ad_object john user_classes [];
         ad_user "John Doe" 512 "JohnD" (Some "GB");
         (openldap, "ou=Group,dc=example,dc=com", "(objectclass=posixGroup)",
          [ {| dn := "cn=staff,ou=Group,dc=example,dc=com";
               entry_attributes :=
                 {| attr_objectClass := Some ["posixGroup"; "top"];
                    attr_name := Some (name_list ["staff"]);
                    attr_gid_number := Some 1200; attr_uid_number := None;
                    attr_members := Some ["jane"];
                    attr_userAccountControl := None;
                    attr_sAMAccountName := None; attr_c := None |} |} ]);
         openldap_user "johnd" ];
     write_result := 1 |}.

End Sample.

(** * Properties *)

(** ** The gap-filling allocator *)

Module UtilitiesFacts.
Import Utilities.

Lemma while_offset_in_least numbers offset :
  offset ≤ while_offset_in numbers offset
  ∧ (while_offset_in numbers offset ∉ numbers)
  ∧ ∀ k, offset ≤ k < while_offset_in numbers offset → k ∈ numbers.
Proof.
  funelim (while_offset_in numbers offset).
  - destruct H as (Hle & Hfree & Hbelow).
    split; [lia|]. split; [done|].
    intros k Hk. destruct (decide (k = offset)) as [->|Hne]; [done|].
    apply Hbelow. lia.
  - split; [lia|]. split; [done|]. intros k Hk. lia.
Qed.

Lemma sort_elem_of numbers (k : Z) : k ∈ ZSort.sort numbers ↔ k ∈ numbers.
Proof. by rewrite <- (ZSort.Permuted_sort numbers). Qed.

(** C5. The allocator returns the smallest id that is at least the
    minimum and is not in use; ids below the minimum play no role. The
    four allocations of the specification are instances. *)
Theorem fill_array_gaps_smallest_free (numbers : list Z) (offset : Z) :
  (offset ≤ fill_array_gaps numbers offset
   ∧ (fill_array_gaps numbers offset ∉ numbers)
   ∧ (∀ k, offset ≤ k < fill_array_gaps numbers offset → k ∈ numbers)
   ∧ (∀ free, offset ≤ free → free ∉ numbers →
        fill_array_gaps numbers offset ≤ free))
  ∧ fill_array_gaps [200; 202; 190; 201; 204] 200 = 203
  ∧ fill_array_gaps [202; 190; 201; 203; 200] 200 = 204
  ∧ fill_array_gaps [202; 190; 201] 200 = 200
  ∧ fill_array_gaps [198; 190; 50] 200 = 200.
Proof.
  split; [|by vm_compute].
  unfold fill_array_gaps.
  destruct (while_offset_in_least (ZSort.sort numbers) offset)
    as (Hle & Hfree & Hbelow).
  rewrite sort_elem_of in Hfree.
  repeat split; [done | done | |].
  - intros k Hk. apply sort_elem_of. by apply Hbelow.
  - intros free Hfrom Hnot.
    destruct (Z.le_gt_cases (while_offset_in (ZSort.sort numbers) offset) free)
      as [Hok|Hlt]; [done|].
    exfalso. apply Hnot, sort_elem_of, Hbelow. lia.
Qed.

End UtilitiesFacts.

(** ** Change percentages and the override gate *)

Module ChangeControl.
Import GroupSync.














End ChangeControl.

(** ** Reasoning about the methods *)

Ltac run_step :=
  repeat progress
    (unfold mbind, M_bind, mret, M_ret, raise, gets, update, expect, logger,
       set_run_status_False, set_world, cache_user, cache_object in *;
     cbn [world run_status user_lookup_cache object_lookup_cache log requests
          fst snd] in *).

Lemma for_in_cons {W A S} (x : A) (l : list A) (body : A → S → M W S)
    (acc : S) (s : state W) :
  for_in (x :: l) body acc s
  = match body x acc s with
    | (value acc', s') => for_in l body acc' s'
    | (raised e, s') => (raised e, s')
    end.
Proof. reflexivity. Qed.

Module OverrideGate.
Import GroupSync ChangeControl.

Section Facts.
Context {W : Type} `{!Env W}.
Variable self_basic_config : basic_config.

(** C4. A group whose original member count, floored at 1, is below
    [small_group_blind_update] never requires an override, whatever the
    three percentages and thresholds are: the small-group test comes
    last and resets the flag. The call only writes DEBUG lines. *)
Theorem small_group_never_requires_override
    (destination_list : list string) (ops : operations) (group_name : string)
    (s : state W) :
  original_len (_determine_change_percent destination_list ops)
    < small_group_blind_update (config_settings (bc_config self_basic_config)) →
  ∃ s', _check_override_required self_basic_config
          destination_list ops group_name s = (value false, s')
        ∧ run_status s' = run_status s
        ∧ requests s' = requests s
        ∧ world s' = world s.
Proof.
  intros Hsmall. unfold _check_override_required.
  generalize dependent (_determine_change_percent destination_list ops).
  intros change Hsmall.
  apply (bool_decide_eq_true_2 _) in Hsmall.
  run_step. rewrite Hsmall.
  repeat case_decide; cbn [andb]; run_step; eauto.
Qed.

End Facts.

(** A group of two members that is to receive ten additions: every
    percentage is 500, far above the thresholds, and the floor is 5. *)
Lemma small_group_never_requires_override_witness :
  ∃ s', _check_override_required (Sample.sample_basic_config None None)
          ["amy"; "bob"]
          {| additions := replicate 10 "joiner"; deletions := [];
             override_required := None |}
          "staff" (initial_state Sample.siblings) = (value false, s')
        ∧ run_status s' = true
        ∧ requests s' = []
        ∧ world s' = Sample.siblings.
Proof.
  apply (small_group_never_requires_override (Sample.sample_basic_config None None)
           ["amy"; "bob"]
           {| additions := replicate 10 "joiner"; deletions := [];
              override_required := None |}
           "staff" (initial_state Sample.siblings)).
  vm_compute. reflexivity.
Defined.

End OverrideGate.

(** ** Sync eligibility *)

Module Eligibility.
Import GroupSync.

(** Present by name in both dictionaries, with the same id. *)
Definition eligible (first_group_dict second_group_dict : Dict.odict group)
    (name : string) : Prop :=
  ∃ first second,
    Dict.get first_group_dict name = Some first
    ∧ Dict.get second_group_dict name = Some second
    ∧ group_id first = group_id second.

Lemma get_keys {V} (d : Dict.odict V) (k : string) :
  k ∈ Dict.keys d ↔ is_Some (Dict.get d k).
Proof.
  unfold Dict.keys. induction d as [|[k' v] d IH]; cbn.
  - split; [by intros ?%elem_of_nil | by intros [? ?]].
  - rewrite elem_of_cons. case_decide as Hk; subst.
    + split; [eauto | by left].
    + rewrite IH. split; [by intros [?|?] | by right].
Qed.

Section Facts.
Context {W : Type} `{!Env W}.
Variable self_basic_config : basic_config.

Definition sync_body (first_group_dict second_group_dict : Dict.odict group)
    (name : string) (valid_sync_groups : list string) : M W (list string) :=
  if Dict.mem second_group_dict name then
    first ← expect KeyError (Dict.get first_group_dict name);
    second ← expect KeyError (Dict.get second_group_dict name);
    if decide (group_id first = group_id second) then
      logger INFO (ids_match_valid_for_sync name);;
      mret (valid_sync_groups ++ [name])
    else
      logger DEBUG (gid_mismatch name);;
      mret valid_sync_groups
  else
    logger DEBUG (only_in_one_directory name);;
    mret valid_sync_groups.

Lemma sync_body_run first_group_dict second_group_dict
    (k : string) (valid_sync_groups : list string) (s : state W) :
  is_Some (Dict.get first_group_dict k) →
  ∃ s',
    run_status s' = run_status s
    ∧ ((eligible first_group_dict second_group_dict k
        ∧ sync_body first_group_dict second_group_dict k valid_sync_groups s
          = (value (valid_sync_groups ++ [k]), s'))
       ∨ (¬ eligible first_group_dict second_group_dict k
          ∧ sync_body first_group_dict second_group_dict k valid_sync_groups s
            = (value valid_sync_groups, s'))).
Proof.
  intros [first Hfirst]. unfold sync_body, Dict.mem. rewrite Hfirst.
  destruct (Dict.get second_group_dict k) as [second|] eqn:Hsecond; run_step.
  - case_decide as Hid.
    + eexists. split; [|left; split; [by exists first, second|reflexivity]].
      reflexivity.
    + eexists. split; [|right; split; [|reflexivity]]; [reflexivity|].
      intros (first' & second' & H1 & H2 & H3). congruence.
  - eexists. split; [|right; split; [|reflexivity]]; [reflexivity|].
    intros (first' & second' & H1 & H2 & H3). congruence.
Qed.

Lemma sync_loop first_group_dict second_group_dict
    (keys valid_sync_groups : list string) (s : state W) :
  (∀ k, k ∈ keys → is_Some (Dict.get first_group_dict k)) →
  ∃ result s',
    for_in keys (sync_body first_group_dict second_group_dict)
      valid_sync_groups s = (value result, s')
    ∧ run_status s' = run_status s
    ∧ ∀ name, name ∈ result ↔
        name ∈ valid_sync_groups
        ∨ (name ∈ keys ∧ eligible first_group_dict second_group_dict name).
Proof.
  revert valid_sync_groups s.
  induction keys as [|k keys IH]; intros valid_sync_groups s Hkeys.
  - exists valid_sync_groups, s. split; [reflexivity|]. split; [reflexivity|].
    intros name. split; [by left|].
    intros [?|[Hin _]]; [done|]. by apply elem_of_nil in Hin.
  - assert (∀ k', k' ∈ keys → is_Some (Dict.get first_group_dict k')) as Hrest
      by (intros; apply Hkeys; by right).
    destruct (sync_body_run first_group_dict second_group_dict k
                valid_sync_groups s) as (s1 & Hstatus1 & Hbody);
      [apply Hkeys; by left|].
    rewrite for_in_cons.
    destruct Hbody as [[Hok ->]|[Hno ->]].
    + destruct (IH (valid_sync_groups ++ [k]) s1 Hrest)
        as (result & s' & Hrun & Hstatus & Hresult).
      exists result, s'. split; [exact Hrun|]. split; [congruence|].
      intros name.
      rewrite Hresult, elem_of_app, list_elem_of_singleton, elem_of_cons.
      split.
      * intros [[?| ->]|[? ?]]; eauto.
      * intros [?|[[->|?] ?]]; eauto.
    + destruct (IH valid_sync_groups s1 Hrest)
        as (result & s' & Hrun & Hstatus & Hresult).
      exists result, s'. split; [exact Hrun|]. split; [congruence|].
      intros name. rewrite Hresult, elem_of_cons.
      split; [intros [?|[? ?]]; eauto|].
      intros [?|[[->|?] Hok]]; eauto. done.
Qed.

(** C6. [_build_sync_group_list] returns without raising, and a name is
    in the list exactly when it is a key of both dictionaries and the
    two groups have the same id. In particular same-named groups with
    different ids are left out and same-named groups with the same id
    are included. *)
Theorem sync_list_iff_same_name_and_id
    (first_group_dict second_group_dict : Dict.odict group) (s : state W) :
  ∃ valid_sync_groups s',
    _build_sync_group_list first_group_dict second_group_dict s
      = (value valid_sync_groups, s')
    ∧ ∀ name, name ∈ valid_sync_groups ↔
        eligible first_group_dict second_group_dict name.
Proof.
  destruct (sync_loop first_group_dict second_group_dict
              (Dict.keys first_group_dict) [] s)
    as (result & s' & Hrun & _ & Hresult).
  { intros k. apply get_keys. }
  exists result, s'. split; [exact Hrun|].
  intros name. rewrite Hresult. split.
  - intros [Hin|[_ ?]]; [by apply elem_of_nil in Hin|done].
  - intros Hok. right. split; [|done].
    destruct Hok as (first & _ & Hfirst & _). apply get_keys. eauto.
Qed.

End Facts.
End Eligibility.

(** ** Country control *)

Module CountryControl.
Import GroupSync.

Section Facts.
Context {W : Type} `{!Env W}.
Variable self_basic_config : basic_config.

(** The allowed country codes of a group, when the table lists it. *)
Definition allowed_countries (valid_sync_group : string) : option (list string) :=
  bc_country_control self_basic_config ≫= (.!! valid_sync_group).

(** C7. For a group that the country-control table lists, the check
    allows the user exactly when the country code is the empty string
    or is one of the group's allowed codes; for a group that the table
    does not list (or when there is no table) every user is allowed; a
    user whose country code is the empty string is allowed for every
    group. The check never raises and leaves the run status alone. *)
Theorem country_control_gate
    (data : account_data) (valid_sync_group : string) (s : state W) :
  ∃ allowed s',
    _check_country_control self_basic_config data valid_sync_group s
      = (value allowed, s')
    ∧ run_status s' = run_status s
    ∧ (country_code data = Some EmptyString → allowed = true)
    ∧ match allowed_countries valid_sync_group with
      | Some countries =>
          allowed = true ↔
            (country_code data = Some EmptyString
             ∨ ∃ code, country_code data = Some code ∧ code ∈ countries)
      | None => allowed = true
      end.
Proof.
  unfold _check_country_control, allowed_countries.
  destruct (bc_country_control self_basic_config) as [country_control|];
    cbn [mbind option_bind]; [|by exists true, s].
  case_decide as Hempty.
  - destruct (country_control !! valid_sync_group) as [countries|] eqn:Hgroup;
      [|by exists true, s].
    case_decide as Hcode.
    + exists true, s. repeat split; eauto.
    + destruct (country_code data) as [code|] eqn:Hdata.
      * destruct (bool_decide (code ∈ countries)) eqn:Hin.
        -- apply bool_decide_eq_true in Hin.
           exists true, s. repeat split; eauto.
        -- apply bool_decide_eq_false in Hin. run_step.
           eexists false, _. repeat split; try done.
           intros [?|(code' & ? & ?)]; [done|]. congruence.
      * run_step. eexists false, _. repeat split; try done.
        intros [?|(code' & ? & ?)]; done.
  - assert (country_control = ∅) as -> by (by destruct (decide (country_control = ∅))).
    rewrite lookup_empty. by exists true, s.
Qed.

End Facts.

(** Group [G] restricted to [GB]: a user from [TW] is excluded, a user
    without a country code and a user from [GB] are included. *)
Lemma country_control_gate_witness :
  let table := Some ({["G" := ["GB"]]} : gmap string (list string)) in
  let config := Sample.sample_basic_config None table in
  let user code := {| sAMAccountName := "johnd"; country_code := Some code;
                      account_active := true |} in
  let s := initial_state Sample.siblings in
  (_check_country_control config (user "TW") "G" s).1 = value false
  ∧ (_check_country_control config (user "") "G" s).1 = value true
  ∧ (_check_country_control config (user "GB") "G" s).1 = value true
  ∧ (_check_country_control config (user "TW") "H" s).1 = value true.
Proof.
  cbv zeta.
  set (table := Some ({["G" := ["GB"]]} : gmap string (list string))).
  split; [|split; [|split]].
  - destruct (country_control_gate (Sample.sample_basic_config None table)
                {| sAMAccountName := "johnd"; country_code := Some "TW";
                   account_active := true |} "G" (initial_state Sample.siblings))
      as (allowed & s' & -> & _ & _ & Hiff).
    destruct allowed; [|reflexivity]. exfalso.
    change (allowed_countries (Sample.sample_basic_config None table) "G")
      with (Some ["GB"]) in Hiff.
    destruct Hiff as [Hiff _].
    destruct (Hiff eq_refl) as [?|(code & [= <-] & Hin)]; [done|].
    by apply list_elem_of_singleton in Hin.
  - destruct (country_control_gate (Sample.sample_basic_config None table)
                {| sAMAccountName := "johnd"; country_code := Some "";
                   account_active := true |} "G" (initial_state Sample.siblings))
      as (allowed & s' & -> & _ & Hempty & _).
    by rewrite Hempty.
  - destruct (country_control_gate (Sample.sample_basic_config None table)
                {| sAMAccountName := "johnd"; country_code := Some "GB";
                   account_active := true |} "G" (initial_state Sample.siblings))
      as (allowed & s' & -> & _ & _ & Hiff).
    change (allowed_countries (Sample.sample_basic_config None table) "G")
      with (Some ["GB"]) in Hiff.
    cbn [fst]. f_equal. apply Hiff. right. exists "GB". split; [done|].
    by apply list_elem_of_singleton.
  - destruct (country_control_gate (Sample.sample_basic_config None table)
                {| sAMAccountName := "johnd"; country_code := Some "TW";
                   account_active := true |} "H" (initial_state Sample.siblings))
      as (allowed & s' & -> & _ & _ & Hnone).
    change (allowed_countries (Sample.sample_basic_config None table) "H")
      with (@None (list string)) in Hnone.
    by rewrite Hnone.
Defined.

End CountryControl.

(** ** Changing the members of a group *)

Module MemberChanges.
Import GroupSync.

Lemma split_nonempty (sep : ascii) (s : string) :
  ∃ piece pieces, Str.split sep s = piece :: pieces.
Proof.
  induction s as [|ch rest IH]; cbn [Str.split]; [eauto|].
  destruct (Ascii.eqb ch sep); [eauto|].
  destruct IH as (piece & pieces & ->). eauto.
Qed.

Lemma split_other (sep ch : ascii) (rest : string) :
  Ascii.eqb ch sep = false →
  Str.split sep (String ch rest)
  = match Str.split sep rest with
    | piece :: pieces => String ch piece :: pieces
    | [] => [String ch EmptyString]
    end.
Proof. intros Hne. cbn [Str.split]. by rewrite Hne. Qed.

Lemma split_separator (sep : ascii) (rest : string) :
  Str.split sep (String sep rest) = EmptyString :: Str.split sep rest.
Proof. cbn [Str.split]. by rewrite Ascii.eqb_refl. Qed.

(** The relative distinguished name [cn=<group>] that
    [_process_operations] builds always has a second ["="]-piece. *)
Lemma group_cn_of_built_dn (group rest : string) :
  ∃ first group_cn,
    Str.split "," ("cn=" +:+ group +:+ "," +:+ rest) !! 0%nat = Some first
    ∧ Str.split "=" first !! 1%nat = Some group_cn.
Proof.
  change ("cn=" +:+ group +:+ "," +:+ rest)
    with (String "c" (String "n" (String "=" (group +:+ "," +:+ rest)))).
  rewrite !split_other by reflexivity.
  destruct (split_nonempty "," (group +:+ "," +:+ rest)) as (piece & pieces & ->).
  destruct (split_nonempty "=" piece) as (group_cn & more & Hpiece).
  exists (String "c" (String "n" (String "=" piece))), group_cn.
  split; [reflexivity|].
  rewrite !split_other by reflexivity. rewrite split_separator, Hpiece.
  reflexivity.
Qed.

Section Facts.
Context {W : Type} `{!Env W}.
Variable self_basic_config : basic_config.

(** C10. With an empty user list [_modify_group] sends nothing to the
    directory: no request is added, the world, the run status and the
    caches are as before, and for the distinguished names that
    [_process_operations] builds the call returns after one DEBUG line.
    With a non-empty list exactly one modify request is sent. *)
Theorem modify_group_sends_only_nonempty_lists
    (server connection : server_type) (group_dn : string) (a : action)
    (s : state W) :
  (let after := (_modify_group self_basic_config server connection group_dn a [] s).2 in
   requests after = requests s
   ∧ world after = world s
   ∧ run_status after = run_status s
   ∧ user_lookup_cache after = user_lookup_cache s
   ∧ object_lookup_cache after = object_lookup_cache s)
  ∧ (∀ group rest, group_dn = "cn=" +:+ group +:+ "," +:+ rest →
       ∃ group_cn,
         _modify_group self_basic_config server connection group_dn a [] s
         = (value tt,
            {| world := world s; run_status := run_status s;
               user_lookup_cache := user_lookup_cache s;
               object_lookup_cache := object_lookup_cache s;
               log := log s ++ [(DEBUG, no_users_to_perform group_cn a)];
               requests := requests s |}))
  ∧ (∀ user users s',
       _modify_group self_basic_config server connection group_dn a
         (user :: users) s = (value tt, s') →
       ∃ m, mod_values m = member_values (user :: users)
            ∧ mod_action m = a
            ∧ requests s' = requests s ++ [modify_request connection group_dn m]).
Proof.
  split; [|split].
  - unfold _modify_group. run_step.
    destruct (Str.split "," group_dn !! 0%nat) as [first|]; [|done].
    destruct (Str.split "=" first !! 1%nat) as [group_cn|]; done.
  - intros group rest ->.
    destruct (group_cn_of_built_dn group rest) as (first & group_cn & Hfirst & Hcn).
    exists group_cn. unfold _modify_group. run_step.
    rewrite Hfirst, Hcn. reflexivity.
  - intros user users s'. unfold _modify_group. run_step.
    destruct (Str.split "," group_dn !! 0%nat) as [first|]; [|done].
    destruct (Str.split "=" first !! 1%nat) as [group_cn|]; [|done].
    destruct (ldap_modify _ _ _ _) as [result w'] eqn:Hmodify. run_step.
    case_decide; run_step; intros [= <-];
      (eexists; split; [|split]; [| |cbn [requests]; reflexivity]; reflexivity).
Qed.

End Facts.
End MemberChanges.

(** ** Identity resolution *)

Module Identity.
Import GroupSync.

Section Facts.
Context {W : Type} `{!Env W}.
Variable self_basic_config : basic_config.

Local Abbreviation config := (bc_config self_basic_config).
Local Abbreviation exceptions := (default ∅ (bc_exceptions self_basic_config)).

(** What the secondary directory answers to a search for [uid=<uid>]. *)
Definition secondary_matches (w : W) (uid : string) : list entry :=
  (ldap_search w openldap
     (users (config_schema config openldap) +:+ ","
        +:+ base (config_schema config openldap))
     ("(&(objectclass="
        +:+ objects_user_obj_class (schema_objects (config_schema config openldap))
        +:+ ")(" +:+ ("uid=" +:+ uid) +:+ "))")
     ["*"]).2.

(** What the primary directory answers to the search that
    [_get_account_data] makes for a distinguished name. *)
Definition primary_matches (w : W) (ad_user : string) : list entry :=
  (ldap_search w ad
     (_determine_user_base self_basic_config ad
        (Some (default EmptyString (last (Str.split1 "," ad_user)))))
     ("(&(objectclass="
        +:+ objects_user_obj_class (schema_objects (config_schema config ad))
        +:+ ")(" +:+ default EmptyString (Str.split "," ad_user !! 0%nat) +:+ "))")
     ["*"]).2.

(** The state after a recoverable failure: one more log line and the
    run status set to [False]. *)
Definition failed (s : state W) (lvl : level) (msg : message) : state W :=
  {| world := world s; run_status := false;
     user_lookup_cache := user_lookup_cache s;
     object_lookup_cache := object_lookup_cache s;
     log := log s ++ [(lvl, msg)];
     requests := requests s |}.

Definition cached (s : state W) (ad_user : string) (data : account_data)
    : state W :=
  {| world := world s; run_status := run_status s;
     user_lookup_cache := <[ad_user := data]> (user_lookup_cache s);
     object_lookup_cache := object_lookup_cache s;
     log := log s;
     requests := requests s |}.

Lemma user_search_openldap (uid : string) (s : state W) :
  _user_search self_basic_config openldap ("uid=" +:+ uid) None s
  = (value (secondary_matches (world s) uid), s).
Proof. reflexivity. Qed.

Lemma state_eta (s : state W) :
  {| world := world s; run_status := run_status s;
     user_lookup_cache := user_lookup_cache s;
     object_lookup_cache := object_lookup_cache s;
     log := log s; requests := requests s |} = s.
Proof. by destruct s. Qed.

(** [_get_account_data] never raises. It either returns the account
    that it read and leaves the state alone, or logs one warning, marks
    the run failed and returns what it had filled in, with an empty
    login id and no country. *)
Lemma get_account_data_run (ad_user : string) (s : state W) :
  ∃ data,
    (_get_account_data self_basic_config ad_user s = (value data, s)
     ∧ ∃ first rest control name,
         primary_matches (world s) ad_user = first :: rest
         ∧ attr_userAccountControl (entry_attributes first) = Some control
         ∧ attr_sAMAccountName (entry_attributes first) = Some name
         ∧ sAMAccountName data = Str.lower name)
    ∨ (_get_account_data self_basic_config ad_user s
       = (value data,
          failed s WARNING
            (does_not_exist_in_ad (default EmptyString (Str.split "," ad_user !! 0%nat))))
       ∧ sAMAccountName data = EmptyString
       ∧ country_code data = None
       ∧ (primary_matches (world s) ad_user = [] → data = unknown_user)).
Proof.
  unfold _get_account_data, _user_search. run_step.
  fold (primary_matches (world s) ad_user).
  destruct (primary_matches (world s) ad_user) as [|first rest] eqn:Hmatches;
    cbn [lookup list_lookup].
  - exists unknown_user. right. by repeat split.
  - destruct (attr_userAccountControl (entry_attributes first)) as [control|] eqn:Hcontrol.
    + destruct (attr_sAMAccountName (entry_attributes first)) as [name|] eqn:Hname.
      * eexists. left. split; [reflexivity|]. by exists first, rest, control, name.
      * eexists. right. split; [reflexivity|].
        by destruct (_ && _).
    + exists unknown_user. right. by repeat split.
Qed.

(** The outcome of [_lookup_ad_user] on a cache miss, by the number of
    matches in the secondary directory. [s1] is the state that
    [_get_account_data] leaves. *)
Definition resolution (ad_user : string) (data : account_data) (s1 : state W)
    : account_data * state W :=
  match exceptions !! sAMAccountName data with
  | Some target =>
      match secondary_matches (world s1) target with
      | [_] =>
          let data := {| sAMAccountName := target;
                         country_code := country_code data;
                         account_active := account_active data |} in
          (data, cached s1 ad_user data)
      | [] =>
          (unknown_user,
           if decide (target ≠ "NONE")
           then failed s1 WARNING
                  (exception_target_not_in_openldap (sAMAccountName data))
           else s1)
      | _ =>
          (unknown_user,
           failed s1 WARNING
             (exception_target_matches_multiple (sAMAccountName data)))
      end
  | None =>
      match secondary_matches (world s1) (sAMAccountName data) with
      | [_] => (data, cached s1 ad_user data)
      | _ =>
          (unknown_user,
           failed s1 WARNING
             (not_in_openldap_or_more_than_one (sAMAccountName data)))
      end
  end.

Lemma lookup_ad_user_run (ad_user : string) (s : state W) :
  match user_lookup_cache s !! ad_user with
  | Some hit => _lookup_ad_user self_basic_config ad_user s = (value hit, s)
  | None =>
      ∃ data s1,
        _get_account_data self_basic_config ad_user s = (value data, s1)
        ∧ _lookup_ad_user self_basic_config ad_user s
          = (value (resolution ad_user data s1).1, (resolution ad_user data s1).2)
  end.
Proof.
  unfold _lookup_ad_user. run_step.
  destruct (user_lookup_cache s !! ad_user) as [hit|]; [reflexivity|].
  destruct (get_account_data_run ad_user s) as [data [[Hrun _]|[Hrun _]]];
    eexists data, _; (split; [exact Hrun|]); rewrite Hrun; unfold resolution;
    destruct (exceptions !! sAMAccountName data) as [target|];
    rewrite user_search_openldap; cbn [fst snd world failed];
    (destruct (secondary_matches (world s) _) as [|? [|? ?]]; [| |];
       try case_decide; run_step; try reflexivity).
  all: by rewrite state_eta.
Qed.

(** C8, amended. [_lookup_ad_user] never raises. On a cache miss it
    returns exactly the unknown sentinel whenever the secondary
    directory has zero or more than one match for the exception target
    or, outside the exception table, for the login id; outside the
    exception table this also logs the warning and marks the run failed
    (in the exception table it does so unless the target is ["NONE"]
    with zero matches, which is silent). A user that is absent from the
    primary directory marks the run failed and resolves to the sentinel
    provided the exception table has no entry for the empty login id. *)
Theorem lookup_ad_user_failures (ad_user : string) (s : state W) :
  ∃ result s',
    _lookup_ad_user self_basic_config ad_user s = (value result, s')
    ∧ (user_lookup_cache s !! ad_user = None →
       ∃ data s1,
         _get_account_data self_basic_config ad_user s = (value data, s1)
         ∧ (∀ target,
              exceptions !! sAMAccountName data = Some target →
              length (secondary_matches (world s) target) ≠ 1%nat →
              result = unknown_user
              ∧ (target = "NONE" → secondary_matches (world s) target = [] →
                 s' = s1)
              ∧ (target ≠ "NONE" ∨ secondary_matches (world s) target ≠ [] →
                 run_status s' = false
                 ∧ ∃ msg, last (log s') = Some (WARNING, msg)))
         ∧ (exceptions !! sAMAccountName data = None →
            length (secondary_matches (world s) (sAMAccountName data)) ≠ 1%nat →
            result = unknown_user
            ∧ run_status s' = false
            ∧ last (log s')
              = Some (WARNING,
                      not_in_openldap_or_more_than_one (sAMAccountName data)))
         ∧ (primary_matches (world s) ad_user = [] →
            run_status s' = false
            ∧ (exceptions !! EmptyString = None → result = unknown_user))).
Proof.
  pose proof (lookup_ad_user_run ad_user s) as Hlookup.
  destruct (user_lookup_cache s !! ad_user) as [hit|].
  { exists hit, s. split; [exact Hlookup|]. intros [=]. }
  destruct Hlookup as (data & s1 & Hdata & Hlookup).
  eexists _, _. split; [exact Hlookup|]. intros _.
  exists data, s1. split; [exact Hdata|].
  assert (world s1 = world s
          ∧ (primary_matches (world s) ad_user = [] →
             data = unknown_user ∧ run_status s1 = false)) as [Hworld Habsent].
  { destruct (get_account_data_run ad_user s)
      as [data' [[Hrun (first & rest & ? & ? & Hsome & _)]|[Hrun (_ & _ & Hnone)]]];
      rewrite Hrun in Hdata; injection Hdata as <- <-.
    - split; [done|]. intros Hnil. by rewrite Hnil in Hsome.
    - split; [done|]. intros Hnil. by split; [apply Hnone|]. }
  unfold resolution. rewrite Hworld.
  split; [|split].
  - intros target -> Hcount.
    destruct (secondary_matches (world s) target) as [|? [|? ?]];
      cbn [fst snd]; [|done|].
    + split; [done|]. split.
      * intros ->. intros _. by case_decide.
      * intros [Hne|Hne]; [|done]. case_decide; [|done].
        cbn [failed run_status log]. rewrite last_snoc. eauto.
    + split; [done|]. split; [intros _ [=]|]. intros _.
      cbn [failed run_status log]. rewrite last_snoc. eauto.
  - intros -> Hcount.
    destruct (secondary_matches (world s) (sAMAccountName data)) as [|? [|? ?]];
      cbn [fst snd failed run_status log]; [|done|];
      by rewrite last_snoc.
  - intros Hnil. destruct (Habsent Hnil) as [-> Hfailed].
    cbn [unknown_user sAMAccountName]. split.
    + destruct (exceptions !! EmptyString) as [target|];
        [destruct (secondary_matches (world s) target) as [|? [|? ?]]
        |destruct (secondary_matches (world s) EmptyString) as [|? [|? ?]]];
        try case_decide; cbn [fst snd failed cached run_status]; done.
    + intros ->.
      by destruct (secondary_matches (world s) EmptyString) as [|? [|? ?]].
Qed.

End Facts.

(** C8, counterexample. The user is absent from the primary directory,
    the exception table maps the empty login id to [svc], and [svc] has
    exactly one match: the resolver returns [svc], not the sentinel. *)
Lemma absent_user_resolved_through_empty_exception :
  let config := Sample.sample_basic_config (Some Sample.empty_login_exception) None in
  let ad_user := "CN=Ghost,OU=Users,DC=example,DC=com" in
  let s := initial_state Sample.ghost in
  primary_matches config Sample.ghost ad_user = []
  ∧ (_lookup_ad_user config ad_user s).1
    = value {| sAMAccountName := "svc"; country_code := None;
               account_active := false |}
  ∧ (_lookup_ad_user config ad_user s).1 ≠ value unknown_user.
Proof. cbv zeta. split; [by vm_compute|]. split; by vm_compute. Qed.

(** An account that exists in the primary directory only: the sentinel,
    a warning and a failed run. *)
Lemma lookup_ad_user_failures_witness :
  ∃ s',
    _lookup_ad_user (Sample.sample_basic_config None None)
      "CN=John Doe,OU=Users,DC=example,DC=com" (initial_state Sample.unmatched)
    = (value unknown_user, s')
    ∧ run_status s' = false
    ∧ last (log s') = Some (WARNING, not_in_openldap_or_more_than_one "johnd").
Proof.
  destruct (lookup_ad_user_failures (Sample.sample_basic_config None None)
              "CN=John Doe,OU=Users,DC=example,DC=com"
              (initial_state Sample.unmatched))
    as (result & s' & Hrun & Hmiss).
  destruct (Hmiss eq_refl) as (data & s1 & Hdata & _ & Hplain & _).
  vm_compute in Hdata. injection Hdata as <- <-.
  destruct Hplain as (-> & Hstatus & Hlog); [reflexivity|by vm_compute|].
  exists s'. by split.
Defined.

End Identity.

(** ** Addition and deletion candidates *)

Module Candidates.
Import GroupSync Identity.

Section Facts.
Context {W : Type} `{!Env W}.
Variable self_basic_config : basic_config.

Local Abbreviation exceptions := (default ∅ (bc_exceptions self_basic_config)).

(** The user [ad_user] of the primary directory is not in the cache,
    its account is read without a failure, its login id is mapped to
    ["NONE"] and the secondary directory has no entry [NONE]. *)
Definition mapped_to_NONE (s : state W) (ad_user : string) : Prop :=
  user_lookup_cache s !! ad_user = None
  ∧ ∃ data,
      _get_account_data self_basic_config ad_user s = (value data, s)
      ∧ exceptions !! sAMAccountName data = Some "NONE"
      ∧ secondary_matches self_basic_config (world s) "NONE" = [].

(** The loop bodies of [_generate_additions],
    [_find_user_in_source_dict] and [_generate_deletions]. *)
Definition additions_body (destination_dict : Dict.odict group)
    (valid_sync_group : string) (source_member : string)
    (additions : list string) : M W (list string) :=
  data ← _lookup_ad_user self_basic_config source_member;
  destination ← expect KeyError (Dict.get destination_dict valid_sync_group);
  if bool_decide (sAMAccountName data ∉ names destination)
     && bool_decide (sAMAccountName data ≠ "")
     && account_active data
  then
    allowed ← _check_country_control self_basic_config data valid_sync_group;
    if allowed : bool then mret (additions ++ [sAMAccountName data])
    else mret additions
  else mret additions.

Definition found_body (destination_member : string) (source_member : string)
    (found : bool) : M W bool :=
  data ← _lookup_ad_user self_basic_config source_member;
  if bool_decide (destination_member = sAMAccountName data)
     && account_active data
  then mret true
  else mret found.

Definition deletions_body (source_dict : Dict.odict group)
    (valid_sync_group : string) (destination_member : string)
    (deletions : list string) : M W (list string) :=
  found ← _find_user_in_source_dict self_basic_config
            source_dict destination_member valid_sync_group;
  if found : bool then mret deletions
  else mret (deletions ++ [destination_member]).

Lemma failed_ne (s : state W) (lvl : level) (msg : message) :
  failed s lvl msg ≠ s.
Proof.
  intros Heq. apply (f_equal log) in Heq. cbn [failed log] in Heq.
  apply (f_equal length) in Heq. rewrite length_app in Heq. cbn in Heq. lia.
Qed.

Lemma get_account_data_same_world (ad_user : string) (data : account_data)
    (s s' : state W) :
  world s' = world s →
  _get_account_data self_basic_config ad_user s = (value data, s) →
  _get_account_data self_basic_config ad_user s' = (value data, s').
Proof.
  intros Hworld. unfold _get_account_data, _user_search. run_step.
  rewrite Hworld.
  destruct (_ !! 0%nat) as [first|].
  - destruct (attr_userAccountControl (entry_attributes first)) as [control|].
    + destruct (attr_sAMAccountName (entry_attributes first)) as [name|].
      * by intros [= <-].
      * intros [= _ Hs]. by apply failed_ne in Hs.
    + intros [= _ Hs]. by apply failed_ne in Hs.
  - intros [= _ Hs]. by apply failed_ne in Hs.
Qed.

Lemma mapped_to_NONE_preserved (s s' : state W) (ad_user : string) :
  mapped_to_NONE s ad_user →
  world s' = world s →
  user_lookup_cache s' !! ad_user = None →
  mapped_to_NONE s' ad_user.
Proof.
  intros (_ & data & Hdata & Htarget & Hnone) Hworld Hcache.
  split; [done|]. exists data. rewrite Hworld.
  eauto using get_account_data_same_world.
Qed.

(** The resolution of such a user is silent: the sentinel is returned
    and the state is not touched. *)
Lemma lookup_mapped_to_NONE (s : state W) (ad_user : string) :
  mapped_to_NONE s ad_user →
  _lookup_ad_user self_basic_config ad_user s = (value unknown_user, s).
Proof.
  intros (Hcache & data & Hdata & Htarget & Hnone).
  pose proof (lookup_ad_user_run self_basic_config ad_user s) as Hrun.
  rewrite Hcache in Hrun. destruct Hrun as (data' & s1 & Hdata' & ->).
  rewrite Hdata in Hdata'. injection Hdata' as <- <-.
  unfold resolution. rewrite Htarget, Hnone. cbn [fst snd].
  by case_decide.
Qed.

(** Resolving another user keeps the world and the cache entry. *)
Lemma lookup_other_user (s : state W) (ad_user member : string) :
  member ≠ ad_user →
  ∃ data s',
    _lookup_ad_user self_basic_config member s = (value data, s')
    ∧ world s' = world s
    ∧ user_lookup_cache s' !! ad_user = user_lookup_cache s !! ad_user.
Proof.
  intros Hother.
  pose proof (lookup_ad_user_run self_basic_config member s) as Hrun.
  destruct (user_lookup_cache s !! member) as [hit|]; [by eauto|].
  destruct Hrun as (data & s1 & Hdata & ->).
  eexists _, _. split; [reflexivity|].
  assert (world s1 = world s ∧ user_lookup_cache s1 = user_lookup_cache s)
    as [Hworld Hcache].
  { destruct (get_account_data_run self_basic_config member s)
      as [data' [[Hrun _]|[Hrun _]]];
      rewrite Hrun in Hdata; by injection Hdata as <- <-. }
  unfold resolution.
  destruct (exceptions !! sAMAccountName data) as [target|];
    destruct (secondary_matches self_basic_config (world s1) _) as [|? [|? ?]];
    try case_decide; cbn [fst snd failed cached world user_lookup_cache];
    rewrite ?lookup_insert_ne by done; by rewrite ?Hcache.
Qed.

Lemma check_country_control_frame (data : account_data) (group : string)
    (s : state W) :
  ∃ allowed s',
    _check_country_control self_basic_config data group s = (value allowed, s')
    ∧ world s' = world s
    ∧ user_lookup_cache s' = user_lookup_cache s.
Proof.
  unfold _check_country_control.
  destruct (bc_country_control self_basic_config) as [country_control|];
    [|by exists true, s].
  case_decide; [|by exists true, s].
  destruct (country_control !! group) as [countries|]; [|by exists true, s].
  case_decide; [by exists true, s|].
  destruct (match country_code data with
            | Some code => bool_decide (code ∈ countries)
            | None => false
            end); [by exists true, s|].
  run_step. by eexists false, _.
Qed.

Section NONE.
Variable ad_user : string.

Lemma additions_body_NONE destination_dict group destination additions s :
  mapped_to_NONE s ad_user →
  Dict.get destination_dict group = Some destination →
  additions_body destination_dict group ad_user additions s
  = (value additions, s).
Proof.
  intros Hnone Hdestination. unfold additions_body. run_step.
  rewrite (lookup_mapped_to_NONE _ _ Hnone), Hdestination.
  cbn [unknown_user sAMAccountName account_active].
  by rewrite andb_false_r.
Qed.

Lemma additions_body_other destination_dict group member additions s o s1 :
  member ≠ ad_user →
  mapped_to_NONE s ad_user →
  additions_body destination_dict group member additions s = (o, s1) →
  mapped_to_NONE s1 ad_user.
Proof.
  intros Hother Hnone. unfold additions_body. run_step.
  destruct (lookup_other_user s ad_user member Hother)
    as (data & s' & -> & Hworld & Hcache).
  assert (mapped_to_NONE s' ad_user) as Hnone'.
  { apply (mapped_to_NONE_preserved s); [done|done|].
    rewrite Hcache. apply Hnone. }
  destruct (Dict.get destination_dict group) as [destination|];
    [|by intros [= <- <-]].
  destruct (_ && _ && _); [|by intros [= <- <-]].
  destruct (check_country_control_frame data group s')
    as (allowed & s'' & -> & Hworld' & Hcache').
  intros Hrun.
  assert (s1 = s'') as -> by (by destruct allowed; injection Hrun).
  apply (mapped_to_NONE_preserved s'); [done|done|].
  rewrite Hcache'. apply Hnone'.
Qed.

Lemma additions_loop destination_dict group destination members additions s :
  mapped_to_NONE s ad_user →
  Dict.get destination_dict group = Some destination →
  for_in members (additions_body destination_dict group) additions s
  = for_in (filter (λ member, member ≠ ad_user) members)
      (additions_body destination_dict group) additions s.
Proof.
  intros Hnone Hdestination. revert additions s Hnone.
  induction members as [|member members IH]; intros additions s Hnone;
    [reflexivity|].
  destruct (decide (member = ad_user)) as [->|Hother].
  - rewrite filter_cons_False by (by intros ?).
    rewrite for_in_cons, (additions_body_NONE _ _ _ _ _ Hnone Hdestination).
    by apply IH.
  - rewrite filter_cons_True by done. rewrite !for_in_cons.
    destruct (additions_body destination_dict group member additions s)
      as [[additions'|e] s1] eqn:Hbody; [|reflexivity].
    apply IH. eauto using additions_body_other.
Qed.

Lemma found_body_NONE destination_member found s :
  mapped_to_NONE s ad_user →
  found_body destination_member ad_user found s = (value found, s).
Proof.
  intros Hnone. unfold found_body. run_step.
  rewrite (lookup_mapped_to_NONE _ _ Hnone).
  cbn [unknown_user sAMAccountName account_active].
  by rewrite andb_false_r.
Qed.

Lemma found_body_other destination_member member found s o s1 :
  member ≠ ad_user →
  mapped_to_NONE s ad_user →
  found_body destination_member member found s = (o, s1) →
  mapped_to_NONE s1 ad_user.
Proof.
  intros Hother Hnone. unfold found_body. run_step.
  destruct (lookup_other_user s ad_user member Hother)
    as (data & s' & -> & Hworld & Hcache).
  intros Hrun.
  assert (s1 = s') as -> by (by destruct (_ && _); injection Hrun).
  apply (mapped_to_NONE_preserved s); [done|done|].
  rewrite Hcache. apply Hnone.
Qed.

Lemma found_loop destination_member members found s :
  mapped_to_NONE s ad_user →
  for_in members (found_body destination_member) found s
  = for_in (filter (λ member, member ≠ ad_user) members)
      (found_body destination_member) found s
  ∧ mapped_to_NONE
      (for_in members (found_body destination_member) found s).2 ad_user.
Proof.
  revert found s.
  induction members as [|member members IH]; intros found s Hnone; [done|].
  destruct (decide (member = ad_user)) as [->|Hother].
  - rewrite filter_cons_False by (by intros ?).
    rewrite for_in_cons, (found_body_NONE _ _ _ Hnone). by apply IH.
  - rewrite filter_cons_True by done. rewrite !for_in_cons.
    destruct (found_body destination_member member found s)
      as [[found'|e] s1] eqn:Hbody.
    + apply IH. eauto using found_body_other.
    + split; [reflexivity|]. eauto using found_body_other.
Qed.

Lemma dict_get_set {V} (d : Dict.odict V) (k : string) (v : V) :
  Dict.get (Dict.set d k v) k = Some v.
Proof.
  induction d as [|[k' v'] d IH]; cbn [Dict.set Dict.get].
  - by case_decide.
  - case_decide as Hk; cbn [Dict.get]; by case_decide.
Qed.

Lemma find_user_unfold source_dict destination_member group s :
  _find_user_in_source_dict self_basic_config
    source_dict destination_member group s
  = match Dict.get source_dict group with
    | Some source => for_in (names source) (found_body destination_member) false s
    | None => (raised KeyError, s)
    end.
Proof.
  unfold _find_user_in_source_dict. run_step.
  by destruct (Dict.get source_dict group).
Qed.

Lemma generate_additions_unfold source_dict destination_dict group s :
  _generate_additions self_basic_config source_dict destination_dict group s
  = match Dict.get source_dict group with
    | Some source =>
        for_in (names source) (additions_body destination_dict group) [] s
    | None => (raised KeyError, s)
    end.
Proof.
  unfold _generate_additions. run_step.
  by destruct (Dict.get source_dict group).
Qed.

Lemma generate_deletions_unfold destination_dict source_dict group s :
  _generate_deletions self_basic_config destination_dict source_dict group s
  = match Dict.get destination_dict group with
    | Some destination =>
        for_in (names destination) (deletions_body source_dict group) [] s
    | None => (raised KeyError, s)
    end.
Proof.
  unfold _generate_deletions. run_step.
  by destruct (Dict.get destination_dict group).
Qed.

(** The source group without the user. *)
Definition without_member (source : group) : group :=
  {| group_id := group_id source; group_dn := group_dn source;
     names := filter (λ member, member ≠ ad_user) (names source);
     group_server_type := group_server_type source |}.

Lemma find_user_without source_dict group source destination_member s :
  mapped_to_NONE s ad_user →
  Dict.get source_dict group = Some source →
  _find_user_in_source_dict self_basic_config
    source_dict destination_member group s
  = _find_user_in_source_dict self_basic_config
      (Dict.set source_dict group (without_member source))
      destination_member group s
  ∧ mapped_to_NONE
      (_find_user_in_source_dict self_basic_config
         source_dict destination_member group s).2 ad_user.
Proof.
  intros Hnone Hsource.
  rewrite !find_user_unfold, Hsource, dict_get_set.
  by apply found_loop.
Qed.

Lemma deletions_loop source_dict group source members deletions s :
  mapped_to_NONE s ad_user →
  Dict.get source_dict group = Some source →
  for_in members (deletions_body source_dict group) deletions s
  = for_in members
      (deletions_body (Dict.set source_dict group (without_member source)) group)
      deletions s.
Proof.
  intros Hnone Hsource. revert deletions s Hnone.
  induction members as [|member members IH]; intros deletions s Hnone;
    [reflexivity|].
  rewrite !for_in_cons.
  destruct (find_user_without source_dict group source member s Hnone Hsource)
    as [Hsame Hnone'].
  unfold deletions_body at 1 3. run_step. rewrite <- Hsame.
  destruct (_find_user_in_source_dict _ _ _ _ s) as [[found|e] s1];
    [|reflexivity].
  destruct found; by apply IH.
Qed.

Lemma deletions_of_empty_source source_dict group source members deletions s :
  Dict.get source_dict group = Some source →
  names source = [] →
  for_in members (deletions_body source_dict group) deletions s
  = (value (deletions ++ members), s).
Proof.
  intros Hsource Hempty. revert deletions.
  induction members as [|member members IH]; intros deletions.
  - by rewrite app_nil_r.
  - rewrite for_in_cons. unfold deletions_body at 1. run_step.
    rewrite find_user_unfold, Hsource, Hempty. cbn [for_in]. run_step.
    rewrite IH. by rewrite <- app_assoc.
Qed.

(** C2, amended. A user whose login id is mapped to ["NONE"], with no
    secondary entry [NONE], resolves to the unknown sentinel without a
    log line, a status change or a cache entry. In every group the user
    contributes nothing: the additions and the deletions are those of
    the source group without the user. So the user is never the origin
    of an addition and never keeps a destination member from being
    deleted; when the user is the only source member there are no
    additions and every destination member is a deletion. *)
Theorem NONE_user_contributes_nothing
    (source_dict destination_dict : Dict.odict group)
    (group : string) (source destination : GroupSync.group) (s : state W) :
  mapped_to_NONE s ad_user →
  Dict.get source_dict group = Some source →
  Dict.get destination_dict group = Some destination →
  let without := Dict.set source_dict group (without_member source) in
  _lookup_ad_user self_basic_config ad_user s = (value unknown_user, s)
  ∧ _generate_additions self_basic_config source_dict destination_dict group s
    = _generate_additions self_basic_config without destination_dict group s
  ∧ _generate_deletions self_basic_config destination_dict source_dict group s
    = _generate_deletions self_basic_config destination_dict without group s
  ∧ (names source = [ad_user] →
     _generate_additions self_basic_config source_dict destination_dict group s
     = (value [], s)
     ∧ _generate_deletions self_basic_config destination_dict source_dict group s
       = (value (names destination), s)).
Proof.
  intros Hnone Hsource Hdestination without.
  assert (_generate_additions self_basic_config source_dict destination_dict group s
          = _generate_additions self_basic_config without destination_dict group s)
    as Hadditions.
  { rewrite !generate_additions_unfold. unfold without.
    rewrite Hsource, dict_get_set. by eapply additions_loop. }
  assert (_generate_deletions self_basic_config destination_dict source_dict group s
          = _generate_deletions self_basic_config destination_dict without group s)
    as Hdeletions.
  { rewrite !generate_deletions_unfold, Hdestination. by apply deletions_loop. }
  split; [by apply lookup_mapped_to_NONE|]. split; [done|]. split; [done|].
  intros Honly. rewrite Hadditions, Hdeletions.
  rewrite generate_additions_unfold, generate_deletions_unfold, Hdestination.
  unfold without. rewrite dict_get_set. cbn [without_member names].
  rewrite Honly, filter_cons_False, filter_nil by (by intros ?).
  split; [reflexivity|].
  apply (deletions_of_empty_source _ _ (without_member source));
    [apply dict_get_set|].
  cbn [without_member names]. rewrite Honly.
  by rewrite filter_cons_False by (by intros ?).
Qed.

End NONE.

End Facts.

Lemma alice_is_mapped_to_NONE :
  mapped_to_NONE (Sample.sample_basic_config (Some Sample.alice_to_NONE) None)
    (initial_state Sample.none_mapped)
    "CN=Alice Roe,OU=Users,DC=example,DC=com".
Proof.
  split; [by vm_compute|].
  exists {| sAMAccountName := "alice"; country_code := Some "GB";
            account_active := true |}.
  split; [by vm_compute|]. split; by vm_compute.
Qed.

(** C2, counterexample. [Alice Roe] is mapped to ["NONE"] and is the
    only member of the primary group [staff]; the secondary group
    [staff] lists [alice]. Her login id is a deletion candidate. *)
Lemma NONE_user_login_is_deleted :
  let config := Sample.sample_basic_config (Some Sample.alice_to_NONE) None in
  let alice := "CN=Alice Roe,OU=Users,DC=example,DC=com" in
  let s := initial_state Sample.none_mapped in
  ∃ data deletions,
    mapped_to_NONE config s alice
    ∧ (_get_account_data config alice s).1 = value data
    ∧ (_generate_deletions config Sample.staff_in_openldap Sample.staff_in_ad
         "staff" s).1 = value deletions
    ∧ sAMAccountName data ∈ deletions.
Proof.
  cbv zeta.
  exists {| sAMAccountName := "alice"; country_code := Some "GB";
            account_active := true |}, ["alice"].
  split; [exact alice_is_mapped_to_NONE|].
  split; [by vm_compute|]. split; [by vm_compute|]. by left.
Qed.

(** The amended statement on the same directory. *)
Lemma NONE_user_contributes_nothing_witness :
  let config := Sample.sample_basic_config (Some Sample.alice_to_NONE) None in
  let s := initial_state Sample.none_mapped in
  _generate_additions config Sample.staff_in_ad Sample.staff_in_openldap "staff" s
  = (value [], s)
  ∧ _generate_deletions config Sample.staff_in_openldap Sample.staff_in_ad "staff" s
    = (value ["alice"], s).
Proof.
  cbv zeta.
  destruct (NONE_user_contributes_nothing
              (Sample.sample_basic_config (Some Sample.alice_to_NONE) None)
              "CN=Alice Roe,OU=Users,DC=example,DC=com"
              Sample.staff_in_ad Sample.staff_in_openldap "staff"
              {| group_id := 1200;
                 group_dn := "CN=staff,OU=Groups,DC=example,DC=com";
                 names := ["CN=Alice Roe,OU=Users,DC=example,DC=com"];
                 group_server_type := ad |}
              {| group_id := 1200;
                 group_dn := "cn=staff,ou=Group,dc=example,dc=com";
                 names := ["alice"];
                 group_server_type := openldap |}
              (initial_state Sample.none_mapped)
              alice_is_mapped_to_NONE eq_refl eq_refl)
    as (_ & _ & _ & Honly).
  exact (Honly eq_refl).
Defined.

End Candidates.

(** ** Flattening of nested groups *)

Module Flattening.
Import GroupSync.

Section Facts.
Context {W : Type} `{!Env W}.
Variable self_basic_config : basic_config.

Local Abbreviation config := (bc_config self_basic_config).

Definition filter_of (ad_object : string) : string :=
  "(distinguishedName=" +:+ ad_object +:+ ")".

(** The object classes that the primary directory reports for a filter. *)
Definition classes_of_filter (w : W) (filter_string : string)
    : option (list string) :=
  (ldap_search w ad (base (config_schema config ad)) filter_string
     ["objectClass"]).2 !! 0%nat
  ≫= λ first, attr_objectClass (entry_attributes first).

(** Every entry of the object cache is what the directory answers. *)
Definition cache_consistent (s : state W) : Prop :=
  ∀ filter_string classes,
    object_lookup_cache s !! filter_string = Some classes →
    classes_of_filter (world s) filter_string = Some classes.

Lemma check_ad_object_type_run
    (ad_object object_type : string) (classes : list string) (s : state W) :
  cache_consistent s →
  classes_of_filter (world s) (filter_of ad_object) = Some classes →
  ∃ s',
    _check_ad_object_type self_basic_config ad_object object_type s
    = (value (bool_decide (object_type ∈ classes)), s')
    ∧ world s' = world s
    ∧ cache_consistent s'.
Proof.
  intros Hcache Hclasses. unfold _check_ad_object_type. run_step.
  fold (filter_of ad_object).
  destruct (object_lookup_cache s !! filter_of ad_object) as [hit|] eqn:Hhit.
  - apply Hcache in Hhit. rewrite Hclasses in Hhit. injection Hhit as <-.
    by exists s.
  - unfold classes_of_filter in Hclasses.
    destruct (_ !! 0%nat) as [first|] eqn:Hfirst; simpl in Hclasses; [|discriminate].
    rewrite Hclasses. run_step. eexists. split; [reflexivity|]. split; [done|].
    intros filter_string classes'. cbn [object_lookup_cache world].
    destruct (decide (filter_of ad_object = filter_string)) as [<-|Hne].
    + rewrite lookup_insert_eq. intros [= <-].
      unfold classes_of_filter. rewrite Hfirst. simpl. congruence.
    + rewrite lookup_insert_ne by done. apply Hcache.
Qed.

Lemma group_search_found (connection : server_type)
    (base_string filter_string : string) (attrs : list string)
    (response : list entry) (s : state W) :
  ldap_search (world s) connection base_string filter_string attrs = (0, response) →
  _group_search self_basic_config connection base_string filter_string attrs s
  = (value response, s).
Proof.
  intros Hsearch. unfold _group_search. run_step. rewrite Hsearch.
  by case_decide.
Qed.

(** A nested group that is not in [called_groups] is expanded by a
    recursive call; an exception of that call ends the whole call. *)
Lemma nested_group_raises
    (recursive_call : list string → list string → M W (gset string * list string))
    (called_groups : list string) (ad_object : string) (rest : list string)
    (classes members : list string) (first : entry) (more : list entry)
    (e : exn) (s : state W) :
  cache_consistent s →
  classes_of_filter (world s) (filter_of ad_object) = Some classes →
  "user" ∉ classes →
  "group" ∈ classes →
  ad_object ∉ called_groups →
  ldap_search (world s) ad (base (config_schema config ad))
    (filter_of ad_object) ["member"] = (0, first :: more) →
  attr_members (entry_attributes first) = Some members →
  (∀ s', world s' = world s → cache_consistent s' →
     (recursive_call (called_groups ++ Str.chars ad_object) members s').1
     = raised e) →
  (flatten_body self_basic_config recursive_call called_groups
     (ad_object :: rest) s).1 = raised e.
Proof.
  intros Hcache Hclasses Huser Hgroup Hfresh Hsearch Hmembers Hcall.
  unfold flatten_body. unfold mbind at 1, M_bind at 1. rewrite for_in_cons.
  unfold mbind at 1, M_bind at 1.
  destruct (check_ad_object_type_run ad_object "user" classes s Hcache Hclasses)
    as (s1 & -> & Hworld1 & Hcache1).
  rewrite (bool_decide_eq_false_2 _ Huser).
  unfold mbind at 1, M_bind at 1.
  destruct (check_ad_object_type_run ad_object "group" classes s1 Hcache1)
    as (s2 & -> & Hworld2 & Hcache2); [by rewrite Hworld1|].
  rewrite (bool_decide_eq_true_2 _ Hgroup), (bool_decide_eq_true_2 _ Hfresh).
  unfold mbind at 1, M_bind at 1.
  rewrite (group_search_found ad _ _ _ (first :: more) s2)
    by (by rewrite Hworld2, Hworld1).
  unfold mbind at 1, M_bind at 1. cbn [expect lookup list_lookup].
  unfold mret at 1, M_ret at 1.
  unfold mbind at 1, M_bind at 1. rewrite Hmembers. cbn [expect].
  unfold mret at 1, M_ret at 1.
  unfold mbind at 1, M_bind at 1.
  specialize (Hcall s2).
  destruct (recursive_call _ _ s2) as [o s3].
  cbn [fst] in Hcall. rewrite Hcall; [reflexivity| |done].
  by rewrite Hworld2.
Qed.

End Facts.

Definition plain : basic_config := Sample.sample_basic_config None None.

(** The users of a returned set, in the order of iteration. *)
Definition flattened_users (result : outcome (gset string * list string))
    : option (list string) :=
  match result with
  | value (flattened, _) => Some (elements flattened)
  | raised _ => None
  end.

Lemma one_character (name : string) (object_dn : string) :
  (1 < String.length name)%nat → name ∉ Str.chars object_dn.
Proof.
  intros Hlong Hin. induction object_dn as [|ch rest IH]; cbn [Str.chars] in Hin.
  - by apply elem_of_nil in Hin.
  - apply elem_of_cons in Hin as [->|Hin]; [cbn in Hlong; lia|by apply IH].
Qed.

(** In the directory [cycle] no call below the group [all] returns:
    whatever the recursion limit, the stack frames are used up. *)
Lemma cycle_never_returns (depth : nat) :
  ∀ (called_groups : list string) (s : state Sample.directory),
    world s = Sample.cycle →
    cache_consistent plain s →
    Sample.eng ∉ called_groups →
    Sample.ops ∉ called_groups →
    (_flatten_nested_group plain depth called_groups [Sample.eng] s).1
    = raised RecursionError
    ∧ (_flatten_nested_group plain depth called_groups
         [Sample.ops; Sample.john] s).1
      = raised RecursionError.
Proof.
  induction depth as [|depth IH]; intros called_groups s Hworld Hcache Heng Hops;
    [by split|].
  assert (∀ object_dn, Sample.eng ∉ called_groups ++ Str.chars object_dn)
    as Heng'.
  { intros object_dn [?|Hin]%elem_of_app; [done|].
    revert Hin. apply one_character. cbn. lia. }
  assert (∀ object_dn, Sample.ops ∉ called_groups ++ Str.chars object_dn)
    as Hops'.
  { intros object_dn [?|Hin]%elem_of_app; [done|].
    revert Hin. apply one_character. cbn. lia. }
  split; cbn [_flatten_nested_group].
  - apply (nested_group_raises plain _ _ _ _ Sample.group_classes
             [Sample.ops; Sample.john]
             (Sample.object_entry Sample.eng Sample.group_classes
                [Sample.ops; Sample.john]) []);
      [done|by rewrite Hworld| | |done|by rewrite Hworld|done|].
    + apply (bool_decide_unpack _). by vm_compute.
    + apply (bool_decide_unpack _). by vm_compute.
    + intros s' Hworld' Hcache'. apply IH; [congruence|done|done|done].
  - apply (nested_group_raises plain _ _ _ _ Sample.group_classes
             [Sample.eng]
             (Sample.object_entry Sample.ops Sample.group_classes [Sample.eng])
             []);
      [done|by rewrite Hworld| | |done|by rewrite Hworld|done|].
    + apply (bool_decide_unpack _). by vm_compute.
    + apply (bool_decide_unpack _). by vm_compute.
    + intros s' Hworld' Hcache'. apply IH; [congruence|done|done|done].
Qed.

Lemma initial_cache_consistent (w : Sample.directory) :
  cache_consistent plain (initial_state w).
Proof.
  intros filter_string classes Hhit.
  cbn [initial_state object_lookup_cache] in Hhit.
  by rewrite lookup_empty in Hhit.
Qed.


(** C1. The code does not compute the reachable users.
    - In the directory [siblings] the users [john] and [jane] are both
      reachable from the group [all] through the nested groups [eng] and
      [ops], with no cycle; the result is [jane] alone, without [john],
      because the set of each nested group replaces the set of the one
      before it.
    - In the directory [cycle] the call for the group [all] never
      returns a set: [called_groups] is extended with the characters of
      a name, not with the name, so [eng] and [ops] expand each other
      until the stack frames are used up, for every recursion limit. *)
Theorem flatten_loses_members_and_recurses_forever :
  (∀ depth, (2 ≤ depth)%nat →
     flattened_users
       (_flatten_nested_group plain depth [Sample.all_staff]
          [Sample.eng; Sample.ops] (initial_state Sample.siblings)).1
     = Some [Sample.jane])
  ∧ (∀ depth,
       (_flatten_nested_group plain depth [Sample.all_staff]
          [Sample.eng] (initial_state Sample.cycle)).1
       = raised RecursionError).
Proof.
  split.
  - intros [|[|depth]] Hdepth; [lia|lia|]. vm_compute. reflexivity.
  - intros depth.
    apply cycle_never_returns; [done|apply initial_cache_consistent| |].
    + apply (bool_decide_unpack _). by vm_compute.
    + apply (bool_decide_unpack _). by vm_compute.
Qed.

End Flattening.

(** ** The run status *)

Module RunStatus.
Import GroupSync.

(** The log lines that report a recoverable failure. *)
Definition is_failure (msg : message) : bool :=
  match msg with
  | failed_to_execute _ _
  | exception_target_not_in_openldap _
  | exception_target_matches_multiple _
  | not_in_openldap_or_more_than_one _
  | does_not_exist_in_ad _
  | breaches_thresholds _
  | failed_to_update_gid _
  | failed_to_create_group _ => true
  | _ => false
  end.

Definition no_failure (entries : list (level * message)) : bool :=
  forallb (λ entry, negb (is_failure entry.2)) entries.

Section Facts.
Context {W : Type} `{!Env W}.

(** From [s] to [s'] the log has grown and the run status is the
    conjunction of the old status and of "no failure was logged". *)
Definition accumulated (s s' : state W) : Prop :=
  ∃ entries,
    log s' = log s ++ entries
    ∧ run_status s' = run_status s && no_failure entries.

(** A computation keeps the run status in step with the log whenever
    it returns. *)
Definition tracks {A} (m : M W A) : Prop :=
  ∀ s a s', m s = (value a, s') → accumulated s s'.

Lemma no_failure_app (entries more : list (level * message)) :
  no_failure (entries ++ more) = no_failure entries && no_failure more.
Proof. apply forallb_app. Qed.

Lemma accumulated_same (s s' : state W) :
  log s' = log s → run_status s' = run_status s → accumulated s s'.
Proof. intros Hlog Hstatus. exists []. by rewrite app_nil_r, andb_true_r. Qed.

Lemma accumulated_refl (s : state W) : accumulated s s.
Proof. by apply accumulated_same. Qed.

Lemma accumulated_trans (s s' s'' : state W) :
  accumulated s s' → accumulated s' s'' → accumulated s s''.
Proof.
  intros (entries & Hlog & Hstatus) (more & Hlog' & Hstatus').
  exists (entries ++ more). split.
  - by rewrite Hlog', Hlog, app_assoc.
  - by rewrite Hstatus', Hstatus, no_failure_app, andb_assoc.
Qed.

Lemma tracks_ret {A} (a : A) : tracks (mret a).
Proof. intros s a' s' [= <- <-]. apply accumulated_refl. Qed.

Lemma tracks_raise {A} (e : exn) : tracks (raise e : M W A).
Proof. by intros s a s'. Qed.

Lemma tracks_gets {A} (f : state W → A) : tracks (gets f).
Proof. intros s a s' [= <- <-]. apply accumulated_refl. Qed.

Lemma tracks_expect {A} (e : exn) (o : option A) : tracks (expect e o).
Proof. destruct o; [apply tracks_ret|apply tracks_raise]. Qed.

Lemma tracks_bind {A B} (m : M W A) (f : A → M W B) :
  tracks m → (∀ a, tracks (f a)) → tracks (m ≫= f).
Proof.
  intros Hm Hf s b s''. unfold mbind, M_bind.
  destruct (m s) as [[a|e] s'] eqn:Hrun; [|done].
  intros Hrun'. eapply accumulated_trans; [by eapply Hm|by eapply Hf].
Qed.

Lemma tracks_for_in {A S} (l : list A) (body : A → S → M W S) (acc : S) :
  (∀ x acc, tracks (body x acc)) → tracks (for_in l body acc).
Proof.
  intros Hbody. revert acc.
  induction l as [|x l IH]; intros acc; cbn [for_in];
    [apply tracks_ret|by apply tracks_bind].
Qed.

Lemma tracks_logger (lvl : level) (msg : message) :
  is_failure msg = false → tracks (logger lvl msg).
Proof.
  intros Hmsg s a s' [= <- <-]. exists [(lvl, msg)]. split; [reflexivity|].
  cbn. by rewrite Hmsg, andb_true_r.
Qed.

Lemma tracks_set_world (w : W) (r : request) : tracks (set_world w r).
Proof. intros s a s' [= <- <-]. by apply accumulated_same. Qed.

Lemma tracks_cache_user (ad_user : string) (data : account_data) :
  tracks (cache_user ad_user data).
Proof. intros s a s' [= <- <-]. by apply accumulated_same. Qed.

Lemma tracks_cache_object (filter_string : string) (response : list string) :
  tracks (cache_object filter_string response).
Proof. intros s a s' [= <- <-]. by apply accumulated_same. Qed.

(** A failure: the log line and the assignment, in either order. *)
Lemma tracks_log_fail (lvl : level) (msg : message) :
  is_failure msg = true →
  tracks (logger lvl msg;; set_run_status_False).
Proof.
  intros Hmsg s a s' [= <- <-]. exists [(lvl, msg)]. split; [reflexivity|].
  cbn. by rewrite Hmsg, andb_false_r.
Qed.

Lemma tracks_log_fail_then {A} (lvl : level) (msg : message) (k : M W A) :
  is_failure msg = true →
  tracks k →
  tracks (logger lvl msg;; set_run_status_False;; k).
Proof.
  intros Hmsg Hk s a s'. unfold mbind, M_bind. cbn.
  intros Hrun. apply Hk in Hrun. eapply accumulated_trans; [|exact Hrun].
  exists [(lvl, msg)]. split; [reflexivity|]. cbn. by rewrite Hmsg, andb_false_r.
Qed.

Lemma tracks_fail_log (lvl : level) (msg : message) :
  is_failure msg = true →
  tracks (set_run_status_False;; logger lvl msg).
Proof.
  intros Hmsg s a s' [= <- <-]. exists [(lvl, msg)]. split; [reflexivity|].
  cbn. by rewrite Hmsg, andb_false_r.
Qed.

End Facts.

Create HintDb tracks.

Ltac track_step :=
  first
    [ apply tracks_ret
    | apply tracks_raise
    | apply tracks_gets
    | apply tracks_expect
    | apply tracks_log_fail_then; [reflexivity|]
    | apply tracks_log_fail; reflexivity
    | apply tracks_fail_log; reflexivity
    | apply tracks_logger; reflexivity
    | apply tracks_set_world
    | apply tracks_cache_user
    | apply tracks_cache_object
    | apply tracks_for_in; intros
    | solve [eauto with tracks]
    | apply tracks_bind; [|intros]
    | match goal with
      | |- tracks (match ?x with _ => _ end) => destruct x
      | |- tracks (if ?b then _ else _) => destruct b
      end
    | progress cbv beta zeta ].

Ltac track := repeat track_step.

Section Methods.
Context {W : Type} `{!Env W}.
Variable self_basic_config : basic_config.

Lemma tracks_user_search server user_name user_base :
  tracks (_user_search self_basic_config server user_name user_base).
Proof. unfold _user_search. track. Qed.
#[local] Hint Resolve tracks_user_search : tracks.

Lemma tracks_write_monitoring_log status runner :
  tracks (write_monitoring_log self_basic_config status runner).
Proof. unfold write_monitoring_log. track. Qed.
#[local] Hint Resolve tracks_write_monitoring_log : tracks.

Lemma tracks_group_search connection base_string filter_string attrs :
  tracks (_group_search self_basic_config connection base_string filter_string attrs).
Proof. unfold _group_search. track. Qed.
#[local] Hint Resolve tracks_group_search : tracks.

Lemma tracks_modify_group server connection group_dn a user_list :
  tracks (_modify_group self_basic_config server connection group_dn a user_list).
Proof. unfold _modify_group. track. Qed.
#[local] Hint Resolve tracks_modify_group : tracks.

Lemma tracks_determine_group_name group_name_object :
  tracks (_determine_group_name (W := W) group_name_object).
Proof. unfold _determine_group_name. track. Qed.
#[local] Hint Resolve tracks_determine_group_name : tracks.

Lemma tracks_determine_group_id server group group_name :
  tracks (_determine_group_id (W := W) server group group_name).
Proof. unfold _determine_group_id. track. Qed.
#[local] Hint Resolve tracks_determine_group_id : tracks.

Lemma tracks_check_ad_object_type ad_object object_type :
  tracks (_check_ad_object_type self_basic_config ad_object object_type).
Proof. unfold _check_ad_object_type. track. Qed.
#[local] Hint Resolve tracks_check_ad_object_type : tracks.

Lemma tracks_flatten_nested_group depth called_groups group_members :
  tracks (_flatten_nested_group self_basic_config depth called_groups group_members).
Proof.
  revert called_groups group_members.
  induction depth as [|depth IH]; intros called_groups group_members;
    cbn [_flatten_nested_group]; [apply tracks_raise|].
  unfold flatten_body. track.
Qed.
#[local] Hint Resolve tracks_flatten_nested_group : tracks.

Lemma tracks_create_group_dictionary recursion_limit server search_results :
  tracks (_create_group_dictionary self_basic_config
            recursion_limit server search_results).
Proof. unfold _create_group_dictionary. track. Qed.
#[local] Hint Resolve tracks_create_group_dictionary : tracks.

Lemma tracks_build_sync_group_list first_group_dict second_group_dict :
  tracks (_build_sync_group_list (W := W) first_group_dict second_group_dict).
Proof. unfold _build_sync_group_list. track. Qed.
#[local] Hint Resolve tracks_build_sync_group_list : tracks.

Lemma tracks_check_country_control data valid_sync_group :
  tracks (_check_country_control (W := W) self_basic_config data valid_sync_group).
Proof. unfold _check_country_control. track. Qed.
#[local] Hint Resolve tracks_check_country_control : tracks.

Lemma tracks_get_account_data ad_user :
  tracks (_get_account_data self_basic_config ad_user).
Proof. unfold _get_account_data. track. Qed.
#[local] Hint Resolve tracks_get_account_data : tracks.

Lemma tracks_lookup_ad_user ad_user :
  tracks (_lookup_ad_user self_basic_config ad_user).
Proof. unfold _lookup_ad_user. track. Qed.
#[local] Hint Resolve tracks_lookup_ad_user : tracks.

Lemma tracks_find_user_in_source_dict source_dict destination_member group :
  tracks (_find_user_in_source_dict self_basic_config
            source_dict destination_member group).
Proof. unfold _find_user_in_source_dict. track. Qed.
#[local] Hint Resolve tracks_find_user_in_source_dict : tracks.

Lemma tracks_generate_additions source_dict destination_dict group :
  tracks (_generate_additions self_basic_config source_dict destination_dict group).
Proof. unfold _generate_additions. track. Qed.
#[local] Hint Resolve tracks_generate_additions : tracks.

Lemma tracks_generate_deletions destination_dict source_dict group :
  tracks (_generate_deletions self_basic_config destination_dict source_dict group).
Proof. unfold _generate_deletions. track. Qed.
#[local] Hint Resolve tracks_generate_deletions : tracks.

Lemma tracks_check_override_required destination_list ops group_name :
  tracks (_check_override_required (W := W) self_basic_config
            destination_list ops group_name).
Proof.
  unfold _check_override_required.
  generalize (_determine_change_percent destination_list ops). intros change.
  track.
Qed.
#[local] Hint Resolve tracks_check_override_required : tracks.

Lemma tracks_generate_group_operations source_dict destination_dict groups :
  tracks (_generate_group_operations self_basic_config
            source_dict destination_dict groups).
Proof. unfold _generate_group_operations. track. Qed.
#[local] Hint Resolve tracks_generate_group_operations : tracks.

(** Here the warning and the assignment are four statements apart. *)
Lemma tracks_check_process_changes destination_group_dict group group_operations :
  tracks (_check_process_changes (W := W) self_basic_config
            destination_group_dict group group_operations).
Proof.
  unfold _check_process_changes. intros s a s'. run_step.
  destruct (Dict.get group_operations group) as [ops|]; [|done].
  destruct (_ || _); [|intros [= <- <-]; apply accumulated_refl].
  destruct (override_required ops) as [[|]|]; [| |done].
  - destruct (_ || _).
    + intros [= <- <-]. eexists. split; [reflexivity|].
      cbn. by rewrite andb_true_r.
    + destruct (Dict.get destination_group_dict group); [|done].
      intros [= <- <-]. eexists. split.
      * cbn [log]. rewrite <- !app_assoc. reflexivity.
      * cbn. by rewrite andb_false_r.
  - intros [= <- <-]. eexists. split; [reflexivity|].
    cbn. by rewrite andb_true_r.
Qed.
#[local] Hint Resolve tracks_check_process_changes : tracks.

Lemma tracks_process_operations destination_group_dict group_operations :
  tracks (_process_operations self_basic_config
            destination_group_dict group_operations).
Proof. unfold _process_operations. track. Qed.
#[local] Hint Resolve tracks_process_operations : tracks.

Lemma tracks_get_next_gid_uid_number for_user :
  tracks (get_next_gid_uid_number self_basic_config for_user).
Proof. unfold get_next_gid_uid_number. track. Qed.
#[local] Hint Resolve tracks_get_next_gid_uid_number : tracks.

Lemma tracks_new_ldap_group server group openldap_dict ad_dict :
  tracks (_new_ldap_group self_basic_config server group openldap_dict ad_dict).
Proof. unfold _new_ldap_group. track. Qed.
#[local] Hint Resolve tracks_new_ldap_group : tracks.

Lemma tracks_add_missing_openldap_groups openldap_dict ad_dict :
  tracks (_add_missing_openldap_groups self_basic_config openldap_dict ad_dict).
Proof. unfold _add_missing_openldap_groups. track. Qed.
#[local] Hint Resolve tracks_add_missing_openldap_groups : tracks.







End Methods.


End RunStatus.

(** * Further properties *)

(** ** Dictionaries *)

Module DictFacts.

Lemma get_set_other {V} (d : Dict.odict V) (k k' : string) (v : V) :
  k ≠ k' → Dict.get (Dict.set d k v) k' = Dict.get d k'.
Proof.
  intros Hne. induction d as [|[k0 v0] d IH]; cbn [Dict.get Dict.set].
  - by destruct (decide (k = k')).
  - destruct (decide (k0 = k)) as [->|Hk0]; cbn [Dict.get].
    + by destruct (decide (k = k')).
    + destruct (decide (k0 = k')); [done|exact IH].
Qed.

Lemma set_set_same {V} (d : Dict.odict V) (k : string) (v : V) :
  Dict.set (Dict.set d k v) k v = Dict.set d k v.
Proof.
  induction d as [|[k0 v0] d IH]; cbn [Dict.set].
  - by destruct (decide (k = k)).
  - destruct (decide (k0 = k)) as [->|Hk0]; cbn [Dict.set].
    + by destruct (decide (k = k)).
    + destruct (decide (k0 = k)); [done|]. by rewrite IH.
Qed.


End DictFacts.

(** ** The override decision *)

Module OverrideDecision.
Import GroupSync.

Section Facts.
Context {W : Type} `{!Env W}.
Variable self_basic_config : basic_config.

Local Abbreviation settings := (config_settings (bc_config self_basic_config)).

(** One of the three percentages is above its threshold. *)
Definition breach (change : change_data) : Prop :=
  total_change_percent change > total_change_threshold settings
  ∨ deletions_change_percent change > deletions_change_threshold settings
  ∨ additions_change_percent change > additions_change_threshold settings.

(** The decision as a function of the change data. *)
Definition requires_override (change : change_data) : bool :=
  (bool_decide (total_change_percent change > total_change_threshold settings)
   || bool_decide (deletions_change_percent change
                   > deletions_change_threshold settings)
   || bool_decide (additions_change_percent change
                   > additions_change_threshold settings))
  && negb (bool_decide (original_len change < small_group_blind_update settings)).

Lemma check_override_required_run
    (destination_list : list string) (ops : operations) (group_name : string)
    (s : state W) :
  ∃ s',
    _check_override_required self_basic_config destination_list ops group_name s
    = (value (requires_override (_determine_change_percent destination_list ops)),
       s')
    ∧ run_status s' = run_status s
    ∧ world s' = world s
    ∧ requests s' = requests s
    ∧ user_lookup_cache s' = user_lookup_cache s
    ∧ object_lookup_cache s' = object_lookup_cache s
    ∧ ∃ entries, log s' = log s ++ entries ∧ Forall (λ line, line.1 = DEBUG) entries.
Proof.
  unfold _check_override_required, requires_override.
  generalize (_determine_change_percent destination_list ops). intros change.
  run_step.
  destruct (decide (total_change_percent change > _)) as [Htotal|Htotal];
    destruct (decide (deletions_change_percent change > _))
      as [Hdeletions|Hdeletions];
    destruct (decide (additions_change_percent change > _))
      as [Hadditions|Hadditions];
    first [ rewrite (bool_decide_eq_true_2 _ Htotal)
          | rewrite (bool_decide_eq_false_2 _ Htotal) ];
    first [ rewrite (bool_decide_eq_true_2 _ Hdeletions)
          | rewrite (bool_decide_eq_false_2 _ Hdeletions) ];
    first [ rewrite (bool_decide_eq_true_2 _ Hadditions)
          | rewrite (bool_decide_eq_false_2 _ Hadditions) ];
    destruct (bool_decide (original_len change < _));
    cbn [andb orb negb]; run_step;
    (eexists; split; [reflexivity|]);
    cbn [run_status world requests user_lookup_cache object_lookup_cache log];
    (do 5 (split; [reflexivity|]));
    rewrite <- ?app_assoc; (eexists; split; [reflexivity|]); repeat constructor.
Qed.

(** X1. [_check_override_required] never raises, and it asks for an
    override exactly when one of the three percentages is strictly above
    its threshold and the group is not a small one (its member count,
    floored at 1, is at least [small_group_blind_update]). A percentage
    that is equal to its threshold does not count. The call only adds
    DEBUG lines: the run status, the caches, the directories and the
    requests are as before. *)
Theorem override_required_iff_breach_in_large_group
    (destination_list : list string) (ops : operations) (group_name : string)
    (s : state W) :
  ∃ required s',
    _check_override_required self_basic_config destination_list ops group_name s
    = (value required, s')
    ∧ (required = true ↔
         breach (_determine_change_percent destination_list ops)
         ∧ small_group_blind_update settings
           ≤ original_len (_determine_change_percent destination_list ops))
    ∧ run_status s' = run_status s
    ∧ world s' = world s
    ∧ requests s' = requests s
    ∧ user_lookup_cache s' = user_lookup_cache s
    ∧ object_lookup_cache s' = object_lookup_cache s
    ∧ ∃ entries, log s' = log s ++ entries ∧ Forall (λ line, line.1 = DEBUG) entries.
Proof.
  destruct (check_override_required_run destination_list ops group_name s)
    as (s' & Hrun & Hframe).
  eexists _, s'. split; [exact Hrun|]. split; [|exact Hframe].
  unfold requires_override, breach.
  rewrite andb_true_iff, !orb_true_iff, negb_true_iff, !bool_decide_eq_true,
    bool_decide_eq_false.
  split; (intros [Hbreach Hlarge]; split; [tauto|lia]).
Qed.

End Facts.
End OverrideDecision.

(** ** The processing gate *)

Module ProcessingGate.
Import GroupSync.

(** [additions or deletions] is not empty. *)
Definition has_changes (ops : operations) : bool :=
  bool_decide (additions ops ≠ []) || bool_decide (deletions ops ≠ []).

Lemma positive_length {A} (l : list A) :
  bool_decide (0 < length l)%nat = bool_decide (l ≠ []).
Proof. destruct l; [by rewrite bool_decide_eq_false_2 by (cbn; lia)|]. by rewrite !bool_decide_eq_true_2 by (cbn; done || lia). Qed.

Section Facts.
Context {W : Type} `{!Env W}.
Variable self_basic_config : basic_config.

(** The command line overrides the thresholds for this group. *)
Definition overridden (group : string) : bool :=
  universal_override (bc_args self_basic_config)
  || bool_decide (group ∈ group_override (bc_args self_basic_config)).

(** What [_check_process_changes] does for a group whose operations are
    recorded with the override flag [required]. *)
Lemma check_process_changes_run
    (destination_group_dict : Dict.odict group) (group : string)
    (group_operations : Dict.odict operations) (ops : operations)
    (required : bool) (destination : GroupSync.group) (s : state W) :
  Dict.get group_operations group = Some ops →
  override_required ops = Some required →
  Dict.get destination_group_dict group = Some destination →
  ∃ s',
    _check_process_changes self_basic_config
      destination_group_dict group group_operations s
    = (value (has_changes ops && (negb required || overridden group)), s')
    ∧ run_status s'
      = run_status s && negb (has_changes ops && required && negb (overridden group))
    ∧ world s' = world s
    ∧ requests s' = requests s
    ∧ user_lookup_cache s' = user_lookup_cache s
    ∧ object_lookup_cache s' = object_lookup_cache s.
Proof.
  intros Hops Hrequired Hdestination.
  unfold _check_process_changes, has_changes, overridden. run_step.
  rewrite Hops, Hrequired, Hdestination, !positive_length.
  destruct (_ || _); cbn [andb negb orb];
    [|eexists; split; [reflexivity|]; by rewrite andb_true_r].
  destruct required; cbn [negb orb].
  - destruct (_ || _); cbn [negb andb]; run_step;
      (eexists; split; [reflexivity|]); cbn [run_status world requests
        user_lookup_cache object_lookup_cache];
      by rewrite ?andb_true_r, ?andb_false_r.
  - run_step. eexists. split; [reflexivity|].
    cbn [run_status world requests user_lookup_cache object_lookup_cache].
    by rewrite andb_true_r.
Qed.


End Facts.


End ProcessingGate.

(** ** Allocation of group and user numbers *)

Module Allocation.
Import GroupSync.

Section Facts.
Context {W : Type} `{!Env W}.
Variable self_basic_config : basic_config.

Local Abbreviation schema := (config_schema (bc_config self_basic_config) openldap).

(** The attribute that holds the number, the configured minimum, and
    the number of an entry. *)
Definition member_number (for_user : bool) : string :=
  if for_user then objects_user_uid_number (schema_objects schema)
  else objects_group_gid_number (schema_objects schema).

Definition min_member_number (for_user : bool) : Z :=
  if for_user then new_user_min_member_number schema
  else new_group_min_member_number schema.

Definition number_of (for_user : bool) (e : entry) : option Z :=
  if for_user then attr_uid_number (entry_attributes e)
  else attr_gid_number (entry_attributes e).

(** The entries of the secondary directory that have the number. *)
Definition numbered (for_user : bool) (w : W) : list entry :=
  (ldap_search w openldap (base schema)
     ("(" +:+ member_number for_user +:+ "=*)") [member_number for_user]).2.

Lemma collect_numbers (for_user : bool) (entries : list entry)
    (gid_number_list : list Z) (s : state W) :
  for_in entries
    (λ e gid_number_list,
      number ← expect KeyError (number_of for_user e);
      mret (gid_number_list ++ [number]))
    gid_number_list s
  = match mapM (number_of for_user) entries with
    | Some numbers => (value (gid_number_list ++ numbers), s)
    | None => (raised KeyError, s)
    end.
Proof.
  revert gid_number_list.
  induction entries as [|e entries IH]; intros gid_number_list.
  - cbn. by rewrite app_nil_r.
  - rewrite for_in_cons. run_step. cbn [mapM].
    destruct (number_of for_user e) as [number|]; cbn [mbind option_bind];
      [|reflexivity].
    rewrite IH. destruct (mapM (number_of for_user) entries) as [numbers|];
      cbn [mbind option_bind mret option_ret]; [|reflexivity].
    by rewrite <- app_assoc.
Qed.

Lemma get_next_gid_uid_number_run (for_user : bool) (s : state W) :
  get_next_gid_uid_number self_basic_config for_user s
  = match mapM (number_of for_user) (numbered for_user (world s)) with
    | Some numbers =>
        (value (Utilities.fill_array_gaps (0 :: numbers) (min_member_number for_user)),
         s)
    | None => (raised KeyError, s)
    end.
Proof.
  unfold get_next_gid_uid_number.
  unfold mbind at 1, M_bind at 1, gets at 1.
  unfold mbind at 1, M_bind at 1.
  pose proof (collect_numbers for_user (numbered for_user (world s)) [0] s) as Hloop.
  unfold numbered, number_of, member_number in *.
  destruct for_user; rewrite Hloop; by destruct (mapM _ _).
Qed.

Lemma fill_array_gaps_least (numbers : list Z) (offset : Z) :
  offset ≤ Utilities.fill_array_gaps numbers offset
  ∧ (Utilities.fill_array_gaps numbers offset ∉ numbers)
  ∧ ∀ k, offset ≤ k < Utilities.fill_array_gaps numbers offset → k ∈ numbers.
Proof.
  unfold Utilities.fill_array_gaps. cbv zeta.
  destruct (UtilitiesFacts.while_offset_in_least (ZSort.sort numbers) offset)
    as (Hle & Hfree & Hfilled).
  split; [exact Hle|]. split.
  - by rewrite <- UtilitiesFacts.sort_elem_of.
  - intros k Hk. apply UtilitiesFacts.sort_elem_of. by apply Hfilled.
Qed.

(** X3. When every entry that the secondary directory returns has the
    number, [get_next_gid_uid_number] returns the smallest number that
    is at least the configured minimum, is not [0] and is not the
    number of any entry. The call reads the directory once and changes
    nothing. *)
Theorem next_number_is_least_unused (for_user : bool) (s : state W) :
  Forall (λ e, is_Some (number_of for_user e)) (numbered for_user (world s)) →
  ∃ n,
    get_next_gid_uid_number self_basic_config for_user s = (value n, s)
    ∧ min_member_number for_user ≤ n
    ∧ n ≠ 0
    ∧ (∀ e, e ∈ numbered for_user (world s) → number_of for_user e ≠ Some n)
    ∧ (∀ k, min_member_number for_user ≤ k < n →
         k = 0
         ∨ (∃ e, e ∈ numbered for_user (world s) ∧ number_of for_user e = Some k)).
Proof.
  intros Hall. rewrite get_next_gid_uid_number_run.
  destruct (mapM (number_of for_user) (numbered for_user (world s)))
    as [numbers|] eqn:Hnumbers.
  - apply mapM_Some in Hnumbers.
    destruct (fill_array_gaps_least (0 :: numbers) (min_member_number for_user))
      as (Hle & Hfree & Hfilled).
    eexists. split; [reflexivity|]. split; [exact Hle|].
    apply not_elem_of_cons in Hfree as [Hzero Hfree].
    split; [exact Hzero|]. split.
    + intros e He Hn.
      destruct (proj1 (list_elem_of_lookup _ _) He) as [i Hi].
      destruct (Forall2_lookup_l _ _ _ _ _ Hnumbers Hi) as (n' & Hn' & Heq).
      apply Hfree. rewrite Hn in Heq. injection Heq as <-.
      by eapply list_elem_of_lookup_2.
    + intros k Hk. apply Hfilled in Hk.
      apply elem_of_cons in Hk as [->|Hk]; [by left|right].
      destruct (proj1 (list_elem_of_lookup _ _) Hk) as [i Hi].
      destruct (Forall2_lookup_r _ _ _ _ _ Hnumbers Hi) as (e & He & Heq).
      exists e. split; [by eapply list_elem_of_lookup_2|done].
  - exfalso. apply mapM_None in Hnumbers.
    apply Exists_exists in Hnumbers as (e & He & Hnone).
    rewrite Forall_forall in Hall. destruct (Hall e He) as [n Hn]. congruence.
Qed.

End Facts.

(** Groups with the numbers 2000, 2001 and 2003 and a minimum of 2000:
    the next group number is 2002. *)
Definition numbered_groups : Sample.directory :=
  {| Sample.answers :=
       [ (openldap, "dc=example,dc=com", "(gidNumber=*)",
          map (λ gid,
                {| dn := "cn=g,ou=Group,dc=example,dc=com";
                   entry_attributes :=
                     {| attr_objectClass := None; attr_name := None;
                        attr_gid_number := Some gid; attr_uid_number := None;
                        attr_members := None; attr_userAccountControl := None;
                        attr_sAMAccountName := None; attr_c := None |} |})
              [2001; 2003; 2000]) ];
     Sample.write_result := 0 |}.

Lemma next_number_is_least_unused_witness :
  ∃ n,
    get_next_gid_uid_number (Sample.sample_basic_config None None) false
      (initial_state numbered_groups)
    = (value n, initial_state numbered_groups)
    ∧ n = 2002.
Proof.
  destruct (next_number_is_least_unused (Sample.sample_basic_config None None)
              false (initial_state numbered_groups))
    as (n & Hrun & _).
  { vm_compute. repeat constructor; eauto. }
  exists n. split; [exact Hrun|].
  vm_compute in Hrun. by injection Hrun as <-.
Defined.

End Allocation.

(** ** What a method leaves behind

    [keeps R m]: whatever the outcome of [m], a value or an exception,
    the state before and the state after are related by [R]. *)

Module Frame.

Section Keeps.
Context {W : Type}.
Variable R : relation (state W).
Context `{!Reflexive R, !Transitive R}.

Definition keeps {A} (m : M W A) : Prop := ∀ s, R s (m s).2.

Lemma keeps_ret {A} (a : A) : keeps (mret a).
Proof. intros s. reflexivity. Qed.

Lemma keeps_raise {A} (e : exn) : keeps (raise e : M W A).
Proof. intros s. reflexivity. Qed.

Lemma keeps_gets {A} (f : state W → A) : keeps (gets f).
Proof. intros s. reflexivity. Qed.

Lemma keeps_expect {A} (e : exn) (o : option A) : keeps (expect e o).
Proof. destruct o; [apply keeps_ret|apply keeps_raise]. Qed.

Lemma keeps_update (f : state W → state W) :
  (∀ s, R s (f s)) → keeps (update f).
Proof. intros Hf s. apply Hf. Qed.

Lemma keeps_bind {A B} (m : M W A) (f : A → M W B) :
  keeps m → (∀ a, keeps (f a)) → keeps (m ≫= f).
Proof.
  intros Hm Hf s. unfold mbind, M_bind. specialize (Hm s).
  destruct (m s) as [[a|e] s']; cbn [snd] in *; [|exact Hm].
  etransitivity; [exact Hm|apply Hf].
Qed.

Lemma keeps_for_in {A S} (l : list A) (body : A → S → M W S) (acc : S) :
  (∀ x acc, keeps (body x acc)) → keeps (for_in l body acc).
Proof.
  intros Hbody. revert acc.
  induction l as [|x l IH]; intros acc; cbn [for_in];
    [apply keeps_ret|by apply keeps_bind].
Qed.

End Keeps.

Lemma keeps_weaken {W A} (R R' : relation (state W)) (m : M W A) :
  (∀ s s', R s s' → R' s s') → keeps R m → keeps R' m.
Proof. intros Hweaker Hm s. apply Hweaker, Hm. Qed.

End Frame.

Create HintDb keeps.

(** [update_step] proves the side condition of an assignment to the
    state. *)
Ltac keep_step update_step :=
  first
    [ solve [eauto with keeps]
    | apply Frame.keeps_ret; solve [typeclasses eauto]
    | apply Frame.keeps_raise; solve [typeclasses eauto]
    | apply Frame.keeps_gets; solve [typeclasses eauto]
    | apply Frame.keeps_expect; solve [typeclasses eauto]
    | apply Frame.keeps_update; intros; update_step
    | apply Frame.keeps_for_in; [solve [typeclasses eauto] .. | intros]
    | apply Frame.keeps_bind; [solve [typeclasses eauto] .. | | intros]
    | match goal with
      | |- Frame.keeps _ (match ?x with _ => _ end) => destruct x
      | |- Frame.keeps _ (if ?b then _ else _) => destruct b
      end
    | progress cbv beta zeta ].

(** ** What a run reads and what it writes *)

Module Footprint.
Import GroupSync Frame ProcessingGate.

Section Facts.
Context {W : Type} `{!Env W}.
Variable self_basic_config : basic_config.

Local Abbreviation config := (bc_config self_basic_config).

(** The directories, the file system and the requests sent so far are
    the same. *)
Definition untouched : relation (state W) :=
  λ s s', world s' = world s ∧ requests s' = requests s.

#[local] Instance untouched_refl : Reflexive untouched.
Proof. by intros s. Qed.

#[local] Instance untouched_trans : Transitive untouched.
Proof. intros s1 s2 s3 [? ?] [? ?]. split; congruence. Qed.

Ltac reads := repeat keep_step ltac:(by split).

Lemma reads_user_search server user_name user_base :
  keeps untouched (_user_search self_basic_config server user_name user_base).
Proof. unfold _user_search. reads. Qed.
#[local] Hint Resolve reads_user_search : keeps.

Lemma reads_determine_group_name group_name_object :
  keeps untouched (_determine_group_name (W := W) group_name_object).
Proof. unfold _determine_group_name. reads. Qed.
#[local] Hint Resolve reads_determine_group_name : keeps.

Lemma reads_determine_group_id server group group_name :
  keeps untouched (_determine_group_id (W := W) server group group_name).
Proof. unfold _determine_group_id. reads. Qed.
#[local] Hint Resolve reads_determine_group_id : keeps.

Lemma reads_check_ad_object_type ad_object object_type :
  keeps untouched (_check_ad_object_type self_basic_config ad_object object_type).
Proof. unfold _check_ad_object_type. reads. Qed.
#[local] Hint Resolve reads_check_ad_object_type : keeps.

Lemma reads_check_country_control data valid_sync_group :
  keeps untouched
    (_check_country_control (W := W) self_basic_config data valid_sync_group).
Proof. unfold _check_country_control. reads. Qed.
#[local] Hint Resolve reads_check_country_control : keeps.

Lemma reads_get_account_data ad_user :
  keeps untouched (_get_account_data self_basic_config ad_user).
Proof. unfold _get_account_data. reads. Qed.
#[local] Hint Resolve reads_get_account_data : keeps.

Lemma reads_lookup_ad_user ad_user :
  keeps untouched (_lookup_ad_user self_basic_config ad_user).
Proof. unfold _lookup_ad_user. reads. Qed.
#[local] Hint Resolve reads_lookup_ad_user : keeps.

Lemma reads_find_user_in_source_dict source_dict destination_member group :
  keeps untouched
    (_find_user_in_source_dict self_basic_config source_dict destination_member group).
Proof. unfold _find_user_in_source_dict. reads. Qed.
#[local] Hint Resolve reads_find_user_in_source_dict : keeps.

Lemma reads_generate_additions source_dict destination_dict group :
  keeps untouched
    (_generate_additions self_basic_config source_dict destination_dict group).
Proof. unfold _generate_additions. reads. Qed.
#[local] Hint Resolve reads_generate_additions : keeps.

Lemma reads_generate_deletions destination_dict source_dict group :
  keeps untouched
    (_generate_deletions self_basic_config destination_dict source_dict group).
Proof. unfold _generate_deletions. reads. Qed.
#[local] Hint Resolve reads_generate_deletions : keeps.

Lemma reads_check_override_required destination_list ops group_name :
  keeps untouched
    (_check_override_required (W := W) self_basic_config
       destination_list ops group_name).
Proof.
  unfold _check_override_required.
  generalize (_determine_change_percent destination_list ops). intros change.
  reads.
Qed.
#[local] Hint Resolve reads_check_override_required : keeps.

Lemma reads_generate_group_operations source_dict destination_dict groups :
  keeps untouched
    (_generate_group_operations self_basic_config source_dict destination_dict groups).
Proof. unfold _generate_group_operations. reads. Qed.
#[local] Hint Resolve reads_generate_group_operations : keeps.

Lemma reads_build_sync_group_list first_group_dict second_group_dict :
  keeps untouched
    (_build_sync_group_list (W := W) first_group_dict second_group_dict).
Proof. unfold _build_sync_group_list. reads. Qed.
#[local] Hint Resolve reads_build_sync_group_list : keeps.

Lemma reads_check_process_changes destination_group_dict group group_operations :
  keeps untouched
    (_check_process_changes (W := W) self_basic_config
       destination_group_dict group group_operations).
Proof. unfold _check_process_changes. reads. Qed.
#[local] Hint Resolve reads_check_process_changes : keeps.

Lemma reads_get_next_gid_uid_number for_user :
  keeps untouched (get_next_gid_uid_number self_basic_config for_user).
Proof. unfold get_next_gid_uid_number. reads. Qed.
#[local] Hint Resolve reads_get_next_gid_uid_number : keeps.

(** X4. Working out what to change never changes anything. Whatever
    the dictionaries and the list of groups are, and whether the call
    returns or raises, [_build_sync_group_list],
    [_generate_group_operations] (with the identity resolution, the
    country control and the override decision that it calls) and
    [_check_process_changes] send no request and leave the directories
    and the file system as they were. *)
Theorem planning_sends_nothing
    (source_dict destination_dict : Dict.odict group)
    (valid_sync_groups : list string) (group : string)
    (group_operations : Dict.odict operations) (s : state W) :
  (world (_build_sync_group_list source_dict destination_dict s).2 = world s
   ∧ requests (_build_sync_group_list source_dict destination_dict s).2
     = requests s)
  ∧ (world (_generate_group_operations self_basic_config
              source_dict destination_dict valid_sync_groups s).2 = world s
     ∧ requests (_generate_group_operations self_basic_config
                   source_dict destination_dict valid_sync_groups s).2
       = requests s)
  ∧ (world (_check_process_changes self_basic_config
              destination_dict group group_operations s).2 = world s
     ∧ requests (_check_process_changes self_basic_config
                   destination_dict group group_operations s).2
       = requests s).
Proof.
  split; [apply reads_build_sync_group_list|].
  split; [apply reads_generate_group_operations|].
  apply reads_check_process_changes.
Qed.

(** *** The requests of a run *)

(** From [s] to [s'] some requests were sent, each of them in [P]. *)
Definition sends (P : request → Prop) : relation (state W) :=
  λ s s', ∃ new, requests s' = requests s ++ new ∧ Forall P new.

#[local] Instance sends_refl P : Reflexive (sends P).
Proof. intros s. exists []. by rewrite app_nil_r. Qed.

#[local] Instance sends_trans P : Transitive (sends P).
Proof.
  intros s1 s2 s3 (new & Hnew & HP) (more & Hmore & HP').
  exists (new ++ more). split; [by rewrite Hmore, Hnew, app_assoc|].
  by apply Forall_app.
Qed.

Lemma sends_nothing P (s s' : state W) :
  requests s' = requests s → sends P s s'.
Proof. intros Hsame. exists []. by rewrite app_nil_r. Qed.

Lemma sends_one (P : request → Prop) (s s' : state W) (r : request) :
  requests s' = requests s ++ [r] → P r → sends P s s'.
Proof. intros Hone HP. exists [r]. split; [done|]. by repeat constructor. Qed.

Lemma sends_weaken (P Q : request → Prop) (s s' : state W) :
  (∀ r, P r → Q r) → sends P s s' → sends Q s s'.
Proof.
  intros HPQ (new & Hnew & HP). exists new. split; [done|].
  eapply Forall_impl; [exact HP|exact HPQ].
Qed.

Lemma reads_sends {A} (P : request → Prop) (m : M W A) :
  keeps untouched m → keeps (sends P) m.
Proof.
  apply keeps_weaken. intros s s' [_ Hsame]. by apply sends_nothing.
Qed.

Ltac sending allowed :=
  repeat first
    [ apply reads_sends; solve [eauto with keeps]
    | keep_step
        ltac:(first [ by apply sends_nothing
                    | eapply sends_one; [reflexivity|allowed] ]) ].

(** [_modify_group] sends at most one request: the change of the
    members, and only for a list that is not empty. *)
Lemma modify_group_sends server connection group_dn a user_list :
  keeps
    (sends (λ r,
       user_list ≠ []
       ∧ r = modify_request connection group_dn
               {| mod_attribute :=
                    objects_group_members
                      (schema_objects (config_schema config server));
                  mod_action := a;
                  mod_values := member_values user_list |}))
    (_modify_group self_basic_config server connection group_dn a user_list).
Proof. unfold _modify_group. sending ltac:(by split). Qed.

(** The distinguished name that [_process_operations] builds. *)
Definition openldap_group_dn (group : string) : string :=
  "cn=" +:+ group +:+ ","
    +:+ (groups (config_schema config openldap) +:+ ","
           +:+ base (config_schema config openldap)).

Definition member_change (a : action) (user_list : list string) : modification :=
  {| mod_attribute :=
       objects_group_members (schema_objects (config_schema config openldap));
     mod_action := a;
     mod_values := member_values user_list |}.

(** A change of the members of a secondary group that the operations
    dictionary records and that the gate lets through. *)
Definition recorded_change (group_operations : Dict.odict operations)
    (r : request) : Prop :=
  ∃ group ops,
    Dict.get group_operations group = Some ops
    ∧ (override_required ops = Some false
       ∨ (override_required ops = Some true
          ∧ overridden self_basic_config group = true))
    ∧ ((additions ops ≠ []
        ∧ r = modify_request openldap (openldap_group_dn group)
                (member_change MODIFY_ADD (additions ops)))
       ∨ (deletions ops ≠ []
          ∧ r = modify_request openldap (openldap_group_dn group)
                  (member_change MODIFY_DELETE (deletions ops)))).

Lemma check_process_changes_true
    destination_group_dict group group_operations (s : state W) :
  (_check_process_changes self_basic_config
     destination_group_dict group group_operations s).1 = value true →
  ∃ ops,
    Dict.get group_operations group = Some ops
    ∧ (override_required ops = Some false
       ∨ (override_required ops = Some true
          ∧ overridden self_basic_config group = true)).
Proof.
  unfold _check_process_changes, overridden. run_step.
  destruct (Dict.get group_operations group) as [ops|]; [|done].
  destruct (_ || _); [|done].
  destruct (override_required ops) as [[|]|] eqn:Hrequired; [| |done].
  - destruct (_ || _) eqn:Hoverride.
    + intros _. exists ops. split; [done|]. by right.
    + by destruct (Dict.get destination_group_dict group).
  - intros _. exists ops. split; [done|]. by left.
Qed.

Lemma process_group_sends destination_group_dict group_operations group :
  keeps (sends (recorded_change group_operations))
    (process_changes ←
       _check_process_changes self_basic_config
         destination_group_dict group group_operations;
     if process_changes : bool then
       ops ← expect KeyError (Dict.get group_operations group);
       _modify_group self_basic_config openldap openldap
         (openldap_group_dn group) MODIFY_ADD (additions ops);;
       _modify_group self_basic_config openldap openldap
         (openldap_group_dn group) MODIFY_DELETE (deletions ops)
     else mret tt).
Proof.
  intros s. unfold mbind at 1, M_bind at 1.
  pose proof (reads_check_process_changes
                destination_group_dict group group_operations s) as [_ Hsame].
  pose proof (check_process_changes_true
                destination_group_dict group group_operations s) as Hgate.
  destruct (_check_process_changes _ _ _ _ s) as [[[|]|e] s1];
    cbn [fst snd] in *; [|by apply sends_nothing..].
  destruct (Hgate eq_refl) as (ops & Hops & Hflag).
  transitivity s1; [by apply sends_nothing|].
  rewrite Hops. cbn [expect]. unfold mbind at 1, M_bind at 1, mret at 1, M_ret at 1.
  apply keeps_bind; [apply _| |intros _];
    (eapply keeps_weaken; [|apply modify_group_sends]);
    intros s2 s3; apply sends_weaken; intros r [Hlist ->];
    exists group, ops; (split; [done|]); (split; [done|]);
    [left|right]; done.
Qed.

(** X5. Every request that [_process_operations] sends, on every path,
    is a change of the members of a secondary group: for a group of the
    operations dictionary, with the recorded additions (as an add) or
    the recorded deletions (as a delete), never with an empty list, and
    only when no override is required for the group or the command line
    gives one. Nothing is sent to the primary directory and nothing is
    written to a file. *)
Theorem process_operations_sends_recorded_changes
    (destination_group_dict : Dict.odict group)
    (group_operations : Dict.odict operations) (s : state W) :
  ∃ new,
    requests (_process_operations self_basic_config
                destination_group_dict group_operations s).2
    = requests s ++ new
    ∧ Forall (recorded_change group_operations) new.
Proof.
  apply (keeps_for_in (sends (recorded_change group_operations))).
  intros group []. apply process_group_sends.
Qed.

(** *** The changes that are sent *)

(** The requests for one list of members. *)
Definition change_requests (group : string) (a : action) (user_list : list string)
    : list request :=
  match user_list with
  | [] => []
  | _ :: _ =>
      [modify_request openldap (openldap_group_dn group) (member_change a user_list)]
  end.

(** The requests for one group of the operations dictionary. *)
Definition group_requests (group_operations : Dict.odict operations)
    (group : string) : list request :=
  match Dict.get group_operations group with
  | Some ops =>
      if has_changes ops
         && (negb (default false (override_required ops))
             || overridden self_basic_config group)
      then change_requests group MODIFY_ADD (additions ops)
             ++ change_requests group MODIFY_DELETE (deletions ops)
      else []
  | None => []
  end.

Lemma modify_built_group_run (group : string) (a : action)
    (user_list : list string) (s : state W) :
  ∃ s',
    _modify_group self_basic_config openldap openldap
      (openldap_group_dn group) a user_list s
    = (value tt, s')
    ∧ requests s' = requests s ++ change_requests group a user_list.
Proof.
  destruct (MemberChanges.group_cn_of_built_dn group
              (groups (config_schema config openldap) +:+ ","
                 +:+ base (config_schema config openldap)))
    as (first & group_cn & Hfirst & Hcn).
  unfold _modify_group, openldap_group_dn. run_step. rewrite Hfirst, Hcn.
  destruct user_list as [|user users]; cbn [change_requests].
  - eexists. split; [reflexivity|]. cbn [requests]. by rewrite app_nil_r.
  - destruct (ldap_modify _ _ _ _) as [result w']. run_step.
    destruct (decide (result ≠ 0)); run_step; by eexists.
Qed.

Lemma process_group_run destination_group_dict group_operations (group : string)
    (s : state W) :
  (∃ ops required destination,
     Dict.get group_operations group = Some ops
     ∧ override_required ops = Some required
     ∧ Dict.get destination_group_dict group = Some destination) →
  ∃ s',
    (process_changes ←
       _check_process_changes self_basic_config
         destination_group_dict group group_operations;
     if process_changes : bool then
       ops ← expect KeyError (Dict.get group_operations group);
       _modify_group self_basic_config openldap openldap
         (openldap_group_dn group) MODIFY_ADD (additions ops);;
       _modify_group self_basic_config openldap openldap
         (openldap_group_dn group) MODIFY_DELETE (deletions ops)
     else mret tt) s
    = (value tt, s')
    ∧ requests s' = requests s ++ group_requests group_operations group.
Proof.
  intros (ops & required & destination & Hops & Hrequired & Hdestination).
  unfold mbind at 1, M_bind at 1.
  destruct (check_process_changes_run self_basic_config destination_group_dict
              group group_operations ops required destination s
              Hops Hrequired Hdestination)
    as (s1 & -> & _ & _ & Hrequests1 & _).
  unfold group_requests. rewrite Hops, Hrequired. cbn [default].
  destruct (has_changes ops && _).
  - cbn [expect]. unfold mbind at 1, M_bind at 1, mret at 1, M_ret at 1.
    unfold mbind at 1, M_bind at 1.
    destruct (modify_built_group_run group MODIFY_ADD (additions ops) s1)
      as (s2 & -> & Hrequests2).
    destruct (modify_built_group_run group MODIFY_DELETE (deletions ops) s2)
      as (s3 & -> & Hrequests3).
    exists s3. split; [reflexivity|].
    by rewrite Hrequests3, Hrequests2, Hrequests1, app_assoc.
  - exists s1. split; [reflexivity|]. by rewrite Hrequests1, app_nil_r.
Qed.

Lemma process_groups_run destination_group_dict group_operations
    (group_names : list string) (s : state W) :
  (∀ group, group ∈ group_names →
     ∃ ops required destination,
       Dict.get group_operations group = Some ops
       ∧ override_required ops = Some required
       ∧ Dict.get destination_group_dict group = Some destination) →
  ∃ s',
    for_in group_names
      (λ group _,
        let group_base :=
          groups (config_schema config openldap) +:+ ","
            +:+ base (config_schema config openldap) in
        let group_dn := "cn=" +:+ group +:+ "," +:+ group_base in
        process_changes ←
          _check_process_changes self_basic_config
            destination_group_dict group group_operations;
        if process_changes : bool then
          ops ← expect KeyError (Dict.get group_operations group);
          _modify_group self_basic_config openldap openldap group_dn
            MODIFY_ADD (additions ops);;
          _modify_group self_basic_config openldap openldap group_dn
            MODIFY_DELETE (deletions ops)
        else mret tt)
      tt s
    = (value tt, s')
    ∧ requests s'
      = requests s ++ concat (map (group_requests group_operations) group_names).
Proof.
  revert s. induction group_names as [|group group_names IH]; intros s Hrecorded.
  - exists s. split; [reflexivity|]. cbn. by rewrite app_nil_r.
  - rewrite for_in_cons.
    destruct (process_group_run destination_group_dict group_operations group s)
      as (s1 & Hrun & Hrequests1); [apply Hrecorded; by left|].
    match goal with
    | |- context [match ?body with _ => _ end] =>
        replace body with (@value unit tt, s1) by (symmetry; exact Hrun)
    end.
    destruct (IH s1) as (s' & -> & Hrequests); [intros; apply Hrecorded; by right|].
    exists s'. split; [reflexivity|].
    cbn [map concat]. by rewrite Hrequests, Hrequests1, app_assoc.
Qed.

(** X6. [_process_operations] sends exactly the changes that the gate
    lets through. When every group of the operations dictionary has its
    override flag and is in the destination dictionary, the call
    returns, whatever the directory answers, and the requests that it
    sent are, group by group in the order of the dictionary: for a
    group with changes that needs no override or is overridden, the
    recorded additions as one add and then the recorded deletions as
    one delete, an empty list sending nothing; for any other group,
    nothing. *)
Theorem process_operations_sends_the_allowed_changes
    (destination_group_dict : Dict.odict group)
    (group_operations : Dict.odict operations) (s : state W) :
  (∀ group, group ∈ Dict.keys group_operations →
     ∃ ops required destination,
       Dict.get group_operations group = Some ops
       ∧ override_required ops = Some required
       ∧ Dict.get destination_group_dict group = Some destination) →
  ∃ s',
    _process_operations self_basic_config
      destination_group_dict group_operations s
    = (value tt, s')
    ∧ requests s'
      = requests s
        ++ concat (map (group_requests group_operations)
                     (Dict.keys group_operations)).
Proof. apply process_groups_run. Qed.

(** The four kinds of request of a group run. *)
Inductive group_run_request : request → Prop :=
| gid_write_back (group_dn : string) (gid : Z) :
    group_run_request
      (modify_request ad group_dn
         {| mod_attribute :=
              objects_group_gid_number (schema_objects (config_schema config ad));
            mod_action := MODIFY_REPLACE;
            mod_values := number_values [gid] |})
| group_creation (group : string) (gid : Z) (attrs : attributes) :
    attr_name attrs = Some (name_str group) →
    attr_gid_number attrs = Some gid →
    attr_members attrs
    = attr_members (mask_attributes (new_group_mask (config_schema config openldap))) →
    group_run_request
      (add_request openldap
         (objects_group_name (schema_objects (config_schema config openldap))
            +:+ "=" +:+ group +:+ "," +:+ groups (config_schema config openldap)
            +:+ "," +:+ base (config_schema config openldap))
         (mask_objectClass (new_group_mask (config_schema config openldap)))
         attrs)
| members_change (group : string) (a : action) (user_list : list string) :
    a ≠ MODIFY_REPLACE →
    user_list ≠ [] →
    group_run_request
      (modify_request openldap (openldap_group_dn group) (member_change a user_list))
| status_report (status : bool) :
    group_run_request
      (write_request
         ("group_sync" +:+ "_" +:+ monitoring_log_file (config_settings config))
         (if status then "True" else "False")).

Ltac run_request :=
  first
    [ apply gid_write_back
    | eapply group_creation; reflexivity
    | apply status_report ].

Lemma write_monitoring_log_sends status :
  keeps (sends group_run_request)
    (write_monitoring_log self_basic_config status "group_sync").
Proof. unfold write_monitoring_log. sending run_request. Qed.
#[local] Hint Resolve write_monitoring_log_sends : keeps.

Lemma group_search_sends connection base_string filter_string attrs :
  keeps (sends group_run_request)
    (_group_search self_basic_config connection base_string filter_string attrs).
Proof. unfold _group_search. sending run_request. Qed.
#[local] Hint Resolve group_search_sends : keeps.

Lemma flatten_nested_group_sends depth called_groups group_members :
  keeps (sends group_run_request)
    (_flatten_nested_group self_basic_config depth called_groups group_members).
Proof.
  revert called_groups group_members.
  induction depth as [|depth IH]; intros called_groups group_members;
    cbn [_flatten_nested_group]; [apply keeps_raise; apply _|].
  unfold flatten_body. sending run_request.
Qed.
#[local] Hint Resolve flatten_nested_group_sends : keeps.

Lemma create_group_dictionary_sends recursion_limit server search_results :
  keeps (sends group_run_request)
    (_create_group_dictionary self_basic_config
       recursion_limit server search_results).
Proof. unfold _create_group_dictionary. sending run_request. Qed.
#[local] Hint Resolve create_group_dictionary_sends : keeps.

Lemma new_ldap_group_sends group openldap_dict ad_dict :
  keeps (sends group_run_request)
    (_new_ldap_group self_basic_config openldap group openldap_dict ad_dict).
Proof. unfold _new_ldap_group. sending run_request. Qed.
#[local] Hint Resolve new_ldap_group_sends : keeps.

Lemma add_missing_openldap_groups_sends openldap_dict ad_dict :
  keeps (sends group_run_request)
    (_add_missing_openldap_groups self_basic_config openldap_dict ad_dict).
Proof. unfold _add_missing_openldap_groups. sending run_request. Qed.
#[local] Hint Resolve add_missing_openldap_groups_sends : keeps.

Lemma recorded_change_is_run_request group_operations (r : request) :
  recorded_change group_operations r → group_run_request r.
Proof.
  intros (group & ops & _ & _ & [[Hlist ->]|[Hlist ->]]);
    by apply members_change.
Qed.

Lemma process_operations_sends destination_group_dict group_operations :
  keeps (sends group_run_request)
    (_process_operations self_basic_config
       destination_group_dict group_operations).
Proof.
  apply (keeps_weaken (sends (recorded_change group_operations))).
  - intros s s'. apply sends_weaken, recorded_change_is_run_request.
  - apply keeps_for_in; [apply _..|].
    intros group []. apply process_group_sends.
Qed.
#[local] Hint Resolve process_operations_sends : keeps.

(** X7. Everything that a group run sends, whether it returns, raises
    or exits, is one of four things: the write-back of a new group id
    to a group of the primary directory (a replace of the id attribute
    alone), the creation of a group in the secondary directory from the
    configured mask, the addition or removal of a list of members, not
    empty, to or from a group of the secondary directory, or the
    monitoring file of the group runner with the text [True] or
    [False]. So a run never changes members or creates entries in the
    primary directory, never deletes an entry and never replaces the
    member list of a group. *)
Theorem group_run_sends_four_kinds_of_request
    (recursion_limit : nat) (s : state W) :
  ∃ new,
    requests (_main self_basic_config recursion_limit s).2 = requests s ++ new
    ∧ Forall group_run_request new.
Proof.
  revert s. change (keeps (sends group_run_request)
                      (_main self_basic_config recursion_limit)).
  unfold _main. sending run_request.
Qed.

(** *** Only missing groups are created *)






End Facts.

(** The group [staff] gains [johnd] and loses [alice]; no override is
    required. The directory refuses both changes, and both are sent. *)
Lemma process_operations_sends_the_allowed_changes_witness :
  ∃ s',
    _process_operations (Sample.sample_basic_config None None)
      Sample.staff_in_openldap
      [ ("staff", {| additions := ["johnd"]; deletions := ["alice"];
                     override_required := Some false |}) ]
      (initial_state Sample.office)
    = (value tt, s')
    ∧ requests s'
      = [ modify_request openldap "cn=staff,ou=Group,dc=example,dc=com"
            {| mod_attribute := "memberUid"; mod_action := MODIFY_ADD;
               mod_values := member_values ["johnd"] |};
          modify_request openldap "cn=staff,ou=Group,dc=example,dc=com"
            {| mod_attribute := "memberUid"; mod_action := MODIFY_DELETE;
               mod_values := member_values ["alice"] |} ].
Proof.
  destruct (process_operations_sends_the_allowed_changes
              (Sample.sample_basic_config None None)
              Sample.staff_in_openldap
              [ ("staff", {| additions := ["johnd"]; deletions := ["alice"];
                             override_required := Some false |}) ]
              (initial_state Sample.office))
    as (s' & Hrun & Hrequests).
  { intros group ->%list_elem_of_singleton. by eexists _, _, _. }
  exists s'. split; [exact Hrun|]. rewrite Hrequests. reflexivity.
Defined.

End Footprint.

(** ** The reconciliation as a function of the directories *)

Module Reconciliation.
Import GroupSync Identity Candidates.

Section Facts.
Context {W : Type} `{!Env W}.
Variable self_basic_config : basic_config.

Local Abbreviation exceptions := (default ∅ (bc_exceptions self_basic_config)).

(** What [_lookup_ad_user] answers for a user on an empty cache. *)
Definition fresh_answer (w : W) (ad_user : string) : account_data :=
  match (_lookup_ad_user self_basic_config ad_user (initial_state w)).1 with
  | value data => data
  | raised _ => unknown_user
  end.

(** Every answer in the cache is the one that the directories give
    now. *)
Definition cache_sound (s : state W) : Prop :=
  ∀ ad_user data,
    user_lookup_cache s !! ad_user = Some data →
    data = fresh_answer (world s) ad_user.

Lemma initial_cache_sound (w : W) : cache_sound (initial_state w).
Proof.
  intros ad_user data Hhit. cbn [initial_state user_lookup_cache] in Hhit.
  by rewrite lookup_empty in Hhit.
Qed.

Lemma get_account_data_by_world (ad_user : string) (s1 s2 : state W) :
  world s1 = world s2 →
  (_get_account_data self_basic_config ad_user s1).1
  = (_get_account_data self_basic_config ad_user s2).1.
Proof.
  intros Hworld. unfold _get_account_data, _user_search. run_step.
  rewrite Hworld.
  destruct (_ !! 0%nat) as [first|]; [|reflexivity].
  destruct (attr_userAccountControl (entry_attributes first)); [|reflexivity].
  by destruct (attr_sAMAccountName (entry_attributes first)).
Qed.

Lemma get_account_data_frame (ad_user : string) (s : state W) :
  world (_get_account_data self_basic_config ad_user s).2 = world s
  ∧ requests (_get_account_data self_basic_config ad_user s).2 = requests s
  ∧ user_lookup_cache (_get_account_data self_basic_config ad_user s).2
    = user_lookup_cache s.
Proof.
  destruct (get_account_data_run self_basic_config ad_user s)
    as [data [[-> _]|[-> _]]]; done.
Qed.

Lemma resolution_by_world (ad_user : string) (data : account_data)
    (s1 s2 : state W) :
  world s1 = world s2 →
  (resolution self_basic_config ad_user data s1).1
  = (resolution self_basic_config ad_user data s2).1.
Proof.
  intros Hworld. unfold resolution. rewrite Hworld.
  destruct (exceptions !! sAMAccountName data) as [target|];
    by destruct (secondary_matches _ _ _) as [|? [|? ?]].
Qed.

(** A resolution caches its answer, or it answers with the sentinel and
    leaves the cache alone. *)
Lemma resolution_frame (ad_user : string) (data : account_data) (s1 : state W) :
  world (resolution self_basic_config ad_user data s1).2 = world s1
  ∧ requests (resolution self_basic_config ad_user data s1).2 = requests s1
  ∧ (user_lookup_cache (resolution self_basic_config ad_user data s1).2
     = <[ad_user := (resolution self_basic_config ad_user data s1).1]>
         (user_lookup_cache s1)
     ∨ ((resolution self_basic_config ad_user data s1).1 = unknown_user
        ∧ user_lookup_cache (resolution self_basic_config ad_user data s1).2
          = user_lookup_cache s1)).
Proof.
  unfold resolution.
  destruct (exceptions !! sAMAccountName data) as [target|];
    destruct (secondary_matches _ _ _) as [|? [|? ?]];
    try case_decide; cbn [fst snd failed cached world requests user_lookup_cache];
    (split; [reflexivity|]); (split; [reflexivity|]);
    first [by left | by right].
Qed.

Lemma lookup_miss_by_world (ad_user : string) (s1 s2 : state W) :
  world s1 = world s2 →
  user_lookup_cache s1 !! ad_user = None →
  user_lookup_cache s2 !! ad_user = None →
  (_lookup_ad_user self_basic_config ad_user s1).1
  = (_lookup_ad_user self_basic_config ad_user s2).1.
Proof.
  intros Hworld Hmiss1 Hmiss2.
  pose proof (lookup_ad_user_run self_basic_config ad_user s1) as Hrun1.
  pose proof (lookup_ad_user_run self_basic_config ad_user s2) as Hrun2.
  rewrite Hmiss1 in Hrun1. rewrite Hmiss2 in Hrun2.
  destruct Hrun1 as (data1 & t1 & Hdata1 & ->).
  destruct Hrun2 as (data2 & t2 & Hdata2 & ->).
  pose proof (get_account_data_by_world ad_user s1 s2 Hworld) as Hsame.
  pose proof (get_account_data_frame ad_user s1) as (Hw1 & _).
  pose proof (get_account_data_frame ad_user s2) as (Hw2 & _).
  rewrite Hdata1, Hdata2 in Hsame. rewrite Hdata1 in Hw1. rewrite Hdata2 in Hw2.
  cbn [fst snd] in *. injection Hsame as <-.
  f_equal. apply resolution_by_world. congruence.
Qed.

(** What a call of [_lookup_ad_user] does to a sound cache. *)
Lemma lookup_ad_user_sound (ad_user : string) (s : state W) :
  cache_sound s →
  ∃ s',
    _lookup_ad_user self_basic_config ad_user s
    = (value (fresh_answer (world s) ad_user), s')
    ∧ world s' = world s
    ∧ requests s' = requests s
    ∧ cache_sound s'
    ∧ (user_lookup_cache s' !! ad_user = Some (fresh_answer (world s) ad_user)
       ∨ (fresh_answer (world s) ad_user = unknown_user
          ∧ user_lookup_cache s' = user_lookup_cache s)).
Proof.
  intros Hsound.
  pose proof (lookup_ad_user_run self_basic_config ad_user s) as Hrun.
  destruct (user_lookup_cache s !! ad_user) as [hit|] eqn:Hhit.
  { exists s. rewrite Hrun, <- (Hsound _ _ Hhit). by eauto 10. }
  destruct Hrun as (data & s1 & Hdata & Hrun).
  pose proof (lookup_miss_by_world ad_user s (initial_state (world s))
                eq_refl Hhit (lookup_empty _)) as Hfresh.
  rewrite Hrun in Hfresh. cbn [fst] in Hfresh.
  assert (fresh_answer (world s) ad_user
          = (resolution self_basic_config ad_user data s1).1) as Hanswer
    by (unfold fresh_answer; by rewrite <- Hfresh).
  pose proof (get_account_data_frame ad_user s) as (Hworld1 & Hrequests1 & Hcache1).
  rewrite Hdata in Hworld1, Hrequests1, Hcache1. cbn [snd] in *.
  destruct (resolution_frame ad_user data s1) as (Hworld & Hrequests & Hcache).
  eexists. split; [by rewrite Hrun, Hanswer|].
  split; [congruence|]. split; [congruence|].
  rewrite Hanswer. split.
  - intros other cached. rewrite Hworld, Hworld1.
    destruct Hcache as [->|[_ ->]]; rewrite Hcache1; [|apply Hsound].
    destruct (decide (other = ad_user)) as [->|Hother].
    + rewrite lookup_insert_eq. intros [= <-]. by rewrite <- Hanswer.
    + rewrite lookup_insert_ne by done. apply Hsound.
  - destruct Hcache as [->|[Hunknown ->]].
    + left. apply lookup_insert_eq.
    + right. split; [exact Hunknown|exact Hcache1].
Qed.

(** X9. The cache of [_lookup_ad_user] is transparent. When every
    cached answer is the one that the directories give now (as at the
    start of a run, when the cache is empty), the call returns for
    every user what it returns on an empty cache, and the cache stays
    of that kind. The call never raises, sends no request and leaves
    the directories alone. The answer is remembered, so that the next
    call for the user returns it without a search or a log line; only
    the sentinel of a failed resolution is not remembered, and the next
    call resolves (and fails) again. *)
Theorem lookup_cache_is_transparent (ad_user : string) (s : state W) :
  cache_sound s →
  ∃ s',
    _lookup_ad_user self_basic_config ad_user s
    = (value (fresh_answer (world s) ad_user), s')
    ∧ world s' = world s
    ∧ requests s' = requests s
    ∧ cache_sound s'
    ∧ ((user_lookup_cache s' !! ad_user = Some (fresh_answer (world s) ad_user)
        ∧ _lookup_ad_user self_basic_config ad_user s'
          = (value (fresh_answer (world s) ad_user), s'))
       ∨ (fresh_answer (world s) ad_user = unknown_user
          ∧ user_lookup_cache s' = user_lookup_cache s
          ∧ (_lookup_ad_user self_basic_config ad_user s').1
            = value unknown_user)).
Proof.
  intros Hsound.
  destruct (lookup_ad_user_sound ad_user s Hsound)
    as (s' & Hrun & Hworld & Hrequests & Hsound' & Hcache).
  exists s'. do 4 (split; [done|]).
  destruct Hcache as [Hcached|[Hunknown Hsame]]; [left|right].
  - split; [exact Hcached|].
    pose proof (lookup_ad_user_run self_basic_config ad_user s') as Hagain.
    by rewrite Hcached in Hagain.
  - split; [exact Hunknown|]. split; [exact Hsame|].
    destruct (lookup_ad_user_sound ad_user s' Hsound') as (s'' & -> & _).
    cbn [fst]. by rewrite Hworld, Hunknown.
Qed.

(** *** Additions *)

(** The country check as a function. *)
Definition allowed_by_country (data : account_data) (valid_sync_group : string)
    : bool :=
  match CountryControl.allowed_countries self_basic_config valid_sync_group with
  | Some countries =>
      bool_decide (country_code data = Some EmptyString)
      || match country_code data with
         | Some code => bool_decide (code ∈ countries)
         | None => false
         end
  | None => true
  end.

Lemma check_country_control_run (data : account_data) (group : string)
    (s : state W) :
  ∃ s',
    _check_country_control self_basic_config data group s
    = (value (allowed_by_country data group), s')
    ∧ world s' = world s
    ∧ requests s' = requests s
    ∧ user_lookup_cache s' = user_lookup_cache s.
Proof.
  unfold _check_country_control, allowed_by_country,
    CountryControl.allowed_countries.
  destruct (bc_country_control self_basic_config) as [country_control|];
    cbn [mbind option_bind]; [|by exists s].
  case_decide as Hempty.
  - destruct (country_control !! group) as [countries|]; [|by exists s].
    case_decide as Hcode.
    + rewrite (bool_decide_eq_true_2 _ Hcode). by exists s.
    + rewrite (bool_decide_eq_false_2 _ Hcode). cbn [orb].
      destruct (match country_code data with
                | Some code => bool_decide (code ∈ countries)
                | None => false
                end); [by exists s|].
      run_step. by eexists.
  - assert (country_control = ∅) as ->
      by (by destruct (decide (country_control = ∅))).
    rewrite lookup_empty. by exists s.
Qed.

(** The login id that a source member adds to the destination group,
    if any: the member resolves to an active account with a login id
    that is not empty and not yet a member, from an allowed country. *)
Definition addition_of (w : W) (destination : group) (valid_sync_group : string)
    (source_member : string) : option string :=
  let data := fresh_answer w source_member in
  if bool_decide (sAMAccountName data ∉ names destination)
     && bool_decide (sAMAccountName data ≠ "")
     && account_active data
     && allowed_by_country data valid_sync_group
  then Some (sAMAccountName data)
  else None.

Lemma sound_same_cache (s s' : state W) :
  world s' = world s →
  user_lookup_cache s' = user_lookup_cache s →
  cache_sound s → cache_sound s'.
Proof. intros Hworld Hcache Hsound ad_user data. rewrite Hworld, Hcache. apply Hsound. Qed.

Lemma additions_body_run destination_dict group destination member
    (additions : list string) (s : state W) :
  cache_sound s →
  Dict.get destination_dict group = Some destination →
  ∃ s',
    additions_body self_basic_config destination_dict group member additions s
    = (value (additions
                ++ option_list (addition_of (world s) destination group member)),
       s')
    ∧ world s' = world s
    ∧ requests s' = requests s
    ∧ cache_sound s'.
Proof.
  intros Hsound Hdestination. unfold additions_body, addition_of. cbv zeta.
  unfold mbind at 1, M_bind at 1.
  destruct (lookup_ad_user_sound member s Hsound)
    as (s1 & -> & Hworld1 & Hrequests1 & Hsound1 & _).
  rewrite Hdestination. cbn [expect].
  unfold mbind at 1, M_bind at 1, mret at 1, M_ret at 1.
  destruct (_ && _ && _); cbn [andb].
  - unfold mbind at 1, M_bind at 1.
    destruct (check_country_control_run (fresh_answer (world s) member) group s1)
      as (s2 & -> & Hworld2 & Hrequests2 & Hcache2).
    exists s2. split.
    + by destruct (allowed_by_country _ _); cbn; rewrite ?app_nil_r.
    + split; [congruence|]. split; [congruence|].
      by apply (sound_same_cache s1).
  - exists s1. cbn. by rewrite app_nil_r.
Qed.

Lemma additions_loop_run destination_dict group destination
    (members additions : list string) (s : state W) :
  cache_sound s →
  Dict.get destination_dict group = Some destination →
  ∃ s',
    for_in members (additions_body self_basic_config destination_dict group)
      additions s
    = (value (additions ++ omap (addition_of (world s) destination group) members),
       s')
    ∧ world s' = world s
    ∧ requests s' = requests s
    ∧ cache_sound s'.
Proof.
  intros Hsound Hdestination. revert additions s Hsound.
  induction members as [|member members IH]; intros additions s Hsound.
  - exists s. cbn. by rewrite app_nil_r.
  - rewrite for_in_cons.
    destruct (additions_body_run destination_dict group destination member
                additions s Hsound Hdestination)
      as (s1 & -> & Hworld1 & Hrequests1 & Hsound1).
    destruct (IH (additions
                    ++ option_list (addition_of (world s) destination group member))
                s1 Hsound1)
      as (s' & -> & Hworld & Hrequests & Hsound').
    exists s'. rewrite Hworld1. split; [|by rewrite Hworld, Hrequests].
    cbn [omap list_omap]. rewrite <- app_assoc.
    by destruct (addition_of (world s) destination group member).
Qed.

(** X10. From a sound cache, [_generate_additions] returns, for the
    members of the source group in order, the login id of each one that
    resolves to an active account whose login id is not empty, is not
    already a member of the destination group and passes the country
    check; every other member adds nothing. Nothing is sent and the
    directories are as before. *)
Theorem additions_are_the_new_active_logins
    (source_dict destination_dict : Dict.odict group) (group : string)
    (source destination : GroupSync.group) (s : state W) :
  cache_sound s →
  Dict.get source_dict group = Some source →
  Dict.get destination_dict group = Some destination →
  ∃ s',
    _generate_additions self_basic_config source_dict destination_dict group s
    = (value (omap (addition_of (world s) destination group) (names source)), s')
    ∧ world s' = world s
    ∧ requests s' = requests s
    ∧ cache_sound s'.
Proof.
  intros Hsound Hsource Hdestination.
  rewrite generate_additions_unfold, Hsource.
  apply (additions_loop_run destination_dict group destination
           (names source) [] s Hsound Hdestination).
Qed.

(** *** Deletions *)

(** The source member resolves to an active account with this login
    id. *)
Definition claims (w : W) (destination_member source_member : string) : Prop :=
  destination_member = sAMAccountName (fresh_answer w source_member)
  ∧ account_active (fresh_answer w source_member) = true.

#[local] Instance claims_dec w destination_member source_member :
  Decision (claims w destination_member source_member).
Proof. unfold claims. apply _. Defined.

Lemma found_loop_run destination_member (members : list string) (found : bool)
    (s : state W) :
  cache_sound s →
  ∃ s',
    for_in members (found_body self_basic_config destination_member) found s
    = (value (found
              || bool_decide (Exists (claims (world s) destination_member) members)),
       s')
    ∧ world s' = world s
    ∧ requests s' = requests s
    ∧ cache_sound s'.
Proof.
  revert found s.
  induction members as [|member members IH]; intros found s Hsound.
  - exists s. split; [|done]. cbn [for_in].
    rewrite bool_decide_eq_false_2 by (by intros ?%Exists_nil).
    by rewrite orb_false_r.
  - rewrite for_in_cons. unfold found_body at 1.
    unfold mbind at 1, M_bind at 1.
    destruct (lookup_ad_user_sound member s Hsound)
      as (s1 & -> & Hworld1 & Hrequests1 & Hsound1 & _).
    destruct (bool_decide (destination_member = _) && _) eqn:Hclaims;
      unfold mret at 1, M_ret at 1.
    + destruct (IH true s1 Hsound1) as (s' & -> & Hworld & Hrequests & Hsound').
      exists s'. split; [|by rewrite Hworld, Hrequests]. cbn [orb].
      rewrite bool_decide_eq_true_2; [by rewrite orb_true_r|].
      apply Exists_cons_hd. apply andb_true_iff in Hclaims as [Hname Hactive].
      apply bool_decide_eq_true in Hname. by split.
    + destruct (IH found s1 Hsound1) as (s' & -> & Hworld & Hrequests & Hsound').
      exists s'. split; [|by rewrite Hworld, Hrequests].
      rewrite Hworld1. do 3 f_equal. apply bool_decide_ext.
      rewrite Exists_cons. split; [by right|]. intros [[Hname Hactive]|?]; [|done].
      rewrite (bool_decide_eq_true_2 _ Hname), Hactive in Hclaims. done.
Qed.

Lemma deletions_loop_run source_dict group source
    (members deletions : list string) (s : state W) :
  cache_sound s →
  Dict.get source_dict group = Some source →
  ∃ s',
    for_in members (deletions_body self_basic_config source_dict group)
      deletions s
    = (value (deletions
                ++ filter (λ destination_member,
                     ¬ Exists (claims (world s) destination_member) (names source))
                     members),
       s')
    ∧ world s' = world s
    ∧ requests s' = requests s
    ∧ cache_sound s'.
Proof.
  intros Hsound Hsource. revert deletions s Hsound.
  induction members as [|member members IH]; intros deletions s Hsound.
  - exists s. cbn. by rewrite app_nil_r.
  - rewrite for_in_cons. unfold deletions_body at 1.
    unfold mbind at 1, M_bind at 1.
    rewrite find_user_unfold, Hsource.
    destruct (found_loop_run member (names source) false s Hsound)
      as (s1 & -> & Hworld1 & Hrequests1 & Hsound1).
    cbn [orb]. unfold mret at 1 2, M_ret at 1 2.
    destruct (decide (Exists (claims (world s) member) (names source)))
      as [Hclaimed|Hfree].
    + rewrite (bool_decide_eq_true_2 _ Hclaimed).
      destruct (IH deletions s1 Hsound1) as (s' & -> & Hworld & Hrequests & Hsound').
      exists s'. split; [|by rewrite Hworld, Hrequests].
      rewrite Hworld1. by rewrite filter_cons_False by (by intros Hno; apply Hno).
    + rewrite (bool_decide_eq_false_2 _ Hfree).
      destruct (IH (deletions ++ [member]) s1 Hsound1)
        as (s' & -> & Hworld & Hrequests & Hsound').
      exists s'. split; [|by rewrite Hworld, Hrequests].
      rewrite Hworld1, filter_cons_True by done.
      by rewrite <- app_assoc.
Qed.

(** X11. From a sound cache, [_generate_deletions] returns the members
    of the destination group, in order, to which no member of the
    source group resolves with an active account. So only current
    members are removed, and a member stays exactly when an active
    account of the source group has this login id. Nothing is sent and
    the directories are as before. *)
Theorem deletions_are_the_unclaimed_members
    (destination_dict source_dict : Dict.odict group) (group : string)
    (source destination : GroupSync.group) (s : state W) :
  cache_sound s →
  Dict.get source_dict group = Some source →
  Dict.get destination_dict group = Some destination →
  ∃ s',
    _generate_deletions self_basic_config destination_dict source_dict group s
    = (value (filter (λ destination_member,
                ¬ Exists (claims (world s) destination_member) (names source))
                (names destination)),
       s')
    ∧ world s' = world s
    ∧ requests s' = requests s
    ∧ cache_sound s'.
Proof.
  intros Hsound Hsource Hdestination.
  rewrite generate_deletions_unfold, Hdestination.
  apply (deletions_loop_run source_dict group source
           (names destination) [] s Hsound Hsource).
Qed.

(** *** The operations dictionary *)

(** What is planned for a group: the additions, the deletions and the
    override decision on the two. *)
Definition planned (w : W) (source destination : group) (valid_sync_group : string)
    : operations :=
  let additions :=
    omap (addition_of w destination valid_sync_group) (names source) in
  let deletions :=
    filter (λ destination_member,
      ¬ Exists (claims w destination_member) (names source))
      (names destination) in
  {| additions := additions;
     deletions := deletions;
     override_required :=
       Some (OverrideDecision.requires_override self_basic_config
               (_determine_change_percent (names destination)
                  {| additions := additions; deletions := deletions;
                     override_required := None |})) |}.

Lemma operations_body_run source_dict destination_dict
    (group : string) (source destination : GroupSync.group)
    (destination_operations : Dict.odict operations) (s : state W) :
  cache_sound s →
  Dict.get source_dict group = Some source →
  Dict.get destination_dict group = Some destination →
  ∃ s',
    (additions ←
       _generate_additions self_basic_config source_dict destination_dict group;
     deletions ←
       _generate_deletions self_basic_config destination_dict source_dict group;
     let ops := {| additions := additions; deletions := deletions;
                   override_required := None |} in
     destination ← expect KeyError (Dict.get destination_dict group);
     required ←
       _check_override_required self_basic_config (names destination) ops group;
     mret (Dict.set destination_operations group
             {| additions := additions; deletions := deletions;
                override_required := Some required |})) s
    = (value (Dict.set destination_operations group
                (planned (world s) source destination group)), s')
    ∧ world s' = world s
    ∧ requests s' = requests s
    ∧ cache_sound s'.
Proof.
  intros Hsound Hsource Hdestination.
  unfold mbind at 1, M_bind at 1.
  rewrite generate_additions_unfold, Hsource.
  destruct (additions_loop_run destination_dict group destination
              (names source) [] s Hsound Hdestination)
    as (s1 & -> & Hworld1 & Hrequests1 & Hsound1).
  unfold mbind at 1, M_bind at 1.
  rewrite generate_deletions_unfold, Hdestination.
  destruct (deletions_loop_run source_dict group source
              (names destination) [] s1 Hsound1 Hsource)
    as (s2 & -> & Hworld2 & Hrequests2 & Hsound2).
  cbv zeta. cbn [expect app]. rewrite Hworld1.
  unfold mbind at 1, M_bind at 1, mret at 1, M_ret at 1.
  unfold mbind at 1, M_bind at 1.
  match goal with
  | |- context [_check_override_required _ ?l ?ops ?g s2] =>
      destruct (OverrideDecision.check_override_required_run
                  self_basic_config l ops g s2)
        as (s3 & -> & _ & Hworld3 & Hrequests3 & Hcache3 & _)
  end.
  exists s3. split; [reflexivity|].
  split; [congruence|]. split; [congruence|].
    by apply (sound_same_cache s2).
Qed.

Lemma operations_loop_run source_dict destination_dict
    (valid_sync_groups : list string)
    (destination_operations : Dict.odict operations) (s : state W) :
  cache_sound s →
  (∀ group, group ∈ valid_sync_groups →
            is_Some (Dict.get source_dict group)
            ∧ is_Some (Dict.get destination_dict group)) →
  ∃ group_operations s',
    for_in valid_sync_groups
      (λ valid_sync_group destination_operations,
        additions ←
          _generate_additions self_basic_config
            source_dict destination_dict valid_sync_group;
        deletions ←
          _generate_deletions self_basic_config
            destination_dict source_dict valid_sync_group;
        let ops := {| additions := additions; deletions := deletions;
                      override_required := None |} in
        destination ← expect KeyError (Dict.get destination_dict valid_sync_group);
        required ←
          _check_override_required self_basic_config
            (names destination) ops valid_sync_group;
        mret (Dict.set destination_operations valid_sync_group
                {| additions := additions; deletions := deletions;
                   override_required := Some required |}))
      destination_operations s
    = (value group_operations, s')
    ∧ world s' = world s
    ∧ requests s' = requests s
    ∧ cache_sound s'
    ∧ (∀ group source destination,
         group ∈ valid_sync_groups →
         Dict.get source_dict group = Some source →
         Dict.get destination_dict group = Some destination →
         Dict.get group_operations group
         = Some (planned (world s) source destination group))
    ∧ (∀ group, group ∉ valid_sync_groups →
         Dict.get group_operations group = Dict.get destination_operations group).
Proof.
  revert destination_operations s.
  induction valid_sync_groups as [|group groups IH];
    intros destination_operations s Hsound Hpresent.
  - exists destination_operations, s. do 4 (split; [done|]).
    split; [|done]. by intros group source destination ?%elem_of_nil.
  - destruct (Hpresent group) as [[source Hsource] [destination Hdestination]];
      [by left|].
    rewrite for_in_cons.
    destruct (operations_body_run source_dict destination_dict group
                source destination destination_operations s
                Hsound Hsource Hdestination)
      as (s1 & -> & Hworld1 & Hrequests1 & Hsound1).
    destruct (IH (Dict.set destination_operations group
                    (planned (world s) source destination group)) s1 Hsound1)
      as (group_operations & s' & -> & Hworld & Hrequests & Hsound'
          & Hplanned & Hother).
    { intros g Hg. apply Hpresent. by right. }
    exists group_operations, s'. split; [done|].
    split; [congruence|]. split; [congruence|]. split; [done|]. split.
    + intros g source' destination' Hg Hsource' Hdestination'.
      destruct (decide (g ∈ groups)) as [Hrest|Hrest].
      * rewrite <- Hworld1. by apply Hplanned.
      * apply elem_of_cons in Hg as [->|?]; [|done].
        rewrite (Hother group Hrest), dict_get_set. congruence.
    + intros g Hg. apply not_elem_of_cons in Hg as [Hne Hrest].
      rewrite (Hother g Hrest). by apply DictFacts.get_set_other.
Qed.

(** X12. From a sound cache and for groups that are in both
    dictionaries, [_generate_group_operations] returns an operations
    dictionary whose keys are the valid groups and that records for
    each of them what the directories determine: the additions of X10,
    the deletions of X11 and the override decision on these two lists.
    The flag is always filled in. Nothing is sent. *)
Theorem operations_are_planned_from_the_directories
    (source_dict destination_dict : Dict.odict group)
    (valid_sync_groups : list string) (s : state W) :
  cache_sound s →
  (∀ group, group ∈ valid_sync_groups →
            is_Some (Dict.get source_dict group)
            ∧ is_Some (Dict.get destination_dict group)) →
  ∃ group_operations s',
    _generate_group_operations self_basic_config
      source_dict destination_dict valid_sync_groups s
    = (value group_operations, s')
    ∧ world s' = world s
    ∧ requests s' = requests s
    ∧ cache_sound s'
    ∧ (∀ group, group ∈ Dict.keys group_operations ↔ group ∈ valid_sync_groups)
    ∧ (∀ group source destination,
         group ∈ valid_sync_groups →
         Dict.get source_dict group = Some source →
         Dict.get destination_dict group = Some destination →
         Dict.get group_operations group
         = Some (planned (world s) source destination group)).
Proof.
  intros Hsound Hpresent.
  destruct (operations_loop_run source_dict destination_dict
              valid_sync_groups [] s Hsound Hpresent)
    as (group_operations & s' & Hrun & Hworld & Hrequests & Hsound'
        & Hplanned & Hother).
  exists group_operations, s'. split; [exact Hrun|].
  do 3 (split; [done|]). split; [|exact Hplanned].
  intros group. rewrite Eligibility.get_keys.
  destruct (decide (group ∈ valid_sync_groups)) as [Hin|Hout].
  - destruct (Hpresent group Hin) as [[source Hsource] [destination Hdestination]].
    rewrite (Hplanned group source destination Hin Hsource Hdestination).
    split; [done|by eauto].
  - rewrite (Hother group Hout). cbn [Dict.get]. split; [by intros [? ?]|done].
Qed.

End Facts.

(** The group [staff] of the directory [office]: [john] is a member in
    the primary directory, [jane] in the secondary one. *)
Definition office_in_ad : Dict.odict group :=
  [ ("staff",
     {| group_id := 1200; group_dn := "CN=staff,OU=Groups,DC=example,DC=com";
        names := [Sample.john]; group_server_type := ad |}) ].

Definition office_in_openldap : Dict.odict group :=
  [ ("staff",
     {| group_id := 1200; group_dn := "cn=staff,ou=Group,dc=example,dc=com";
        names := ["jane"]; group_server_type := openldap |}) ].

Definition johnd : account_data :=
  {| sAMAccountName := "johnd"; country_code := Some "GB";
     account_active := true |}.

Lemma john_resolves_to_johnd :
  fresh_answer (Sample.sample_basic_config None None) Sample.office Sample.john
  = johnd.
Proof. vm_compute. reflexivity. Qed.

(** [john] resolves to [johnd]; the second call is answered from the
    cache. *)
Lemma lookup_cache_is_transparent_witness :
  ∃ s',
    _lookup_ad_user (Sample.sample_basic_config None None) Sample.john
      (initial_state Sample.office) = (value johnd, s')
    ∧ _lookup_ad_user (Sample.sample_basic_config None None) Sample.john s'
      = (value johnd, s').
Proof.
  destruct (lookup_cache_is_transparent (Sample.sample_basic_config None None)
              Sample.john (initial_state Sample.office)
              (initial_cache_sound _ _))
    as (s' & Hrun & _ & _ & _ & Hagain).
  cbn [initial_state world] in *. rewrite john_resolves_to_johnd in *.
  exists s'. split; [exact Hrun|].
  by destruct Hagain as [[_ Hagain]|[Hunknown _]].
Defined.

(** [johnd] is to be added to [staff] and [jane] is to be removed. *)
Lemma additions_are_the_new_active_logins_witness :
  ∃ s',
    _generate_additions (Sample.sample_basic_config None None)
      office_in_ad office_in_openldap "staff" (initial_state Sample.office)
    = (value ["johnd"], s').
Proof.
  destruct (additions_are_the_new_active_logins
              (Sample.sample_basic_config None None)
              office_in_ad office_in_openldap "staff"
              {| group_id := 1200;
                 group_dn := "CN=staff,OU=Groups,DC=example,DC=com";
                 names := [Sample.john]; group_server_type := ad |}
              {| group_id := 1200;
                 group_dn := "cn=staff,ou=Group,dc=example,dc=com";
                 names := ["jane"]; group_server_type := openldap |}
              (initial_state Sample.office)
              (initial_cache_sound _ _) eq_refl eq_refl)
    as (s' & Hrun & _).
  exists s'. rewrite Hrun. vm_compute. reflexivity.
Defined.

Lemma operations_are_planned_from_the_directories_witness :
  ∃ s',
    _generate_group_operations (Sample.sample_basic_config None None)
      office_in_ad office_in_openldap ["staff"] (initial_state Sample.office)
    = (value [ ("staff",
                {| additions := ["johnd"]; deletions := ["jane"];
                   override_required := Some false |}) ], s').
Proof.
  destruct (operations_are_planned_from_the_directories
              (Sample.sample_basic_config None None)
              office_in_ad office_in_openldap ["staff"]
              (initial_state Sample.office) (initial_cache_sound _ _))
    as (group_operations & s' & Hrun & _).
  { intros group ->%list_elem_of_singleton. split; by eexists. }
  exists s'. rewrite Hrun. vm_compute in Hrun. by injection Hrun as <-.
Defined.

Lemma deletions_are_the_unclaimed_members_witness :
  ∃ s',
    _generate_deletions (Sample.sample_basic_config None None)
      office_in_openldap office_in_ad "staff" (initial_state Sample.office)
    = (value ["jane"], s').
Proof.
  destruct (deletions_are_the_unclaimed_members
              (Sample.sample_basic_config None None)
              office_in_openldap office_in_ad "staff"
              {| group_id := 1200;
                 group_dn := "CN=staff,OU=Groups,DC=example,DC=com";
                 names := [Sample.john]; group_server_type := ad |}
              {| group_id := 1200;
                 group_dn := "cn=staff,ou=Group,dc=example,dc=com";
                 names := ["jane"]; group_server_type := openldap |}
              (initial_state Sample.office)
              (initial_cache_sound _ _) eq_refl eq_refl)
    as (s' & Hrun & _).
  exists s'. rewrite Hrun. vm_compute. reflexivity.
Defined.

End Reconciliation.

(** ** Groups without nested groups *)

Module FlatGroups.
Import GroupSync Flattening.

Section Facts.
Context {W : Type} `{!Env W}.
Variable self_basic_config : basic_config.

Local Abbreviation config := (bc_config self_basic_config).

(** The primary directory has the object with the class [user]. *)
Definition is_user (w : W) (ad_object : string) : bool :=
  match classes_of_filter self_basic_config w (filter_of ad_object) with
  | Some classes => bool_decide ("user" ∈ classes)
  | None => false
  end.

(** The primary directory has the object, and it is a user or it is
    not a group. *)
Definition leaf (w : W) (ad_object : string) : Prop :=
  ∃ classes,
    classes_of_filter self_basic_config w (filter_of ad_object) = Some classes
    ∧ ("user" ∈ classes ∨ "group" ∉ classes).

(** One iteration of the loop of [_flatten_nested_group]. *)
Definition flatten_step
    (recursive_call : list string → list string → M W (gset string * list string))
    (ad_object : string)
    (acc : gset string * gset string * list string)
    : M W (gset string * gset string * list string) :=
  let '(return_set, nested_members, called_groups) := acc in
  is_user ← _check_ad_object_type self_basic_config ad_object "user";
  if is_user : bool then
    mret ({[ad_object]} ∪ return_set, nested_members, called_groups)
  else
    is_group ← _check_ad_object_type self_basic_config ad_object "group";
    if is_group : bool then
      if bool_decide (ad_object ∉ called_groups) then
        let group_base_string := base (config_schema config ad) in
        let group_filter_string :=
          "(distinguishedName=" +:+ ad_object +:+ ")" in
        ad_search_result ←
          _group_search self_basic_config
            ad group_base_string group_filter_string ["member"];
        first ← expect IndexError (ad_search_result !! 0%nat);
        object_members ←
          expect KeyError (attr_members (entry_attributes first));
        let called_groups := called_groups ++ Str.chars ad_object in
        '(nested_members, called_groups) ←
          recursive_call called_groups object_members;
        mret (return_set, nested_members, called_groups)
      else mret (return_set, nested_members, called_groups)
    else
      logger WARNING (unexpected_object_type ad_object);;
      mret (return_set, nested_members, called_groups).

Lemma flatten_body_unfold recursive_call called_groups group_members :
  flatten_body self_basic_config recursive_call called_groups group_members
  = ('(return_set, nested_members, called_groups) ←
       for_in group_members (flatten_step recursive_call) (∅, ∅, called_groups);
     mret (nested_members ∪ return_set, called_groups)).
Proof. reflexivity. Qed.

(** [_check_ad_object_type] on an object that the directory has. *)
Lemma check_ad_object_type_frame
    (ad_object object_type : string) (classes : list string) (s : state W) :
  cache_consistent self_basic_config s →
  classes_of_filter self_basic_config (world s) (filter_of ad_object)
  = Some classes →
  ∃ s',
    _check_ad_object_type self_basic_config ad_object object_type s
    = (value (bool_decide (object_type ∈ classes)), s')
    ∧ world s' = world s
    ∧ requests s' = requests s
    ∧ run_status s' = run_status s
    ∧ log s' = log s
    ∧ cache_consistent self_basic_config s'.
Proof.
  intros Hcache Hclasses. unfold _check_ad_object_type. run_step.
  fold (filter_of ad_object).
  destruct (object_lookup_cache s !! filter_of ad_object) as [hit|] eqn:Hhit.
  - apply Hcache in Hhit. rewrite Hclasses in Hhit. injection Hhit as <-.
    by exists s.
  - unfold classes_of_filter in Hclasses.
    destruct (_ !! 0%nat) as [first|] eqn:Hfirst; simpl in Hclasses; [|discriminate].
    rewrite Hclasses. run_step. eexists. split; [reflexivity|].
    do 4 (split; [done|]).
    intros filter_string classes'. cbn [object_lookup_cache world].
    destruct (decide (filter_of ad_object = filter_string)) as [<-|Hne].
    + rewrite lookup_insert_eq. intros [= <-].
      unfold classes_of_filter. rewrite Hfirst. simpl. congruence.
    + rewrite lookup_insert_ne by done. apply Hcache.
Qed.

Lemma flatten_step_leaf recursive_call (ad_object : string)
    (return_set nested_members : gset string) (called_groups : list string)
    (s : state W) :
  cache_consistent self_basic_config s →
  leaf (world s) ad_object →
  ∃ s',
    flatten_step recursive_call ad_object
      (return_set, nested_members, called_groups) s
    = (value ((if is_user (world s) ad_object then {[ad_object]} else ∅)
              ∪ return_set, nested_members, called_groups), s')
    ∧ world s' = world s
    ∧ requests s' = requests s
    ∧ run_status s' = run_status s
    ∧ cache_consistent self_basic_config s'.
Proof.
  intros Hcache (classes & Hclasses & Hleaf).
  unfold flatten_step, is_user. rewrite Hclasses.
  unfold mbind at 1, M_bind at 1.
  destruct (check_ad_object_type_frame ad_object "user" classes s Hcache Hclasses)
    as (s1 & -> & Hworld1 & Hrequests1 & Hstatus1 & _ & Hcache1).
  destruct (bool_decide ("user" ∈ classes)) eqn:Huser.
  { by exists s1. }
  apply bool_decide_eq_false in Huser.
  destruct Hleaf as [?|Hgroup]; [done|].
  unfold mbind at 1, M_bind at 1.
  destruct (check_ad_object_type_frame ad_object "group" classes s1 Hcache1)
    as (s2 & -> & Hworld2 & Hrequests2 & Hstatus2 & _ & Hcache2);
    [by rewrite Hworld1|].
  rewrite (bool_decide_eq_false_2 _ Hgroup). run_step.
  eexists. split; [by rewrite (left_id_L ∅ (∪))|].
  cbn [world requests run_status].
  split; [congruence|]. split; [congruence|]. split; [congruence|].
  intros filter_string classes'. cbn [object_lookup_cache world]. apply Hcache2.
Qed.

Lemma flatten_loop_leaves recursive_call (group_members : list string)
    (return_set nested_members : gset string) (called_groups : list string)
    (s : state W) :
  cache_consistent self_basic_config s →
  Forall (leaf (world s)) group_members →
  ∃ s',
    for_in group_members (flatten_step recursive_call)
      (return_set, nested_members, called_groups) s
    = (value (list_to_set (filter (λ member, is_user (world s) member) group_members)
              ∪ return_set, nested_members, called_groups), s')
    ∧ world s' = world s
    ∧ requests s' = requests s
    ∧ run_status s' = run_status s
    ∧ cache_consistent self_basic_config s'.
Proof.
  revert return_set s.
  induction group_members as [|member members IH]; intros return_set s Hcache Hleaves.
  - exists s. split; [|done]. cbn [for_in]. rewrite filter_nil, list_to_set_nil.
    by rewrite (left_id_L ∅ (∪)).
  - apply Forall_cons in Hleaves as [Hleaf Hleaves]. rewrite for_in_cons.
    destruct (flatten_step_leaf recursive_call member return_set nested_members
                called_groups s Hcache Hleaf)
      as (s1 & -> & Hworld1 & Hrequests1 & Hstatus1 & Hcache1).
    destruct (IH ((if is_user (world s) member then {[member]} else ∅) ∪ return_set)
                s1 Hcache1) as (s' & -> & Hworld & Hrequests & Hstatus & Hcache');
      [by rewrite Hworld1|].
    exists s'. rewrite Hworld1. split; [|by rewrite Hworld, Hrequests, Hstatus].
    do 4 f_equal.
    destruct (is_user (world s) member) eqn:Huser.
    + rewrite filter_cons_True by (by rewrite Huser).
      rewrite list_to_set_cons, (assoc_L (∪)).
      by rewrite (comm_L (∪) _ {[member]}).
    + rewrite filter_cons_False by (rewrite Huser; by intros []).
      by rewrite (left_id_L ∅ (∪)).
Qed.

(** X13. Flattening a group that has no nested group gives the users
    among its members. When every member exists in the primary
    directory and is a user or, at least, not a group,
    [_flatten_nested_group] returns the set of the members that have
    the class [user]; other objects are left out with a warning.
    [called_groups] is returned as it was, nothing is sent, and the run
    status is not touched. *)
Theorem flat_group_flattens_to_its_users
    (depth : nat) (called_groups group_members : list string) (s : state W) :
  cache_consistent self_basic_config s →
  Forall (leaf (world s)) group_members →
  ∃ s',
    _flatten_nested_group self_basic_config (S depth) called_groups group_members s
    = (value (list_to_set
                (filter (λ member, is_user (world s) member) group_members),
              called_groups), s')
    ∧ world s' = world s
    ∧ requests s' = requests s
    ∧ run_status s' = run_status s
    ∧ cache_consistent self_basic_config s'.
Proof.
  intros Hcache Hleaves. cbn [_flatten_nested_group].
  rewrite flatten_body_unfold. unfold mbind at 1, M_bind at 1.
  destruct (flatten_loop_leaves
              (_flatten_nested_group self_basic_config depth)
              group_members ∅ ∅ called_groups s Hcache Hleaves)
    as (s' & -> & Hframe).
  exists s'. split; [|exact Hframe].
  unfold mret, M_ret. do 3 f_equal.
  by rewrite (left_id_L ∅ (∪)), (right_id_L ∅ (∪)).
Qed.

(** X14. A member that the primary directory does not return ends the
    flattening with an [IndexError]: nothing has been logged or sent,
    and the members after it are not looked at. *)
Theorem dangling_member_aborts_flattening
    (depth : nat) (called_groups : list string) (ad_object : string)
    (rest : list string) (s : state W) :
  object_lookup_cache s !! filter_of ad_object = None →
  (ldap_search (world s) ad (base (config_schema config ad))
     (filter_of ad_object) ["objectClass"]).2 = [] →
  _flatten_nested_group self_basic_config (S depth) called_groups
    (ad_object :: rest) s
  = (raised IndexError, s).
Proof.
  intros Hmiss Hnone. cbn [_flatten_nested_group].
  rewrite flatten_body_unfold. unfold mbind at 1, M_bind at 1.
  rewrite for_in_cons. unfold flatten_step at 1.
  unfold mbind at 1, M_bind at 1.
  unfold _check_ad_object_type. run_step.
  fold (filter_of ad_object). by rewrite Hmiss, Hnone.
Qed.

(** *** The group dictionaries *)









End Facts.

(** The group [eng] of the directory [siblings] has the one member
    [john], a user. *)
Lemma flat_group_flattens_to_its_users_witness :
  ∃ s',
    _flatten_nested_group plain 1 [Sample.eng] [Sample.john]
      (initial_state Sample.siblings)
    = (value (list_to_set
                (filter (λ member, is_user plain Sample.siblings member)
                   [Sample.john]),
              [Sample.eng]), s')
    ∧ run_status s' = true.
Proof.
  assert (Forall (leaf plain (world (initial_state Sample.siblings)))
            [Sample.john]) as Hleaves.
  { constructor; [|constructor]. exists Sample.user_classes.
    split; [by vm_compute|]. left. apply (bool_decide_unpack _). by vm_compute. }
  destruct (flat_group_flattens_to_its_users plain 0 [Sample.eng] [Sample.john]
              (initial_state Sample.siblings)
              (initial_cache_consistent _) Hleaves)
    as (s' & Hrun & _ & _ & Hstatus & _).
  exists s'. split; [exact Hrun|exact Hstatus].
Defined.



(** The directory [ghost] has no object [CN=Ghost]. *)
Lemma dangling_member_aborts_flattening_witness :
  _flatten_nested_group plain 1 [Sample.eng]
    ["CN=Ghost,OU=Users,DC=example,DC=com"; Sample.john]
    (initial_state Sample.ghost)
  = (raised IndexError, initial_state Sample.ghost).
Proof.
  apply (dangling_member_aborts_flattening plain 0 [Sample.eng]
           "CN=Ghost,OU=Users,DC=example,DC=com" [Sample.john]
           (initial_state Sample.ghost)).
  - by vm_compute.
  - by vm_compute.
Defined.

End FlatGroups.

(** ** Creation of the missing groups *)

Module GroupCreation.
Import GroupSync Eligibility Candidates.

Section Facts.
Context {W : Type} `{!Env W}.
Variable self_basic_config : basic_config.

Local Abbreviation config := (bc_config self_basic_config).

(** X16. A group that [_new_ldap_group] creates without marking the
    run failed is ready for synchronisation in the same run: when the
    call returns with the run status still [True], the group is in both
    dictionaries with the same id, and its entry in the secondary
    dictionary has no members. When the group of the primary directory
    already has an id (neither [0] nor [-1]) that id is used and the
    primary dictionary is not changed. *)
Theorem created_group_is_eligible
    (group : string)
    (openldap_group_dictionary ad_group_dictionary : Dict.odict GroupSync.group)
    (openldap_after ad_after : Dict.odict GroupSync.group)
    (group_details : GroupSync.group) (s s' : state W) :
  Dict.get ad_group_dictionary group = Some group_details →
  _new_ldap_group self_basic_config openldap group
    openldap_group_dictionary ad_group_dictionary s
  = (value (openldap_after, ad_after), s') →
  run_status s' = true →
  eligible ad_after openldap_after group
  ∧ ∃ created,
      Dict.get openldap_after group = Some created
      ∧ names created = []
      ∧ group_server_type created = openldap
      ∧ (group_id group_details ≠ 0 → group_id group_details ≠ -1 →
         group_id created = group_id group_details
         ∧ ad_after = ad_group_dictionary).
Proof.
  intros Hdetails. unfold _new_ldap_group.
  unfold mbind at 1, M_bind at 1. rewrite Hdetails. cbn [expect].
  unfold mret at 1, M_ret at 1. cbv zeta.
  destruct (bool_decide (group_id group_details ≠ 0)
            && bool_decide (group_id group_details ≠ -1)) eqn:Hvalid.
  - run_step.
    destruct (ldap_add _ _ _ _ _) as [result w']. run_step.
    destruct (decide (result ≠ 0)); run_step; intros [= <- <- <-]; [done|].
    intros _.
    split.
    + exists group_details. eexists. split; [done|]. split; [apply dict_get_set|done].
    + eexists. split; [apply dict_get_set|]. done.
  - unfold mbind at 1, M_bind at 1. unfold mbind at 1, M_bind at 1.
    destruct (get_next_gid_uid_number self_basic_config false s)
      as [[gid|e] s1]; [|done].
    run_step.
    destruct (ldap_modify _ _ _ _) as [result w']. run_step.
    destruct (decide (result ≠ 0)); run_step.
    + destruct (ldap_add _ _ _ _ _) as [result' w'']. run_step.
      destruct (decide (result' ≠ 0)); run_step; by intros [= <- <- <-].
    + destruct (ldap_add _ _ _ _ _) as [result' w'']. run_step.
      destruct (decide (result' ≠ 0)); run_step; intros [= <- <- <-]; [done|].
      intros _.
      split.
      * eexists _, _. split; [apply dict_get_set|]. split; [apply dict_get_set|done].
      * eexists. split; [apply dict_get_set|]. split; [done|]. split; [done|].
        intros Hzero Hminus.
        rewrite (bool_decide_eq_true_2 _ Hzero), (bool_decide_eq_true_2 _ Hminus)
          in Hvalid. done.
Qed.

End Facts.

(** The group [staff] has the id 1200 in the primary directory; the
    secondary directory accepts the creation. *)
Lemma created_group_is_eligible_witness :
  eligible Sample.staff_in_ad
    [ ("staff",
       {| group_id := 1200; group_dn := "cn=staff,ou=Group,dc=example,dc=com";
          names := []; group_server_type := openldap |}) ]
    "staff".
Proof.
  assert (_new_ldap_group (Sample.sample_basic_config None None) openldap "staff"
            [] Sample.staff_in_ad (initial_state Sample.siblings)
          = (value
               ([ ("staff",
                   {| group_id := 1200;
                      group_dn := "cn=staff,ou=Group,dc=example,dc=com";
                      names := []; group_server_type := openldap |}) ],
                Sample.staff_in_ad),
             (_new_ldap_group (Sample.sample_basic_config None None) openldap
                "staff" [] Sample.staff_in_ad (initial_state Sample.siblings)).2))
    as Hrun by (vm_compute; reflexivity).
  apply (created_group_is_eligible (Sample.sample_basic_config None None)
           "staff" [] Sample.staff_in_ad _ _
           {| group_id := 1200;
              group_dn := "CN=staff,OU=Groups,DC=example,DC=com";
              names := ["CN=Alice Roe,OU=Users,DC=example,DC=com"];
              group_server_type := ad |}
           _ _ eq_refl Hrun).
  vm_compute. reflexivity.
Defined.

End GroupCreation.

(** ** A search that fails *)

Module SearchFailure.
Import GroupSync.

Section Facts.
Context {W : Type} `{!Env W}.
Variable self_basic_config : basic_config.

Local Abbreviation config := (bc_config self_basic_config).

(** The monitoring file of the group runner. *)
Definition monitoring_file : string :=
  "group_sync" +:+ "_" +:+ monitoring_log_file (config_settings config).

(** The state after the report of a failed search: the error line and,
    when the monitoring file can be written, the text [False] in it;
    otherwise the two lines about the file. *)
Definition search_failure_reported (s : state W) : state W :=
  match path_write_text (world s) monitoring_file "False" with
  | Some w' =>
      {| world := w'; run_status := run_status s;
         user_lookup_cache := user_lookup_cache s;
         object_lookup_cache := object_lookup_cache s;
         log := log s ++ [(ERROR, search_failed_exiting)];
         requests := requests s ++ [write_request monitoring_file "False"] |}
  | None =>
      {| world := world s; run_status := run_status s;
         user_lookup_cache := user_lookup_cache s;
         object_lookup_cache := object_lookup_cache s;
         log := log s ++ [(ERROR, search_failed_exiting);
                          (ERROR, unable_to_open_file); (ERROR, os_error_text)];
         requests := requests s |}
  end.

Lemma group_search_run (connection : server_type)
    (base_string filter_string : string) (attrs : list string) (s : state W) :
  _group_search self_basic_config connection base_string filter_string attrs s
  = if decide ((ldap_search (world s) connection base_string filter_string attrs).1
               ≠ 0)
    then (raised (SystemExit 1), search_failure_reported s)
    else (value (ldap_search (world s) connection base_string filter_string attrs).2,
          s).
Proof.
  unfold _group_search, search_failure_reported, write_monitoring_log,
    monitoring_file.
  run_step.
  destruct (ldap_search _ _ _ _ _) as [result response]. cbn [fst snd].
  destruct (decide (result ≠ 0)); [|reflexivity]. run_step.
  destruct (path_write_text _ _ _); run_step; [reflexivity|].
  by rewrite <- !app_assoc.
Qed.

(** X17. A group search that the directory answers with a result code
    other than [0] ends the run: [_group_search] logs the error, writes
    [False] to the monitoring file of the group runner and exits with
    the code [1]; when the file cannot be written it exits with the
    code [1] all the same. The run status itself is not changed, and no
    request goes to a directory. *)
Theorem failed_group_search_exits
    (connection : server_type) (base_string filter_string : string)
    (attrs : list string) (s : state W) :
  (ldap_search (world s) connection base_string filter_string attrs).1 ≠ 0 →
  _group_search self_basic_config connection base_string filter_string attrs s
  = (raised (SystemExit 1), search_failure_reported s)
  ∧ run_status (search_failure_reported s) = run_status s
  ∧ (requests (search_failure_reported s)
     = requests s ++ [write_request monitoring_file "False"]
     ∨ requests (search_failure_reported s) = requests s).
Proof.
  intros Hfailed. rewrite group_search_run.
  destruct (decide (_ ≠ 0)); [|done]. split; [reflexivity|].
  unfold search_failure_reported.
  destruct (path_write_text _ _ _); cbn [run_status requests]; eauto.
Qed.

(** X18. When the search for the groups of the primary directory fails,
    the whole run is that report: [_main] exits with the code [1], and
    no group has been read, created or changed. *)
Theorem run_ends_when_the_primary_groups_cannot_be_read
    (recursion_limit : nat) (s : state W) :
  (ldap_search (world s) ad
     (groups (config_schema config ad) +:+ "," +:+ base (config_schema config ad))
     ("(objectclass="
        +:+ objects_group_obj_class (schema_objects (config_schema config ad))
        +:+ ")")
     ["*"]).1 ≠ 0 →
  _main self_basic_config recursion_limit s
  = (raised (SystemExit 1), search_failure_reported s).
Proof.
  intros Hfailed. unfold _main. cbv zeta.
  unfold mbind at 1, M_bind at 1. rewrite group_search_run.
  by destruct (decide (_ ≠ 0)).
Qed.

End Facts.

(** Directories that answer every search with the result code [1]. The
    file system works or not. *)
Record outage := { file_system_works : bool }.

#[global] Instance outage_env : Env outage := {|
  ldap_search w _ _ _ _ := (1, []);
  ldap_modify w _ _ _ := (1, w);
  ldap_add w _ _ _ _ := (1, w);
  path_write_text w _ _ := if file_system_works w then Some w else None |}.

Lemma failed_group_search_exits_witness :
  (_group_search (Sample.sample_basic_config None None) openldap
     "ou=Group,dc=example,dc=com" "(objectclass=posixGroup)" ["*"]
     (initial_state {| file_system_works := true |})).1
  = raised (SystemExit 1)
  ∧ requests
      (_group_search (Sample.sample_basic_config None None) openldap
         "ou=Group,dc=example,dc=com" "(objectclass=posixGroup)" ["*"]
         (initial_state {| file_system_works := true |})).2
    = [write_request "group_sync_monitoring.log" "False"].
Proof.
  destruct (failed_group_search_exits (Sample.sample_basic_config None None)
              openldap "ou=Group,dc=example,dc=com" "(objectclass=posixGroup)"
              ["*"] (initial_state {| file_system_works := true |}))
    as (-> & _); [by vm_compute|].
  split; [reflexivity|]. vm_compute. reflexivity.
Defined.

Lemma run_ends_when_the_primary_groups_cannot_be_read_witness :
  (_main (Sample.sample_basic_config None None) 1000
     (initial_state {| file_system_works := false |})).1
  = raised (SystemExit 1)
  ∧ requests
      (_main (Sample.sample_basic_config None None) 1000
         (initial_state {| file_system_works := false |})).2
    = [].
Proof.
  rewrite (run_ends_when_the_primary_groups_cannot_be_read
             (Sample.sample_basic_config None None) 1000
             (initial_state {| file_system_works := false |}));
    [|by vm_compute].
  split; [reflexivity|]. vm_compute. reflexivity.
Defined.

End SearchFailure.

(** ** A whole run *)

Module WholeRun.
Import GroupSync Frame Flattening FlatGroups Reconciliation Footprint SearchFailure.

Section Facts.
Context {W : Type} `{!Env W}.
Variable self_basic_config : basic_config.

Local Abbreviation config := (bc_config self_basic_config).

(** The cache of resolved users is the same. *)
Definition same_users : relation (state W) :=
  λ s s', user_lookup_cache s' = user_lookup_cache s.

#[local] Instance same_users_refl : Reflexive same_users.
Proof. by intros s. Qed.

#[local] Instance same_users_trans : Transitive same_users.
Proof. intros s1 s2 s3 H1 H2. unfold same_users in *. congruence. Qed.

Ltac remembers := repeat keep_step ltac:(reflexivity).

Lemma write_monitoring_log_same_users status runner :
  keeps same_users (write_monitoring_log self_basic_config status runner).
Proof. unfold write_monitoring_log. remembers. Qed.
#[local] Hint Resolve write_monitoring_log_same_users : keeps.

Lemma group_search_same_users connection base_string filter_string attrs :
  keeps same_users
    (_group_search self_basic_config connection base_string filter_string attrs).
Proof. unfold _group_search. remembers. Qed.
#[local] Hint Resolve group_search_same_users : keeps.

Lemma check_ad_object_type_same_users ad_object object_type :
  keeps same_users (_check_ad_object_type self_basic_config ad_object object_type).
Proof. unfold _check_ad_object_type. remembers. Qed.
#[local] Hint Resolve check_ad_object_type_same_users : keeps.

Lemma flatten_nested_group_same_users depth called_groups group_members :
  keeps same_users
    (_flatten_nested_group self_basic_config depth called_groups group_members).
Proof.
  revert called_groups group_members.
  induction depth as [|depth IH]; intros called_groups group_members;
    cbn [_flatten_nested_group]; [apply keeps_raise; apply _|].
  unfold flatten_body. remembers.
Qed.
#[local] Hint Resolve flatten_nested_group_same_users : keeps.


(** *** The steps of [_main] *)













(** *** The run *)

Definition group_base_string (server : server_type) : string :=
  groups (config_schema config server) +:+ "," +:+ base (config_schema config server).

Definition group_filter_string (server : server_type) : string :=
  "(objectclass="
    +:+ objects_group_obj_class (schema_objects (config_schema config server))
    +:+ ")".







End Facts.


End WholeRun.

(** ** Properties of the exception lookup of the user runner *)

Module UserExceptionsFacts.
Import UserExceptions DictFacts.

Lemma get_pop_other {V} (d : Dict.odict V) (k k' : string) :
  k ≠ k' → Dict.get (pop d k) k' = Dict.get d k'.
Proof.
  intros Hne. induction d as [|[k0 v0] d IH]; cbn [Dict.get pop]; [done|].
  destruct (decide (k0 = k)) as [->|Hk0]; cbn [Dict.get].
  - by destruct (decide (k = k')).
  - by destruct (decide (k0 = k')).
Qed.

Lemma get_pop_same {V} (d : Dict.odict V) (k : string) :
  Dict.get (pop d k) k = None.
Proof.
  induction d as [|[k0 v0] d IH]; cbn [Dict.get pop]; [done|].
  destruct (decide (k0 = k)) as [->|Hk0]; cbn [Dict.get]; [done|].
  by destruct (decide (k0 = k)).
Qed.

Section Facts.
Variable basic_config : basic_config.
Variable ad_primary_key : string.

(** The primary name of an account of the primary directory. *)
Definition primary_name (entry : user_entry) : option value :=
  entry_ad entry ≫= λ ad_record, Dict.get ad_record ad_primary_key.

(** Every account of the primary directory has its primary name, a
    string. *)
Definition named (all_users : Dict.odict user_entry) : Prop :=
  ∀ user entry,
    Dict.get all_users user = Some entry →
    has_attributes (entry_ad entry) = true →
    ∃ name, primary_name entry = Some (text name).

(** The marked record. *)
Definition marked (ad_record : record) : record :=
  Dict.set ad_record "uid" (text "NONE").

(** Where the records of [after] come from: a record of the secondary
    directory is the one that the user had in [before]; a record of the
    primary directory is the record of some user of [before], marked or
    not. *)
Definition from (before after : Dict.odict user_entry) : Prop :=
  ∀ user entry,
    Dict.get after user = Some entry →
    (∀ r, entry_openldap entry = Some r →
          ∃ old, Dict.get before user = Some old ∧ entry_openldap old = Some r)
    ∧ (∀ r, entry_ad entry = Some r →
            ∃ source old r0,
              Dict.get before source = Some old
              ∧ entry_ad old = Some r0
              ∧ (r = r0 ∨ r = marked r0)).

Lemma from_refl (all_users : Dict.odict user_entry) : from all_users all_users.
Proof.
  intros user entry Hentry. split; intros r Hr; [by eauto|].
  exists user, entry, r. by eauto.
Qed.

Lemma marked_named (ad_record : record) (name : string) :
  Dict.get ad_record ad_primary_key = Some (text name) →
  ∃ name', Dict.get (marked ad_record) ad_primary_key = Some (text name').
Proof.
  intros Hname. unfold marked.
  destruct (decide ("uid" = ad_primary_key)) as [<-|Hother].
  - rewrite Candidates.dict_get_set. by eauto.
  - rewrite get_set_other by done. by eauto.
Qed.

Lemma marked_has_attributes (ad_record : record) :
  has_attributes (Some (marked ad_record)) = true.
Proof.
  unfold marked. destruct ad_record as [|[k v] r]; cbn [Dict.set]; [done|].
  by destruct (decide (k = "uid")).
Qed.

(** One iteration keeps what the loop relies on. *)
Lemma lookup_user_step (before all_users : Dict.odict user_entry)
    (user : string) (rest : list string) :
  is_Some (bc_exceptions basic_config) →
  named all_users →
  from before all_users →
  is_Some (Dict.get all_users user) →
  user ∉ rest →
  (∀ u, u ∈ rest → is_Some (Dict.get all_users u)) →
  ∃ after,
    lookup_user basic_config ad_primary_key all_users user = inr after
    ∧ named after
    ∧ from before after
    ∧ (∀ u, u ∈ rest → is_Some (Dict.get after u)).
Proof.
  intros [exceptions Hexceptions] Hnamed Hfrom [entry Hentry] Hfresh Hrest.
  unfold lookup_user. rewrite Hentry.
  destruct (has_attributes (entry_ad entry)) eqn:Hattributes; [|by eauto].
  destruct (Hnamed user entry Hentry Hattributes) as [name Hname].
  unfold primary_name in Hname. rewrite Hname.
  unfold in_exceptions. rewrite Hexceptions.
  destruct (bool_decide (is_Some (exceptions !! name))); [|by eauto].
  cbn [mbind option_bind].
  destruct (exceptions !! user) as [exception|]; [|by eauto].
  destruct (bool_decide (exception ≠ "") && bool_decide (exception ≠ "NONE"))
    eqn:Hmove.
  - (* the record moves to [exception] *)
    set (prepared :=
           if has_entry (Dict.get all_users exception) then all_users
           else Dict.set all_users exception
                  {| entry_ad := None; entry_openldap := None |}).
    assert (∃ target,
              Dict.get prepared exception = Some target
              ∧ (entry_openldap target = None
                 ∨ Dict.get all_users exception = Some target)) as
      (target & Htarget & Hkept).
    { unfold prepared.
      destruct (Dict.get all_users exception) as [target|] eqn:Hold; cbn [has_entry].
      - destruct (_ || _) eqn:Hentry'.
        + exists target. by eauto.
        + rewrite Candidates.dict_get_set. eexists. by eauto.
      - rewrite Candidates.dict_get_set. eexists. by eauto. }
    assert (∀ u, u ≠ exception → Dict.get prepared u = Dict.get all_users u)
      as Hprepared.
    { intros u Hu. unfold prepared.
      destruct (has_entry _); [done|]. by rewrite get_set_other. }
    rewrite Htarget. eexists. split; [reflexivity|].
    assert (∀ u e,
              Dict.get
                (pop (Dict.set prepared exception
                        {| entry_ad := entry_ad entry;
                           entry_openldap := entry_openldap target |}) user) u
              = Some e →
              u ≠ user
              ∧ ((u = exception
                  ∧ e = {| entry_ad := entry_ad entry;
                           entry_openldap := entry_openldap target |})
                 ∨ (u ≠ exception ∧ Dict.get all_users u = Some e))) as Hshape.
    { intros u e. destruct (decide (u = user)) as [->|Hu].
      { by rewrite get_pop_same. }
      rewrite get_pop_other by done.
      destruct (decide (u = exception)) as [->|Hu'].
      - rewrite Candidates.dict_get_set. intros [= <-]. by eauto.
      - rewrite get_set_other by done. rewrite Hprepared by done. by eauto. }
    split; [|split].
    + intros u e Hu Hattributes'.
      destruct (Hshape u e Hu) as [_ [[-> ->]|[_ Hold]]].
      * exists name. exact Hname.
      * by apply (Hnamed u e).
    + intros u e Hu.
      destruct (Hshape u e Hu) as [_ [[-> ->]|[_ Hold]]]; [|by apply Hfrom].
      cbn [entry_ad entry_openldap]. split.
      * intros r Hr. destruct Hkept as [Hnone|Hold]; [congruence|].
        by apply (Hfrom exception target).
      * intros r Hr. by apply (Hfrom user entry).
    + intros u Hu. assert (u ≠ user) as Hne by (by intros ->).
      rewrite get_pop_other by done.
      destruct (decide (u = exception)) as [->|Hu'].
      * rewrite Candidates.dict_get_set. by eauto.
      * rewrite get_set_other, Hprepared by done. by apply Hrest.
  - destruct (bool_decide (exception ≠ "") && bool_decide (exception = "NONE"));
      [|by eauto].
    (* the record is marked *)
    eexists. split; [reflexivity|].
    destruct (entry_ad entry) as [ad_record|] eqn:Had; [|done].
    cbn [fmap option_fmap option_map]. fold (marked ad_record).
    assert (∀ u e,
              Dict.get
                (Dict.set all_users user
                   {| entry_ad := Some (marked ad_record);
                      entry_openldap := entry_openldap entry |}) u
              = Some e →
              (u = user
               ∧ e = {| entry_ad := Some (marked ad_record);
                        entry_openldap := entry_openldap entry |})
              ∨ (u ≠ user ∧ Dict.get all_users u = Some e)) as Hshape.
    { intros u e. destruct (decide (u = user)) as [->|Hu].
      - rewrite Candidates.dict_get_set. intros [= <-]. by eauto.
      - rewrite get_set_other by done. by eauto. }
    split; [|split].
    + intros u e Hu Hattributes'.
      destruct (Hshape u e Hu) as [[-> ->]|[_ Hold]]; [|by apply (Hnamed u e)].
      cbn [mbind option_bind] in Hname.
      destruct (marked_named ad_record name Hname) as [name' Hname'].
      exists name'. unfold primary_name. by cbn.
    + intros u e Hu.
      destruct (Hshape u e Hu) as [[-> ->]|[_ Hold]]; [|by apply Hfrom].
      cbn [entry_ad entry_openldap]. split.
      * intros r Hr. by apply (Hfrom user entry).
      * intros r [= <-].
        destruct (Hfrom user entry Hentry) as [_ Had'].
        destruct (Had' ad_record Had) as (source & old & r0 & Hsource & Hr0 & Hr).
        exists source, old, r0. split; [done|]. split; [done|]. right.
        destruct Hr as [->| ->]; [done|]. unfold marked. by rewrite set_set_same.
    + intros u Hu. assert (u ≠ user) as Hne by (by intros ->).
      rewrite get_set_other by done. by apply Hrest.
Qed.

Lemma for_users_run (before all_users : Dict.odict user_entry)
    (users : list string) :
  is_Some (bc_exceptions basic_config) →
  NoDup users →
  named all_users →
  from before all_users →
  (∀ u, u ∈ users → is_Some (Dict.get all_users u)) →
  ∃ after,
    for_users basic_config ad_primary_key users all_users = inr after
    ∧ named after
    ∧ from before after.
Proof.
  intros Hexceptions. revert all_users.
  induction users as [|user users IH]; intros all_users Hnodup Hnamed Hfrom Hkeys;
    [by eauto|].
  apply NoDup_cons in Hnodup as [Hfresh Hnodup]. cbn [for_users].
  destruct (lookup_user_step before all_users user users)
    as (after & -> & Hnamed' & Hfrom' & Hkeys'); try done.
  - apply Hkeys. by left.
  - intros u Hu. apply Hkeys. by right.
  - by apply IH.
Qed.

(** X19. [user_exception_lookup] moves and marks records, it does not
    make any up. When there is an exception table and every account of
    the primary directory in [all_users] has its primary name as a
    string, the call returns without an exception, and in the result:
    a record of the secondary directory is the record that the same
    user had before (the call never changes one and never gives one to
    another user), and a record of the primary directory is the record
    of a user of the input, as it was or with its [uid] set to the text
    [NONE]. *)
Theorem exception_lookup_moves_and_marks (all_users : Dict.odict user_entry) :
  is_Some (bc_exceptions basic_config) →
  NoDup (Dict.keys all_users) →
  named all_users →
  ∃ after,
    user_exception_lookup basic_config ad_primary_key all_users = inr after
    ∧ named after
    ∧ ∀ user entry,
        Dict.get after user = Some entry →
        (∀ r, entry_openldap entry = Some r →
              ∃ old, Dict.get all_users user = Some old
                     ∧ entry_openldap old = Some r)
        ∧ (∀ r, entry_ad entry = Some r →
                ∃ source old r0,
                  Dict.get all_users source = Some old
                  ∧ entry_ad old = Some r0
                  ∧ (r = r0 ∨ r = Dict.set r0 "uid" (text "NONE"))).
Proof.
  intros Hexceptions Hnodup Hnamed.
  apply (for_users_run all_users all_users (Dict.keys all_users));
    [done|done|done|apply from_refl|].
  intros u. apply Eligibility.get_keys.
Qed.

(** X20. An entry of the exception table takes effect only for a user
    whose primary name is a key of the table and whose key in
    [all_users] is a key of the table as well. When no user is of that
    kind, the call returns [all_users] as it is. *)
Theorem exception_lookup_without_matches (all_users : Dict.odict user_entry)
    (exceptions : gmap string string) :
  bc_exceptions basic_config = Some exceptions →
  (∀ user entry,
     Dict.get all_users user = Some entry →
     has_attributes (entry_ad entry) = true →
     ∃ name, primary_name entry = Some (text name)
             ∧ (exceptions !! name = None ∨ exceptions !! user = None)) →
  user_exception_lookup basic_config ad_primary_key all_users = inr all_users.
Proof.
  intros Hexceptions Hnone. unfold user_exception_lookup.
  assert (∀ logins, (∀ u, u ∈ logins → is_Some (Dict.get all_users u)) →
            for_users basic_config ad_primary_key logins all_users = inr all_users)
    as Hloop.
  { induction logins as [|user logins IH]; intros Hkeys; [done|].
    cbn [for_users].
    assert (lookup_user basic_config ad_primary_key all_users user = inr all_users)
      as ->.
    { destruct (Hkeys user) as [entry Hentry]; [by left|].
      unfold lookup_user. rewrite Hentry.
      destruct (has_attributes (entry_ad entry)) eqn:Hattributes; [|done].
      destruct (Hnone user entry Hentry Hattributes) as (name & Hname & Hmiss).
      unfold primary_name in Hname. rewrite Hname.
      unfold in_exceptions. rewrite Hexceptions. cbn [mbind option_bind].
      destruct (exceptions !! name) as [target|] eqn:Htarget.
      - destruct Hmiss as [?| ->]; [done|].
        by rewrite bool_decide_eq_true_2 by eauto.
      - by rewrite bool_decide_eq_false_2 by (by intros [? ?]). }
    apply IH. intros u Hu. apply Hkeys. by right. }
  apply Hloop. intros u. apply Eligibility.get_keys.
Qed.

End Facts.

(** [test.user1] is moved to [tuser], [jeffr] is marked, [adam] has no
    exception. *)
Definition sample_exceptions : gmap string string :=
  {[ "test.user1" := "tuser"; "jeffr" := "NONE" ]}.

Definition account (login : string) : option record :=
  Some [ ("sAMAccountName", text login); ("changes", mapping []) ].

Definition sample_users : Dict.odict user_entry :=
  [ ("test.user1",
     {| entry_ad := account "test.user1"; entry_openldap := None |});
    ("jeffr", {| entry_ad := account "jeffr"; entry_openldap := account "jeffr" |});
    ("adam", {| entry_ad := account "adam"; entry_openldap := account "adam" |}) ].

Lemma sample_users_named :
  named "sAMAccountName" sample_users.
Proof.
  intros user entry Hentry _. unfold sample_users in Hentry.
  cbn [Dict.get] in Hentry.
  repeat (case_decide; [injection Hentry as <-; by eexists|]).
  done.
Qed.

Lemma exception_lookup_moves_and_marks_witness :
  user_exception_lookup (Sample.sample_basic_config (Some sample_exceptions) None)
    "sAMAccountName" sample_users
  = inr [ ("jeffr",
           {| entry_ad :=
                Some [ ("sAMAccountName", text "jeffr"); ("changes", mapping []);
                       ("uid", text "NONE") ];
              entry_openldap := account "jeffr" |});
          ("adam", {| entry_ad := account "adam"; entry_openldap := account "adam" |});
          ("tuser", {| entry_ad := account "test.user1"; entry_openldap := None |}) ].
Proof.
  destruct (exception_lookup_moves_and_marks
              (Sample.sample_basic_config (Some sample_exceptions) None)
              "sAMAccountName" sample_users)
    as (after & Hrun & _).
  - by eexists.
  - apply (bool_decide_unpack _). by vm_compute.
  - exact sample_users_named.
  - rewrite Hrun. vm_compute in Hrun. by injection Hrun as <-.
Defined.

Lemma exception_lookup_without_matches_witness :
  user_exception_lookup (Sample.sample_basic_config (Some ∅) None)
    "sAMAccountName" sample_users
  = inr sample_users.
Proof.
  apply (exception_lookup_without_matches
           (Sample.sample_basic_config (Some ∅) None) "sAMAccountName"
           sample_users ∅ eq_refl).
  intros user entry Hentry Hattributes.
  destruct (sample_users_named user entry Hentry Hattributes) as [name Hname].
  exists name. split; [exact Hname|]. left. apply lookup_empty.
Defined.

End UserExceptionsFacts.
